(** * install.c: a shallow embedding and its specification

    install.c copies or symlinks one source file to a destination path:
    it parses its options with getopt(3), optionally creates the parent
    directories of the destination (mkparents), stages the result at
    "<dst>.tmp", applies chmod(2) and lchown(2) to the staged path and
    renames it onto the destination.

    The program is embedded as state-passing functions over a [world]:
    a file system, the identity databases, the two output streams, a log
    of the system calls made so far and a plan of injected failures.

    Conventions of the operating-system model (LP64 Linux):
    - unsigned long has 64 bits; uid_t, gid_t and mode_t have 32 bits;
    - a path is looked up by its list of components: repeated and trailing
      '/' and "." components are dropped, ".." is not interpreted;
    - only the last component of a path is followed through symbolic
      links, a relative link target is taken relative to the directory of
      the link; the statements that depend on the place a path leads to
      are made for paths written without ".." whose parent directories
      are not symbolic links ([no_dotdot], [plain_path]);
    - a file has one name: hard links are not represented; what depends
      on a name of its own for the temporary file is stated for runs
      before which nothing was at the temporary path;
    - a directory is created with the mode that the umask leaves and the
      identity of the process: a set-group-ID parent directory is not
      followed;
    - access permissions are not computed: a call that the kernel would
      refuse (EACCES, EPERM, EIO, ENOSPC, ENOMEM, ...) is represented by
      an entry of the plan for that call;
    - write(2) transfers the whole buffer unless the plan cuts that call
      short;
    - a fifo, a socket or a device reads as empty, unless the world
      lists it as one on which a read or a write never comes to an end:
      the run then stops at the open(2) of it, with the outcome [Hang].

    The recursion of mkparents and the copy loop are bounded by fuel in
    the embedding; [main_total] shows that the bounds are never reached:
    on every command line, in every world where no special file is
    stuck, main returns 0 or exits with status 0 or 1. *)

From Stdlib Require Import ZArith Lia Ascii String List Bool.
From Stdlib.Strings Require Import Byte.
From stdpp Require Import base option list gmap strings pretty.

Local Open Scope string_scope.
Local Open Scope Z_scope.
Local Open Scope list_scope.

(** ** C library: characters, strtoul(3), getopt(3) *)

Definition nl : string := String (ascii_of_nat 10) EmptyString.

Module CLib.

(** isspace(3) in the C locale. *)
Definition isspace (c : ascii) : bool :=
  let n := nat_of_ascii c in
  (Nat.eqb n 32 || (Nat.leb 9 n && Nat.leb n 13))%bool.

(** The value of [c] as a digit, for any base up to 36. *)
Definition digit_val (c : ascii) : option Z :=
  let n := Z.of_nat (nat_of_ascii c) in
  if (48 <=? n) && (n <=? 57) then Some (n - 48)
  else if (97 <=? n) && (n <=? 122) then Some (n - 97 + 10)
  else if (65 <=? n) && (n <=? 90) then Some (n - 65 + 10)
  else None.

Definition is_digit_in (base : Z) (c : ascii) : bool :=
  match digit_val c with
  | Some d => d <? base
  | None => false
  end.

Definition ULONG_MAX : Z := 2 ^ 64 - 1.

(** Octal constants of the source, in decimal. *)
Definition o0755 : Z := 493.
Definition o0777 : Z := 511.
Definition o0600 : Z := 384.
Definition o07777 : Z := 4095.
Definition S_ISUID : Z := 2048.  (* 04000 *)
Definition S_ISGID : Z := 1024.  (* 02000 *)
Definition S_IXGRP : Z := 8.     (* 00010 *)

Inductive errno :=
| ENOENT | EEXIST | ENOTDIR | EISDIR | ELOOP | EACCES | EPERM | EIO
| ENOSPC | ENOMEM | EROFS | ERANGE | EINVAL | EBADF | ENOTEMPTY | EBUSY.

Global Instance errno_eq_dec : EqDecision errno.
Proof. solve_decision. Defined.

Definition strerror (e : errno) : string :=
  match e with
  | ENOENT => "No such file or directory"
  | EEXIST => "File exists"
  | ENOTDIR => "Not a directory"
  | EISDIR => "Is a directory"
  | ELOOP => "Too many levels of symbolic links"
  | EACCES => "Permission denied"
  | EPERM => "Operation not permitted"
  | EIO => "Input/output error"
  | ENOSPC => "No space left on device"
  | ENOMEM => "Cannot allocate memory"
  | EROFS => "Read-only file system"
  | ERANGE => "Numerical result out of range"
  | EINVAL => "Invalid argument"
  | EBADF => "Bad file descriptor"
  | ENOTEMPTY => "Directory not empty"
  | EBUSY => "Device or resource busy"
  end.

(** strerror(errno) as main calls it: errno was reset to 0 before the
    call whose failure is reported, 0 prints as "Success". *)
Definition strerror_opt (e : option errno) : string :=
  match e with
  | Some e => strerror e
  | None => "Success"
  end.

Fixpoint skip_space (s : string) : string :=
  match s with
  | String c s' => if isspace c then skip_space s' else s
  | EmptyString => s
  end.

(** The digits of [s] in [base], most significant first: the value they
    denote on top of [acc], how many there are, and what follows them. *)
Fixpoint scan_digits (base : Z) (s : string) (acc : Z) (n : nat)
  : Z * nat * string :=
  match s with
  | String c s' =>
      match digit_val c with
      | Some d =>
          if d <? base then scan_digits base s' (acc * base + d) (S n)
          else (acc, n, s)
      | None => (acc, n, s)
      end
  | EmptyString => (acc, n, s)
  end.

Record strtoul_result := {
  st_val : Z;               (* the unsigned long returned *)
  st_end : string;          (* what *endptr points to *)
  st_errno : option errno;  (* errno after the call, None for 0 *)
}.

(** The base and the text after an optional "0x" prefix. *)
Definition strtoul_base (base : Z) (s : string) : Z * string :=
  match s with
  | String "0" (String x (String h _ as s')) =>
      if ((base =? 0) || (base =? 16))
         && (Ascii.eqb x "x" || Ascii.eqb x "X") && is_digit_in 16 h
      then (16, s')
      else if base =? 0 then (8, s) else (base, s)
  | String "0" _ => if base =? 0 then (8, s) else (base, s)
  | _ => if base =? 0 then (10, s) else (base, s)
  end.

(** strtoul(nptr, &endptr, base) with errno cleared before the call.
    [einval]: whether this C library sets EINVAL when no digit could be
    converted (musl does, glibc does not; POSIX allows both). *)
Definition strtoul (einval : bool) (nptr : string) (base : Z)
  : strtoul_result :=
  let s := skip_space nptr in
  let '(neg, s) :=
    match s with
    | String "-" s' => (true, s')
    | String "+" s' => (false, s')
    | _ => (false, s)
    end in
  let '(b, s) := strtoul_base base s in
  let '(v, n, rest) := scan_digits b s 0 0 in
  match n with
  | O => {| st_val := 0; st_end := nptr;
            st_errno := if einval then Some EINVAL else None |}
  | S _ =>
      if ULONG_MAX <? v
      then {| st_val := ULONG_MAX; st_end := rest; st_errno := Some ERANGE |}
      else {| st_val := if neg then (2 ^ 64 - v) mod 2 ^ 64 else v;
              st_end := rest; st_errno := None |}
  end.

(** Conversion of an unsigned long to a 32-bit unsigned type (uid_t,
    gid_t, mode_t): the value modulo 2^32. *)
Definition to_u32 (v : Z) : Z := v mod 2 ^ 32.

(** *** getopt(3), POSIX behaviour, for an option string that starts
    with ':' (no message is printed, a missing argument returns ':'). *)

Inductive getopt_result :=
| GOpt (c : ascii) (optarg : option string)  (* returns c *)
| GMissing (optopt : ascii)                  (* returns ':' *)
| GUnknown (optopt : ascii).                 (* returns '?' *)

(** Whether [c] is an option of [optstring], and whether it takes an
    argument. *)
Fixpoint optspec (optstring : string) (c : ascii) : option bool :=
  match optstring with
  | String o rest =>
      if Ascii.eqb o c && negb (Ascii.eqb c ":")
      then match rest with
           | String ":" _ => Some true
           | _ => Some false
           end
      else optspec rest c
  | EmptyString => None
  end.

(** The results of the successive getopt calls on the option letters
    [s] of one argument; [next] is the argument that follows it. The
    boolean tells whether [next] was taken as an option argument. *)
Fixpoint scan_cluster (optstring s : string) (next : option string)
  : list getopt_result * bool :=
  match s with
  | EmptyString => ([], false)
  | String c s' =>
      match optspec optstring c with
      | None =>
          let '(l, b) := scan_cluster optstring s' next in (GUnknown c :: l, b)
      | Some false =>
          let '(l, b) := scan_cluster optstring s' next in (GOpt c None :: l, b)
      | Some true =>
          match s', next with
          | String _ _, _ => ([GOpt c (Some s')], false)
          | EmptyString, Some a => ([GOpt c (Some a)], true)
          | EmptyString, None => ([GMissing c], false)
          end
      end
  end.

(** All results getopt returns before -1 on the arguments [args]
    (argv without argv[0]), and the arguments from optind on. *)
Fixpoint getopt_run (optstring : string) (args : list string)
  : list getopt_result * list string :=
  match args with
  | [] => ([], [])
  | a :: rest =>
      match a with
      | String "-" (String c s) =>
          if Ascii.eqb c "-" && String.eqb s ""
          then ([], rest)
          else
            let '(evs, used) := scan_cluster optstring (String c s) (head rest) in
            match rest with
            | b :: rest2 =>
                let '(evs', pos) :=
                  if used then getopt_run optstring rest2
                  else getopt_run optstring rest in
                (evs ++ evs', pos)
            | [] => (evs, [])
            end
      | _ => ([], args)
      end
  end.

End CLib.

Import CLib.

(** ** The operating system *)

Module OS.

(** A path as the kernel walks it: its components, with a leading "/"
    component when it is absolute. [ [] ] is the working directory. *)
Definition key : Type := list string.

Fixpoint split_slash (s cur : string) : list string :=
  match s with
  | EmptyString => [cur]
  | String c s' =>
      if Ascii.eqb c "/" then cur :: split_slash s' ""
      else split_slash s' (cur +:+ String c "")
  end.

Definition real_comp (c : string) : bool :=
  negb (String.eqb c "") && negb (String.eqb c ".").

Definition path_key (p : string) : key :=
  let comps := List.filter real_comp (split_slash p "") in
  match p with
  | String "/" _ => "/" :: comps
  | _ => comps
  end.

(** Whether the path must name a directory: it ends in '/' or in a "."
    component. *)
Definition wants_dir (p : string) : bool :=
  negb (real_comp (List.last (split_slash p "") "")).

(** The root and the working directory always exist; their metadata is
    not tracked. *)
Definition implicit (k : key) : bool :=
  match k with
  | [] => true
  | [c] => String.eqb c "/"
  | _ => false
  end.

Definition dirname (k : key) : key := removelast k.

Record stat := { st_mode : Z; st_uid : Z; st_gid : Z }.

Inductive node :=
| Reg (m : stat) (data : list byte)  (* regular file *)
| Dir (m : stat)                     (* directory *)
| Lnk (m : stat) (target : string)   (* symbolic link *)
| Special (m : stat).                (* fifo, socket, device *)

Definition node_stat (n : node) : stat :=
  match n with
  | Reg m _ | Dir m | Lnk m _ | Special m => m
  end.

Definition is_dir (n : node) : bool :=
  match n with Dir _ => true | _ => false end.

Definition filesystem : Type := gmap key node.

Definition implicit_dir : node :=
  Dir {| st_mode := o0755; st_uid := 0; st_gid := 0 |}.

Definition lookup_node (fs : gmap key node) (k : key) : option node :=
  if implicit k then Some implicit_dir else fs !! k.

Definition store_node (fs : gmap key node) (k : key) (n : node)
  : gmap key node :=
  if implicit k then fs else <[k := n]> fs.

(** Every directory on the way to the last component of [comps] must
    exist and be a directory; [pre] is the part already walked. *)
Fixpoint walk (fs : gmap key node) (pre : key) (comps : list string)
  : option errno :=
  match comps with
  | [] => None
  | c :: rest =>
      match rest with
      | [] => None
      | _ :: _ =>
          match lookup_node fs (pre ++ [c]) with
          | Some (Dir _) => walk fs (pre ++ [c]) rest
          | Some _ => Some ENOTDIR
          | None => Some ENOENT
          end
      end
  end.

(** The key of a path given as text, or the error of the walk to it. *)
Definition locate (fs : gmap key node) (p : string) : errno + key :=
  if String.eqb p "" then inl ENOENT
  else match walk fs [] (path_key p) with
       | Some e => inl e
       | None => inr (path_key p)
       end.

(** The key a symbolic link at [k] with target text [t] points to. *)
Definition link_dest (k : key) (t : string) : key :=
  match t with
  | String "/" _ => path_key t
  | _ => dirname k ++ path_key t
  end.

Definition MAXSYMLINKS : nat := 40.

(** Follow symbolic links at the last component: the key reached, whose
    node, if any, is not a symbolic link. *)
Fixpoint follow (fuel : nat) (fs : gmap key node) (k : key) : errno + key :=
  match lookup_node fs k with
  | Some (Lnk _ t) =>
      match fuel with
      | O => inl ELOOP
      | S fuel' =>
          if String.eqb t "" then inl ENOENT
          else let k' := link_dest k t in
               match walk fs [] k' with
               | Some e => inl e
               | None => follow fuel' fs k'
               end
      end
  | _ => inr k
  end.

Definition resolve (fs : gmap key node) (p : string) : errno + key :=
  match locate fs p with
  | inl e => inl e
  | inr k => follow MAXSYMLINKS fs k
  end.

(** *** The world *)

Inductive call :=
| CMalloc (size : Z)
| CMkdir (path : string) (mode : Z)
| CSymlink (target path : string)
| CLstat (path : string)
| COpen (path : string) (creat : bool)
| CRead (fd : nat) (count : Z)
| CWrite (fd : nat) (buf : list byte)
| CChmod (path : string) (mode : Z)
| CLchown (path : string) (owner group : Z)
| CRename (old new : string)
| CGetgrnam (name : string)
| CGetpwnam (name : string).

Record event := { ev_call : call; ev_err : option errno }.

(** What the plan injects into a call: its failure with an error or,
    for write(2), the transfer of the first [n] bytes only. *)
Inductive fault :=
| Fail (e : errno)
| Short (n : nat).

Record world := {
  w_fs : gmap key node;
  w_fds : list (key * nat);         (* open files: node and offset *)
  w_uid : Z;                        (* getuid() *)
  w_gid : Z;                        (* getgid() *)
  w_umask : Z;
  w_blksize : Z;                    (* st_blksize of every file *)
  w_passwd : list (string * Z);     (* user database *)
  w_group : list (string * Z);      (* group database *)
  w_einval : bool;                  (* strtoul sets EINVAL on no digits *)
  w_errno : option errno;           (* errno, None for 0 *)
  w_out : string;                   (* standard output *)
  w_err : string;                   (* standard error *)
  w_log : list event;               (* calls made, the latest first *)
  w_plan : gmap nat fault;          (* what is injected into the n-th call *)
  w_stuck : gset key;               (* special files that never come to an end *)
}.

Definition set_fs (fs : gmap key node) (w : world) : world :=
  {| w_fs := fs; w_fds := w_fds w; w_uid := w_uid w; w_gid := w_gid w;
     w_umask := w_umask w; w_blksize := w_blksize w;
     w_passwd := w_passwd w; w_group := w_group w; w_einval := w_einval w;
     w_errno := w_errno w;
     w_out := w_out w; w_err := w_err w; w_log := w_log w;
     w_plan := w_plan w; w_stuck := w_stuck w |}.

Definition set_fds (fds : list (key * nat)) (w : world) : world :=
  {| w_fs := w_fs w; w_fds := fds; w_uid := w_uid w; w_gid := w_gid w;
     w_umask := w_umask w; w_blksize := w_blksize w;
     w_passwd := w_passwd w; w_group := w_group w; w_einval := w_einval w;
     w_errno := w_errno w;
     w_out := w_out w; w_err := w_err w; w_log := w_log w;
     w_plan := w_plan w; w_stuck := w_stuck w |}.

Definition add_log (e : event) (w : world) : world :=
  {| w_fs := w_fs w; w_fds := w_fds w; w_uid := w_uid w; w_gid := w_gid w;
     w_umask := w_umask w; w_blksize := w_blksize w;
     w_passwd := w_passwd w; w_group := w_group w; w_einval := w_einval w;
     w_errno := w_errno w;
     w_out := w_out w; w_err := w_err w; w_log := e :: w_log w;
     w_plan := w_plan w; w_stuck := w_stuck w |}.

Definition put_out (s : string) (w : world) : world :=
  {| w_fs := w_fs w; w_fds := w_fds w; w_uid := w_uid w; w_gid := w_gid w;
     w_umask := w_umask w; w_blksize := w_blksize w;
     w_passwd := w_passwd w; w_group := w_group w; w_einval := w_einval w;
     w_errno := w_errno w;
     w_out := w_out w +:+ s; w_err := w_err w; w_log := w_log w;
     w_plan := w_plan w; w_stuck := w_stuck w |}.

Definition put_err (s : string) (w : world) : world :=
  {| w_fs := w_fs w; w_fds := w_fds w; w_uid := w_uid w; w_gid := w_gid w;
     w_umask := w_umask w; w_blksize := w_blksize w;
     w_passwd := w_passwd w; w_group := w_group w; w_einval := w_einval w;
     w_errno := w_errno w;
     w_out := w_out w; w_err := w_err w +:+ s; w_log := w_log w;
     w_plan := w_plan w; w_stuck := w_stuck w |}.

Definition set_errno (e : option errno) (w : world) : world :=
  {| w_fs := w_fs w; w_fds := w_fds w; w_uid := w_uid w; w_gid := w_gid w;
     w_umask := w_umask w; w_blksize := w_blksize w;
     w_passwd := w_passwd w; w_group := w_group w; w_einval := w_einval w;
     w_errno := e; w_out := w_out w; w_err := w_err w; w_log := w_log w;
     w_plan := w_plan w; w_stuck := w_stuck w |}.

(** A failed call leaves its error in errno and its record in the log. *)
Definition failed (c : call) (e : errno) (w : world) : world :=
  set_errno (Some e) (add_log {| ev_call := c; ev_err := Some e |} w).

(** A call: it fails with the injected error if the plan has one for it,
    otherwise [body] decides; either way the call is logged. *)
Definition syscall {A : Type} (c : call)
    (body : world -> errno + (A * world)) (w : world) : (errno + A) * world :=
  match w_plan w !! length (w_log w) with
  | Some (Fail e) => (inl e, failed c e w)
  | _ =>
      match body w with
      | inl e => (inl e, failed c e w)
      | inr (a, w') => (inr a, add_log {| ev_call := c; ev_err := None |} w')
      end
  end.

(** *** System calls *)

Definition UNCHANGED : Z := 2 ^ 32 - 1.  (* (uid_t) -1, (gid_t) -1 *)

Definition set_mode (n : node) (mode : Z) : node :=
  let m := node_stat n in
  let m' := {| st_mode := mode; st_uid := st_uid m; st_gid := st_gid m |} in
  match n with
  | Reg _ d => Reg m' d
  | Dir _ => Dir m'
  | Lnk _ t => Lnk m' t
  | Special _ => Special m'
  end.

(** chown(2) clears the set-user-ID bit of a file that is not a
    directory, and its set-group-ID bit when it is group-executable. *)
Definition kill_suid (mode : Z) : Z :=
  let m := Z.ldiff mode S_ISUID in
  if Z.land mode S_IXGRP =? 0 then m else Z.ldiff m S_ISGID.

Definition set_owner (n : node) (owner group : Z) : node :=
  let m := node_stat n in
  let u := if owner =? UNCHANGED then st_uid m else owner in
  let g := if group =? UNCHANGED then st_gid m else group in
  match n with
  | Reg _ d => Reg {| st_mode := kill_suid (st_mode m); st_uid := u; st_gid := g |} d
  | Special _ => Special {| st_mode := kill_suid (st_mode m); st_uid := u; st_gid := g |}
  | Dir _ => Dir {| st_mode := st_mode m; st_uid := u; st_gid := g |}
  | Lnk _ t => Lnk {| st_mode := st_mode m; st_uid := u; st_gid := g |} t
  end.

Definition new_stat (mode : Z) (w : world) : stat :=
  {| st_mode := Z.ldiff mode (w_umask w);
     st_uid := w_uid w; st_gid := w_gid w |}.

(** A symbolic link has mode 0777 whatever the umask. *)
Definition link_stat (w : world) : stat :=
  {| st_mode := o0777; st_uid := w_uid w; st_gid := w_gid w |}.

Definition malloc (size : Z) (w : world) : bool * world :=
  match syscall (CMalloc size) (fun w => inr (tt, w)) w with
  | (inl _, w') => (false, w')
  | (inr _, w') => (true, w')
  end.

Definition mkdir (path : string) (mode : Z) : world -> (errno + unit) * world :=
  syscall (CMkdir path mode) (fun w =>
    match locate (w_fs w) path with
    | inl e => inl e
    | inr k =>
        match lookup_node (w_fs w) k with
        | Some _ => inl EEXIST
        | None =>
            inr (tt, set_fs (<[k := Dir (new_stat (Z.land mode 1023) w)]> (w_fs w)) w)
        end
    end).

Definition symlink (target path : string) : world -> (errno + unit) * world :=
  syscall (CSymlink target path) (fun w =>
    if String.eqb target "" then inl ENOENT
    else
      match locate (w_fs w) path with
      | inl e => inl e
      | inr k =>
          match lookup_node (w_fs w) k with
          | Some _ => inl EEXIST
          | None =>
              if wants_dir path then inl ENOENT
              else inr (tt, set_fs (<[k := Lnk (link_stat w) target]> (w_fs w)) w)
          end
      end).

(** What stat(2) reports: the node reached through symbolic links. *)
Definition stat_of (fs : gmap key node) (path : string) : errno + node :=
  match resolve fs path with
  | inl e => inl e
  | inr k =>
      match lookup_node fs k with
      | None => inl ENOENT
      | Some n =>
          if wants_dir path && negb (is_dir n) then inl ENOTDIR else inr n
      end
  end.

(** What lstat(2) reports for a path: the node itself, a symbolic link
    at the last component is not followed, unless the path is written
    with a trailing '/' (or "."): the link is then followed like any
    other component and must lead to a directory. *)
Definition lstat_of (fs : gmap key node) (path : string) : errno + node :=
  match locate fs path with
  | inl e => inl e
  | inr k =>
      match lookup_node fs k with
      | None => inl ENOENT
      | Some n =>
          if wants_dir path && negb (is_dir n)
          then match n with
               | Lnk _ _ => stat_of fs path
               | _ => inl ENOTDIR
               end
          else inr n
      end
  end.

Definition lstat (path : string) : world -> (errno + node) * world :=
  syscall (CLstat path) (fun w =>
    match lstat_of (w_fs w) path with
    | inl e => inl e
    | inr n => inr (n, w)
    end).

Inductive oflag :=
| O_RDONLY
| O_RDWR_CREAT (mode : Z).  (* O_RDWR | O_CREAT, with the creation mode *)

Definition is_creat (f : oflag) : bool :=
  match f with O_RDONLY => false | O_RDWR_CREAT _ => true end.

(** open(2): the descriptor returned is the index of the new entry of the
    table of open files. O_CREAT without O_TRUNC or O_EXCL: an existing
    file is opened as it is. *)
Definition open (path : string) (f : oflag) : world -> (errno + nat) * world :=
  syscall (COpen path (is_creat f)) (fun w =>
    match resolve (w_fs w) path with
    | inl e => inl e
    | inr k =>
        let opened w := (length (w_fds w), set_fds (w_fds w ++ [(k, 0%nat)]) w) in
        match lookup_node (w_fs w) k, f with
        | None, O_RDONLY => inl ENOENT
        | None, O_RDWR_CREAT mode =>
            if wants_dir path then inl EISDIR
            else inr (opened (set_fs (<[k := Reg (new_stat mode w) []]> (w_fs w)) w))
        | Some n, _ =>
            if wants_dir path && negb (is_dir n) then inl ENOTDIR
            else if is_creat f && is_dir n then inl EISDIR
            else inr (opened w)
        end
    end).

(** read(2): up to [count] bytes from the offset of the descriptor. A
    special file that is not stuck reads as empty. *)
Definition read (fd : nat) (count : Z) : world -> (errno + list byte) * world :=
  syscall (CRead fd count) (fun w =>
    match w_fds w !! fd with
    | None => inl EBADF
    | Some (k, pos) =>
        match lookup_node (w_fs w) k with
        | Some (Reg _ data) =>
            let chunk := take (Z.to_nat count) (drop pos data) in
            inr (chunk, set_fds (<[fd := (k, (pos + length chunk)%nat)]> (w_fds w)) w)
        | Some (Dir _) => inl EISDIR
        | Some (Special _) => inr ([], w)
        | _ => inl EBADF
        end
    end).

Definition overwrite (data : list byte) (pos : nat) (buf : list byte) : list byte :=
  take pos data ++ replicate (pos - length data) x00 ++ buf
    ++ drop (pos + length buf) data.

(** The part of [buf] that the call about to be made transfers: all of
    it, unless the plan cuts the call short. *)
Definition written (w : world) (buf : list byte) : list byte :=
  match w_plan w !! length (w_log w) with
  | Some (Short n) => take n buf
  | _ => buf
  end.

(** write(2) at the offset of the descriptor: it returns the number of
    bytes transferred. *)
Definition write (fd : nat) (buf : list byte) : world -> (errno + Z) * world :=
  syscall (CWrite fd buf) (fun w =>
    match w_fds w !! fd with
    | None => inl EBADF
    | Some (k, pos) =>
        let part := written w buf in
        match lookup_node (w_fs w) k with
        | Some (Reg m data) =>
            inr (Z.of_nat (length part),
                 set_fds (<[fd := (k, (pos + length part)%nat)]> (w_fds w))
                   (set_fs (store_node (w_fs w) k (Reg m (overwrite data pos part))) w))
        | Some (Special _) => inr (Z.of_nat (length part), w)
        | _ => inl EBADF
        end
    end).

(** chmod(2) follows a symbolic link at the last component. *)
Definition chmod (path : string) (mode : Z) : world -> (errno + unit) * world :=
  syscall (CChmod path mode) (fun w =>
    match resolve (w_fs w) path with
    | inl e => inl e
    | inr k =>
        match lookup_node (w_fs w) k with
        | None => inl ENOENT
        | Some n =>
            if wants_dir path && negb (is_dir n) then inl ENOTDIR
            else inr (tt, set_fs (store_node (w_fs w) k (set_mode n (Z.land mode o07777))) w)
        end
    end).

(** lchown(2) does not follow a symbolic link at the last component. *)
Definition lchown (path : string) (owner group : Z)
  : world -> (errno + unit) * world :=
  syscall (CLchown path owner group) (fun w =>
    match locate (w_fs w) path with
    | inl e => inl e
    | inr k =>
        match lookup_node (w_fs w) k with
        | None => inl ENOENT
        | Some n =>
            if wants_dir path && negb (is_dir n) then inl ENOTDIR
            else inr (tt, set_fs (store_node (w_fs w) k (set_owner n owner group)) w)
        end
    end).

(** rename(2) of a file that is not a directory. Renaming a directory is
    outside the model and refused. *)
Definition rename (old new : string) : world -> (errno + unit) * world :=
  syscall (CRename old new) (fun w =>
    match locate (w_fs w) old, locate (w_fs w) new with
    | inl e, _ => inl e
    | _, inl e => inl e
    | inr ko, inr kn =>
        match lookup_node (w_fs w) ko with
        | None => inl ENOENT
        | Some n =>
            if is_dir n then inl EBUSY
            else if wants_dir old then inl ENOTDIR
            else if decide (ko = kn) then inr (tt, w)
            else
              match lookup_node (w_fs w) kn with
              | Some (Dir _) => inl EISDIR
              | _ =>
                  if wants_dir new then inl ENOTDIR
                  else inr (tt, set_fs (<[kn := n]> (delete ko (w_fs w))) w)
              end
        end
    end).

Fixpoint assoc (name : string) (db : list (string * Z)) : option Z :=
  match db with
  | [] => None
  | (n, id) :: db' => if String.eqb n name then Some id else assoc name db'
  end.

(** getgrnam(3) and getpwnam(3): the ID of the entry, None for NULL. *)
Definition getgrnam (name : string) (w : world) : option Z * world :=
  match syscall (CGetgrnam name) (fun w =>
          match assoc name (w_group w) with
          | Some g => inr (g, w)
          | None => inl ENOENT
          end) w with
  | (inl _, w') => (None, w')
  | (inr g, w') => (Some g, w')
  end.

Definition getpwnam (name : string) (w : world) : option Z * world :=
  match syscall (CGetpwnam name) (fun w =>
          match assoc name (w_passwd w) with
          | Some u => inr (u, w)
          | None => inl ENOENT
          end) w with
  | (inl _, w') => (None, w')
  | (inr u, w') => (Some u, w')
  end.

End OS.

Import OS.

(** ** The program *)

Inductive outcome (A : Type) :=
| Ret (a : A)         (* the computation goes on with [a] *)
| Exit (status : Z)   (* exit(status) was called *)
| Hang.               (* the run does not come to an end *)
Arguments Ret {A} a.
Arguments Exit {A} status.
Arguments Hang {A}.

Definition prog (A : Type) : Type := world -> outcome A * world.

Definition ret {A} (a : A) : prog A := fun w => (Ret a, w).

Definition bind {A B} (m : prog A) (f : A -> prog B) : prog B :=
  fun w =>
    match m w with
    | (Ret a, w') => f a w'
    | (Exit s, w') => (Exit s, w')
    | (Hang, w') => (Hang, w')
    end.

(** A library or system call, which cannot exit. *)
Definition call {A} (f : world -> A * world) : prog A :=
  fun w => let '(a, w') := f w in (Ret a, w').

Notation "'let*' x := m 'in' k" := (bind m (fun x => k))
  (at level 10, x name, m at level 100, k at level 200).
Notation "'do' m 'then' k" := (bind m (fun _ => k))
  (at level 10, m at level 100, k at level 200).

Definition install_help (argv0 : string) : string :=
  "usage: " +:+ argv0 +:+ " [-Dghlmor] <src> <dst>" +:+ nl +:+
  nl +:+
  "Options:" +:+ nl +:+
  " -D           Create parent directories of <dst>. Directories are created" +:+ nl +:+
  "              with the default umask(1)." +:+ nl +:+
  " -g <gid>     Set the group of the installed file to <gid>. This may be" +:+ nl +:+
  "              either a numeric group ID or a group name." +:+ nl +:+
  " -h           Display this help text." +:+ nl +:+
  " -l           Install as a symbolic link." +:+ nl +:+
  " -m <mode>    Set the permissions of the installed file to <mode>. This" +:+ nl +:+
  "              must be a valid octal mode." +:+ nl +:+
  " -o <uid>     Set the owner of the installed file to <uid>. This may be" +:+ nl +:+
  "              either a numeric user ID or a user name." +:+ nl.

(** fatal(fmt, ...): the formatted message, already expanded, goes to
    standard error between "fatal: " and a newline; exit(1). *)
Definition fatal_line (msg : string) : string := "fatal: " +:+ msg +:+ nl.

Definition fatal {A} (msg : string) : prog A :=
  fun w => (Exit 1, put_err (fatal_line msg) w).

(** printf(install_help, argv[0]); exit(0). *)
Definition help {A} (argv0 : string) : prog A :=
  fun w => (Exit 0, put_out (install_help argv0) w).

(** errno = 0 *)
Definition clear_errno : prog unit :=
  fun w => (Ret tt, set_errno None w).

Definition strerror_errno : prog string :=
  fun w => (Ret (strerror_opt (w_errno w)), w).

(** *p == '/' for the character under p, None for the terminating NUL. *)
Definition is_slash (c : option ascii) : bool :=
  match c with
  | Some c => Ascii.eqb c "/"
  | None => false
  end.

(** The loop of mkparents, lines 56 to 59: [l] goes down from strlen(path)
    until it is 0 or path[l] is '/'. *)
Fixpoint scan_back (path : string) (l : nat) : nat :=
  match l with
  | O => O
  | S l' => if is_slash (String.get l path) then l else scan_back path l'
  end.

(** mkparents(path). [fuel] bounds the depth of the recursion; each
    recursive call is on a strictly shorter string. *)
Fixpoint mkparents_rec (fuel : nat) (path : string) : prog Z :=
  match fuel with
  | O => fun w => (Hang, w)
  | S fuel' =>
      let l := scan_back path (String.length path) in
      if Nat.eqb l 0 then ret 0
      else
        let* buf_ok := call (malloc (Z.of_nat l + 1)) in
        if negb buf_ok then ret (-1)
        else
          let buf := String.substring 0 l path in
          let* r := mkparents_rec fuel' buf in
          if r =? -1 then ret (-1)
          else
            do call (mkdir buf o0777) then
            ret 0
  end.

Definition mkparents (path : string) : prog Z :=
  mkparents_rec (S (String.length path)) path.

(** The variables of main that the option loop sets. *)
Record config := {
  mkdirp : bool;
  symbolic : bool;
  owner : Z;
  group : Z;
  mode : Z;
}.

Definition optstring : string := ":Dg:hlm:o:r".

(** optopt when getopt has not reported an error: 0. glibc copies it at
    every call from its own state, which starts zeroed and is set on an
    error only; musl leaves the initial 0 of the variable. *)
Definition optopt_unset : ascii := zero.

(** errno != 0 *)
Definition errno_set (e : option errno) : bool :=
  match e with Some _ => true | None => false end.

(** Lines 108 to 119 for -g and 138 to 149 for -o, the same code with
    getgrnam and "group" or getpwnam and "user": the ID that the option
    argument denotes. *)
Definition parse_id (lookup : string -> world -> option Z * world)
    (kind optarg : string) : prog Z :=
  fun w =>
    let r := strtoul (w_einval w) optarg 0 in
    (if errno_set (st_errno r) || negb (String.eqb (st_end r) "")
     then
       let* entry := call (lookup optarg) in
       match entry with
       | None => fatal ("invalid " +:+ kind +:+ ": '" +:+ optarg +:+ "'")
       | Some id => ret id
       end
     else if errno_set (st_errno r)
     then fatal ("invalid " +:+ kind +:+ ": '" +:+ optarg +:+ "'")
     else ret (to_u32 (st_val r))) w.

(** Lines 131 to 135: the mode that the argument of -m denotes. *)
Definition parse_mode (optarg : string) : prog Z :=
  fun w =>
    let r := strtoul (w_einval w) optarg 8 in
    (if errno_set (st_errno r) || negb (String.eqb (st_end r) "")
     then fatal ("invalid mode: " +:+ optarg)
     else ret (to_u32 (st_val r))) w.

(** The body of the switch, for one result of getopt. *)
Definition handle_opt (argv0 : string) (ev : getopt_result) (c : config)
  : prog config :=
  match ev with
  | GOpt "D" _ =>
      ret {| mkdirp := true; symbolic := symbolic c; owner := owner c;
             group := group c; mode := mode c |}
  | GOpt "g" (Some optarg) =>
      let* gid := parse_id getgrnam "group" optarg in
      ret {| mkdirp := mkdirp c; symbolic := symbolic c; owner := owner c;
             group := gid; mode := mode c |}
  | GOpt "h" _ => help argv0
  | GOpt "l" _ =>
      ret {| mkdirp := mkdirp c; symbolic := true; owner := owner c;
             group := group c; mode := mode c |}
  | GOpt "m" (Some optarg) =>
      let* m := parse_mode optarg in
      ret {| mkdirp := mkdirp c; symbolic := symbolic c; owner := owner c;
             group := group c; mode := m |}
  | GOpt "o" (Some optarg) =>
      let* uid := parse_id getpwnam "user" optarg in
      ret {| mkdirp := mkdirp c; symbolic := symbolic c; owner := uid;
             group := group c; mode := mode c |}
  | GMissing optopt =>
      fatal ("option requires argument: -" +:+ String optopt "")
  | GUnknown optopt =>
      fatal ("invalid option: -" +:+ String optopt "")
  | GOpt _ _ =>
      fatal ("invalid option: -" +:+ String optopt_unset "")
  end.

(** while ((opt = getopt(...)) != -1) switch (opt) ... *)
Fixpoint opt_loop (argv0 : string) (evs : list getopt_result) (c : config)
  : prog config :=
  match evs with
  | [] => ret c
  | ev :: evs' =>
      let* c' := handle_opt argv0 ev c in
      opt_loop argv0 evs' c'
  end.

(** The size of the file behind a descriptor; it bounds the number of
    iterations of the copy loop. *)
Definition file_size (fd : nat) (w : world) : nat :=
  match w_fds w !! fd with
  | Some (k, _) =>
      match lookup_node (w_fs w) k with
      | Some (Reg _ data) => length data
      | _ => O
      end
  | None => O
  end.

(** fatal(msg ": %s", strerror(errno)) and its variants with a path. *)
Definition fatal_errno {A} (msg : string) : prog A :=
  let* e := strerror_errno in fatal (msg +:+ e).

Definition fatal_path_errno {A} (msg path : string) : prog A :=
  let* e := strerror_errno in fatal (msg +:+ path +:+ " (" +:+ e +:+ ")").

(** Lines 225 to 229: while ((r = read(src_fd, buf, blksize)) > 0) with
    the write in its body. A failed read (r = -1) ends the loop like the
    end of the file (r = 0). *)
Fixpoint copy_loop (fuel : nat) (src_fd tmp_fd : nat) (blksize : Z)
  : prog unit :=
  match fuel with
  | O => fun w => (Hang, w)
  | S fuel' =>
      let* r := call (read src_fd blksize) in
      match r with
      | inr buf =>
          if (0 <? length buf)%nat then
            do clear_errno then
            let* wr := call (write tmp_fd buf) in
            match wr with
            | inl _ => fatal_errno "write(3) failure: "
            | inr _ => copy_loop fuel' src_fd tmp_fd blksize
            end
          else ret tt
      | inl _ => ret tt
      end
  end.

(** Lines 185 to 187: the symbolic branch. *)
Definition stage_link (src_path tmp_path : string) : prog unit :=
  do clear_errno then
  let* r := call (symlink src_path tmp_path) in
  match r with
  | inl _ => fatal_errno "symlink(3) failure: "
  | inr _ => ret tt
  end.

(** Whether the descriptor is open on a special file on which a read
    or a write never comes to an end (a fifo without a peer, a terminal,
    /dev/zero). *)
Definition stuck_fd (fd : nat) (w : world) : bool :=
  match w_fds w !! fd with
  | Some (k, _) =>
      match lookup_node (w_fs w) k with
      | Some (Special _) => bool_decide (k ∈ w_stuck w)
      | _ => false
      end
  | None => false
  end.

(** open(2) as the program calls it. On a special file that is stuck,
    the call, or the reads and writes of the copy that follow it, do not
    come to an end: the run stops there. *)
Definition open_file (path : string) (f : oflag) : prog (errno + nat) :=
  let* r := call (open path f) in
  fun w =>
    match r with
    | inr fd => if stuck_fd fd w then (Hang, w) else (Ret r, w)
    | inl _ => (Ret r, w)
    end.

(** Lines 208 to 229: the source and the temporary file are opened and
    the bytes copied. *)
Definition copy_file (src_path tmp_path : string) : prog unit :=
  do clear_errno then
  let* src_fd := open_file src_path O_RDONLY in
  match src_fd with
  | inl _ => fatal_path_errno "failed to open file: " src_path
  | inr src_fd =>
      do clear_errno then
      let* tmp_fd := open_file tmp_path (O_RDWR_CREAT o0600) in
      match tmp_fd with
      | inl _ => fatal_path_errno "failed to create temporary file: " tmp_path
      | inr tmp_fd =>
          fun w =>
            (let* buf_ok := call (malloc (w_blksize w)) in
             if negb buf_ok then fatal "malloc(3) failure"
             else copy_loop (S (file_size src_fd w)) src_fd tmp_fd
                    (w_blksize w)) w
      end
  end.

(** Lines 189 to 229: the copy branch. *)
Definition stage_copy (src_path tmp_path : string) : prog unit :=
  do clear_errno then
  let* st := call (lstat src_path) in
  match st with
  | inl ENOENT => fatal ("source does not exist: " +:+ src_path)
  | inl _ => fatal_errno "lstat(3) failure: "
  | inr (Dir _) => fatal ("source is a directory: " +:+ src_path)
  | inr (Special _) => fatal ("source is not a regular file: " +:+ src_path)
  | inr (Reg _ _) | inr (Lnk _ _) => copy_file src_path tmp_path
  end.

(** Lines 232 to 242: chmod, lchown, rename, return 0. *)
Definition finish (c : config) (tmp_path dst_path : string) : prog Z :=
  do clear_errno then
  let* r := call (chmod tmp_path (mode c)) in
  match r with
  | inl _ => fatal_errno "chmod(3) failure: "
  | inr _ =>
      let* r := call (lchown tmp_path (owner c) (group c)) in
      match r with
      | inl _ => fatal_errno "lchown(3) failure: "
      | inr _ =>
          let* r := call (rename tmp_path dst_path) in
          match r with
          | inl _ => fatal_errno "rename(3) failure: "
          | inr _ => ret 0
          end
      end
  end.

(** Lines 165 to 182: the range check of the mode, the temporary path
    and the parent directories. It returns tmp_path. *)
Definition prelude (c : config) (dst_path : string) : prog string :=
  if o07777 <? mode c then fatal ("invalid mode: " +:+ pretty (mode c))
  else
    let* tmp_ok := call (malloc (Z.of_nat (String.length dst_path) + 5)) in
    if negb tmp_ok then fatal "malloc(3) failure"
    else
      do clear_errno then
      let* r := (if mkdirp c then mkparents dst_path else ret 0) in
      if mkdirp c && (r =? -1)
      then fatal_path_errno "failed to create directories: " dst_path
      else ret (dst_path +:+ ".tmp").

(** Lines 184 to 230: the link or the copy at the temporary path. *)
Definition stage (c : config) (src_path tmp_path : string) : prog unit :=
  if symbolic c then stage_link src_path tmp_path
  else stage_copy src_path tmp_path.

(** Lines 165 to 242: what main does once the options are read. *)
Definition install (c : config) (src_path dst_path : string) : prog Z :=
  let* tmp_path := prelude c dst_path in
  do stage c src_path tmp_path then
  finish c tmp_path dst_path.

Definition initial_config (w : world) : config :=
  {| mkdirp := false; symbolic := false; owner := w_uid w; group := w_gid w;
     mode := o0755 |}.

(** Lines 86 to 163: the option loop and the count of the remaining
    arguments. It returns the configuration, src_path and dst_path. *)
Definition parse_args (argv : list string)
  : prog (config * string * string) :=
  fun w =>
    let '(evs, positional) := getopt_run optstring (tl argv) in
    (let* c := opt_loop (hd "" argv) evs (initial_config w) in
     match positional with
     | [src_path; dst_path] => ret (c, src_path, dst_path)
     | _ => fatal "expected arguments: <src> <dst>"
     end) w.

(** main(argc, argv): [argv] is the whole vector, argv[0] included. *)
Definition main (argv : list string) : prog Z :=
  let* args := parse_args argv in
  let '(c, src_path, dst_path) := args in
  install c src_path dst_path.

(** The exit status of the process, None if the run was cut short. *)
Definition exit_status (o : outcome Z) : option Z :=
  match o with
  | Ret v => Some v
  | Exit s => Some s
  | Hang => None
  end.

Definition run (argv : list string) (w : world) : option Z * world :=
  let '(o, w') := main argv w in (exit_status o, w').

(** ** Worlds for the examples *)

Module Scenario.

Definition bytes (s : string) : list byte := list_byte_of_string s.

Definition owned (uid gid mode : Z) : stat :=
  {| st_mode := mode; st_uid := uid; st_gid := gid |}.

(** A process of user [uid] (group [uid] too) with umask 022, on a C
    library that does not set EINVAL, with 4-byte blocks; the calls
    listed in [plan] fail, no write is cut short and no special file is
    stuck. *)
Definition world_of (uid : Z) (fs : gmap key node) (plan : gmap nat errno)
  : world :=
  {| w_fs := fs; w_fds := []; w_uid := uid; w_gid := uid; w_umask := 18;
     w_blksize := 4; w_passwd := [("root", 0); ("alice", 1000)];
     w_group := [("root", 0); ("staff", 50)];
     w_einval := false; w_errno := None; w_out := ""; w_err := "";
     w_log := []; w_plan := Fail <$> plan; w_stuck := ∅ |}.

(** src.txt, 11 bytes, mode 0644, owned by [uid]. *)
Definition fs_src (uid : Z) : gmap key node :=
  {[ ["src.txt"] := Reg (owned uid uid 420) (bytes "hello world") ]}.

End Scenario.

(** ** Vocabulary of the statements *)

(** The positions of the '/' characters of [path] after its first
    character, in increasing order. *)
Definition slash_positions (path : string) : list nat :=
  List.filter (fun i => is_slash (String.get i path))
    (seq 1 (String.length path)).

(** The parent directories of [path], the one nearest to the root first:
    the text before each of these '/'. *)
Definition parents (path : string) : list string :=
  map (fun i => String.substring 0 i path) (slash_positions path).

(** The paths given to mkdir in a log, the earliest call first. *)
Definition mkdir_calls (log : list event) : list string :=
  flat_map (fun ev => match ev_call ev with
                      | CMkdir p _ => [p]
                      | _ => []
                      end) (rev log).

(** The positions up to [n]. *)
Definition slashes_upto (path : string) (n : nat) : list nat :=
  List.filter (fun i => is_slash (String.get i path)) (seq 1 n).

(** The configuration after "group = gid" and after "owner = uid". *)
Definition with_group (c : config) (gid : Z) : config :=
  {| mkdirp := mkdirp c; symbolic := symbolic c; owner := owner c;
     group := gid; mode := mode c |}.

Definition with_owner (c : config) (uid : Z) : config :=
  {| mkdirp := mkdirp c; symbolic := symbolic c; owner := uid;
     group := group c; mode := mode c |}.

(** What -g and -o do with an argument that strtoul does not accept:
    the outcome of the lookup by name. *)
Definition by_name (kind optarg : string) (set : Z -> config)
    (found : option Z * world) : outcome config * world :=
  match found with
  | (Some id, w1) => (Ret (set id), w1)
  | (None, w1) =>
      (Exit 1,
       put_err (fatal_line ("invalid " +:+ kind +:+ ": '" +:+ optarg +:+ "'")) w1)
  end.


(** No read recorded in the log has failed. *)
Definition reads_ok (log : list event) : Prop :=
  forall fd count e,
    ~ In {| ev_call := CRead fd count; ev_err := Some e |} log.

(** No write is cut short in this world. *)
Definition whole_writes (w : world) : Prop :=
  forall i n, w_plan w !! i <> Some (Short n).

(** The staged node after chmod(tmp_path): chmod follows a symbolic
    link, so a staged link is left as it is. *)
Definition after_chmod (n0 : node) (mode : Z) : node :=
  match n0 with
  | Lnk _ _ => n0
  | _ => set_mode n0 (Z.land mode o07777)
  end.

(** What rename, open and the walk of a path tell apart in a node. *)
Inductive kind := KFile | KDir | KLnk.

Definition kind_of (n : node) : kind :=
  match n with
  | Dir _ => KDir
  | Lnk _ _ => KLnk
  | Reg _ _ | Special _ => KFile
  end.

(** [only S fs fs']: from [fs] to [fs'] nothing changed outside the keys
    in [S], every node is still there with the kind it had, and a new
    node is a file. *)
Definition only (S : key -> Prop) (fs fs' : gmap key node) : Prop :=
  (forall k, ~ S k -> lookup_node fs' k = lookup_node fs k) /\
  (forall k n, lookup_node fs k = Some n ->
     exists n', lookup_node fs' k = Some n' /\ kind_of n' = kind_of n) /\
  (forall k n', lookup_node fs k = None -> lookup_node fs' k = Some n' ->
     kind_of n' = KFile).



(** The number of bytes of the regular file at [k], 0 for anything
    else. *)
Definition size_at (fs : gmap key node) (k : key) : nat :=
  match lookup_node fs k with
  | Some (Reg _ data) => length data
  | _ => O
  end.

(** A part of main has come to its end: it has returned, or it has
    called exit with status 0 or 1. *)
Definition halts {A} (o : outcome A) : Prop :=
  match o with
  | Ret _ => True
  | Exit s => s = 0 \/ s = 1
  | Hang => False
  end.

(** The two output streams of the process. *)
Definition streams (w : world) : string * string := (w_out w, w_err w).

(** What a part of main, run with [argv0] as argv[0] from the world [w],
    has done to the output streams when it ends as [r]: nothing if it
    returns; if it exits with status 0 it has appended the usage text to
    standard output, if it exits with status 1 one line "fatal: ..." to
    standard error; no other exit status occurs. *)
Definition speaks_as {A} (argv0 : string) (w : world)
    (r : outcome A * world) : Prop :=
  match fst r with
  | Ret _ => streams (snd r) = streams w
  | Exit s =>
      (s = 0 /\ w_out (snd r) = w_out w +:+ install_help argv0 /\
       w_err (snd r) = w_err w)
      \/ (s = 1 /\ w_out (snd r) = w_out w /\
          exists msg, w_err (snd r) = w_err w +:+ fatal_line msg)
  | Hang => True
  end.

(** The identity of the process and its umask. *)
Definition process_of (w : world) : Z * Z * Z := (w_uid w, w_gid w, w_umask w).

(** Every directory of [fs] is still a directory in [fs']. *)
Definition keeps_dirs (fs fs' : gmap key node) : Prop :=
  forall p m, lookup_node fs p = Some (Dir m) ->
              exists m', lookup_node fs' p = Some (Dir m').

(** The character of the digit [d], and the numeral with the digits
    [ds], the most significant first, with the number it denotes in base
    [base]. *)
Definition digit_char (d : Z) : ascii := ascii_of_nat (Z.to_nat (48 + d)).

Fixpoint numeral (ds : list Z) : string :=
  match ds with
  | [] => ""
  | d :: ds' => String (digit_char d) (numeral ds')
  end.

Definition numeral_value (base : Z) (ds : list Z) : Z :=
  fold_left (fun acc d => acc * base + d) ds 0.

Definition octal (ds : list Z) : Prop :=
  ds <> [] /\ Forall (fun d => 0 <= d < 8) ds.

(** Whether getopt takes the argument [a] for a cluster of options: it
    starts with '-' and has at least one more character. *)
Definition is_option_arg (a : string) : bool :=
  match a with
  | String "-" (String _ _) => true
  | _ => false
  end.

(** The path is written without a ".." component. The model takes ".."
    for a name like any other; what is said of the place that a path
    leads to is said of paths without it. *)
Definition no_dotdot (p : string) : bool :=
  forallb (fun c => negb (String.eqb c "..")) (split_slash p "").

(** The path is written without "..", and none of its parent
    directories is a symbolic link: its list of components is the place
    that it leads to. *)
Definition plain_path (fs : gmap key node) (p : string) : Prop :=
  no_dotdot p = true /\
  forall d m t, In d (parents p) ->
    lookup_node fs (path_key d) <> Some (Lnk m t).

(** Nothing is at the place [k]: a directory on the way to it is
    missing, or they are all there and the last component is not. *)
Definition names_nothing (fs : gmap key node) (k : key) : Prop :=
  walk fs [] k = Some ENOENT \/
  (walk fs [] k = None /\ lookup_node fs k = None).

(** The configuration after "mode = m". *)
Definition with_mode (c : config) (m : Z) : config :=
  {| mkdirp := mkdirp c; symbolic := symbolic c; owner := owner c;
     group := group c; mode := m |}.









(** * Properties *)

(** ** The C library on examples *)

Example strtoul_644 : strtoul false "644" 8 =
  {| st_val := 420; st_end := ""; st_errno := None |}.
Proof. reflexivity. Qed.

Example strtoul_999 : strtoul false "999" 8 =
  {| st_val := 0; st_end := "999"; st_errno := None |}.
Proof. reflexivity. Qed.

Example strtoul_0x : strtoul false "0x1f" 0 =
  {| st_val := 31; st_end := ""; st_errno := None |}.
Proof. reflexivity. Qed.

Example strtoul_big : strtoul false "18446744073709551616" 0 =
  {| st_val := ULONG_MAX; st_end := ""; st_errno := Some ERANGE |}.
Proof. vm_compute. reflexivity. Qed.

Example getopt_ex :
  getopt_run ":Dg:hlm:o:r" ["-Dm"; "644"; "-g0"; "a"; "b"] =
  ([GOpt "D" None; GOpt "m" (Some "644"); GOpt "g" (Some "0")], ["a"; "b"]).
Proof. reflexivity. Qed.

(** ** Basic facts about the program monad *)

Lemma bind_Ret_inv {A B} (m : prog A) (f : A -> prog B) w b w' :
  bind m f w = (Ret b, w') ->
  exists a w1, m w = (Ret a, w1) /\ f a w1 = (Ret b, w').
Proof.
  unfold bind. destruct (m w) as [[a|s|] w1]; intros H; try discriminate.
  eauto.
Qed.

Lemma bind_Ret {A B} (m : prog A) (f : A -> prog B) w a w1 :
  m w = (Ret a, w1) -> bind m f w = f a w1.
Proof. unfold bind. now intros ->. Qed.

Lemma bind_Exit {A B} (m : prog A) (f : A -> prog B) w s w1 :
  m w = (Exit s, w1) -> bind m f w = (Exit s, w1).
Proof. unfold bind. now intros ->. Qed.

Lemma opt_loop_app argv0 evs1 evs2 c w :
  opt_loop argv0 (evs1 ++ evs2) c w =
  bind (opt_loop argv0 evs1 c) (opt_loop argv0 evs2) w.
Proof.
  revert c w. induction evs1 as [|ev evs1 IH]; intros c w; simpl.
  - reflexivity.
  - unfold bind in *.
    destruct (handle_opt argv0 ev c w) as [[c'|s|] w1]; auto.
Qed.

(** A call fails as the plan says, or does what its body says. *)
Lemma syscall_cases {A} c (body : world -> errno + (A * world)) w :
  (exists e, w_plan w !! length (w_log w) = Some (Fail e) /\
             syscall c body w = (inl e, failed c e w))
  \/ ((forall e, w_plan w !! length (w_log w) <> Some (Fail e)) /\
      syscall c body w =
      match body w with
      | inl e => (inl e, failed c e w)
      | inr (a, w') => (inr a, add_log {| ev_call := c; ev_err := None |} w')
      end).
Proof.
  unfold syscall. destruct (w_plan w !! length (w_log w)) as [[e|n]|];
    [left; eauto|right; split; [congruence|reflexivity]..].
Qed.

(** ** What no call changes: the plan and the stuck files *)

(** What the run cannot change: the plan of its calls and the special
    files that are stuck. *)
Lemma syscall_plan {A} c (body : world -> errno + (A * world)) w r w' :
  (forall w a w1, body w = inr (a, w1) -> w_plan w1 = w_plan w) ->
  syscall c body w = (r, w') -> w_plan w' = w_plan w.
Proof.
  intros Hb. destruct (syscall_cases c body w) as [(? & _ & ->)|[_ ->]];
    [now intros [= _ <-]|].
  destruct (body w) as [e|[a w1]] eqn:E; intros [= _ <-]; [reflexivity|].
  apply Hb in E. exact E.
Qed.

Lemma syscall_stuck {A} c (body : world -> errno + (A * world)) w r w' :
  (forall w a w1, body w = inr (a, w1) -> w_stuck w1 = w_stuck w) ->
  syscall c body w = (r, w') -> w_stuck w' = w_stuck w.
Proof.
  intros Hb. destruct (syscall_cases c body w) as [(? & _ & ->)|[_ ->]];
    [now intros [= _ <-]|].
  destruct (body w) as [e|[a w1]] eqn:E; intros [= _ <-]; [reflexivity|].
  apply Hb in E. exact E.
Qed.

(** The body of a call leaves a field of the world as it is. *)
Ltac streams_of_body :=
  intros ? ? ?; cbv beta;
  repeat match goal with
         | |- context [match ?x with _ => _ end] => destruct x
         end;
  cbv zeta beta; intros; simplify_eq; reflexivity.

Lemma malloc_plan size w r w' :
  malloc size w = (r, w') -> w_plan w' = w_plan w /\ w_stuck w' = w_stuck w.
Proof.
  unfold malloc. destruct (syscall _ _ w) as [[e|[]] w1] eqn:E;
    intros [= _ <-];
    (split; [eapply syscall_plan; [|exact E]|eapply syscall_stuck; [|exact E]]);
    streams_of_body.
Qed.

Lemma mkdir_plan path m w r w' :
  mkdir path m w = (r, w') -> w_plan w' = w_plan w /\ w_stuck w' = w_stuck w.
Proof.
  intros H. split; [eapply syscall_plan; [|exact H]
                   |eapply syscall_stuck; [|exact H]]; streams_of_body.
Qed.

Lemma symlink_plan t path w r w' :
  symlink t path w = (r, w') -> w_plan w' = w_plan w /\ w_stuck w' = w_stuck w.
Proof.
  intros H. split; [eapply syscall_plan; [|exact H]
                   |eapply syscall_stuck; [|exact H]]; streams_of_body.
Qed.

Lemma lstat_plan path w r w' :
  lstat path w = (r, w') -> w_plan w' = w_plan w /\ w_stuck w' = w_stuck w.
Proof.
  intros H. split; [eapply syscall_plan; [|exact H]
                   |eapply syscall_stuck; [|exact H]]; streams_of_body.
Qed.

Lemma open_plan path f w r w' :
  open path f w = (r, w') -> w_plan w' = w_plan w /\ w_stuck w' = w_stuck w.
Proof.
  intros H. split; [eapply syscall_plan; [|exact H]
                   |eapply syscall_stuck; [|exact H]]; streams_of_body.
Qed.

Lemma read_plan fd n w r w' :
  read fd n w = (r, w') -> w_plan w' = w_plan w /\ w_stuck w' = w_stuck w.
Proof.
  intros H. split; [eapply syscall_plan; [|exact H]
                   |eapply syscall_stuck; [|exact H]]; streams_of_body.
Qed.

Lemma write_plan fd buf w r w' :
  write fd buf w = (r, w') -> w_plan w' = w_plan w /\ w_stuck w' = w_stuck w.
Proof.
  intros H. split; [eapply syscall_plan; [|exact H]
                   |eapply syscall_stuck; [|exact H]]; streams_of_body.
Qed.

Lemma chmod_plan path m w r w' :
  chmod path m w = (r, w') -> w_plan w' = w_plan w.
Proof. apply syscall_plan. streams_of_body. Qed.

Lemma lchown_plan path u g w r w' :
  lchown path u g w = (r, w') -> w_plan w' = w_plan w.
Proof. apply syscall_plan. streams_of_body. Qed.

Lemma getgrnam_plan name w r w' :
  getgrnam name w = (r, w') -> w_plan w' = w_plan w /\ w_stuck w' = w_stuck w.
Proof.
  unfold getgrnam. destruct (syscall _ _ w) as [[e|g] w1] eqn:E;
    intros [= _ <-];
    (split; [eapply syscall_plan; [|exact E]|eapply syscall_stuck; [|exact E]]);
    streams_of_body.
Qed.

Lemma getpwnam_plan name w r w' :
  getpwnam name w = (r, w') -> w_plan w' = w_plan w /\ w_stuck w' = w_stuck w.
Proof.
  unfold getpwnam. destruct (syscall _ _ w) as [[e|g] w1] eqn:E;
    intros [= _ <-];
    (split; [eapply syscall_plan; [|exact E]|eapply syscall_stuck; [|exact E]]);
    streams_of_body.
Qed.

Lemma whole_writes_plan w w' :
  w_plan w' = w_plan w -> whole_writes w -> whole_writes w'.
Proof. unfold whole_writes. now intros ->. Qed.

(** The option loop makes no system call that touches the file system. *)
Lemma syscall_fs_pure {A} c (body : world -> errno + (A * world)) w r w' :
  (forall w a w1, body w = inr (a, w1) -> w_fs w1 = w_fs w) ->
  syscall c body w = (r, w') -> w_fs w' = w_fs w.
Proof.
  intros Hb. destruct (syscall_cases c body w) as [(? & _ & ->)|[_ ->]];
    [intros [= _ <-]; reflexivity|].
  destruct (body w) as [e|[a w1]] eqn:E; intros [= _ <-]; simpl; eauto.
Qed.

Lemma getgrnam_fs name w g w' : getgrnam name w = (g, w') -> w_fs w' = w_fs w.
Proof.
  unfold getgrnam.
  destruct (syscall _ _ w) as [r w1] eqn:E. intros H.
  assert (w' = w1) as -> by (destruct r; congruence).
  eapply syscall_fs_pure; [|exact E].
  intros w0 a w2. cbv beta. destruct (assoc name (w_group w0)); congruence.
Qed.

Lemma getpwnam_fs name w g w' : getpwnam name w = (g, w') -> w_fs w' = w_fs w.
Proof.
  unfold getpwnam.
  destruct (syscall _ _ w) as [r w1] eqn:E. intros H.
  assert (w' = w1) as -> by (destruct r; congruence).
  eapply syscall_fs_pure; [|exact E].
  intros w0 a w2. cbv beta. destruct (assoc name (w_passwd w0)); congruence.
Qed.

Lemma parse_id_fs lookup kind optarg w o w' :
  (forall n w g w', lookup n w = (g, w') -> w_fs w' = w_fs w) ->
  parse_id lookup kind optarg w = (o, w') -> w_fs w' = w_fs w.
Proof.
  intros Hl. unfold parse_id, bind, call, fatal, ret.
  destruct (_ || _).
  - destruct (lookup optarg w) as [[id|] w1] eqn:E; apply Hl in E;
      intros [= _ <-]; simpl; congruence.
  - destruct (errno_set _); intros [= _ <-]; reflexivity.
Qed.

Lemma parse_mode_fs optarg w o w' :
  parse_mode optarg w = (o, w') -> w_fs w' = w_fs w.
Proof.
  unfold parse_mode, fatal, ret.
  destruct (_ || _); intros [= _ <-]; reflexivity.
Qed.

Lemma handle_opt_fs argv0 ev c w o w' :
  handle_opt argv0 ev c w = (o, w') -> w_fs w' = w_fs w.
Proof.
  assert (Hret : forall (c' : config) w o w',
             ret c' w = (o, w') -> w_fs w' = w_fs w)
    by (unfold ret; intros ? ? ? ? [= _ <-]; reflexivity).
  assert (Hfatal : forall msg w (o : outcome config) w',
             fatal msg w = (o, w') -> w_fs w' = w_fs w)
    by (unfold fatal; intros ? ? ? ? [= _ <-]; reflexivity).
  assert (Hhelp : forall w (o : outcome config) w',
             help argv0 w = (o, w') -> w_fs w' = w_fs w)
    by (unfold help; intros ? ? ? [= _ <-]; reflexivity).
  assert (Hid : forall lookup kind optarg (f : Z -> config) w o w',
             (forall n w g w', lookup n w = (g, w') -> w_fs w' = w_fs w) ->
             bind (parse_id lookup kind optarg) (fun x => ret (f x)) w = (o, w') ->
             w_fs w' = w_fs w).
  { intros lookup kind optarg f w0 o0 w0' Hl. unfold bind.
    destruct (parse_id lookup kind optarg w0) as [[x|s|] w1] eqn:E;
      apply parse_id_fs in E; auto; intros H;
      [apply Hret in H; congruence | congruence | congruence]. }
  assert (Hmode : forall optarg (f : Z -> config) w o w',
             bind (parse_mode optarg) (fun x => ret (f x)) w = (o, w') ->
             w_fs w' = w_fs w).
  { intros optarg f w0 o0 w0'. unfold bind.
    destruct (parse_mode optarg w0) as [[x|s|] w1] eqn:E;
      apply parse_mode_fs in E; intros H;
      [apply Hret in H; congruence | congruence | congruence]. }
  destruct ev as [ch optarg| |]; [|apply Hfatal|apply Hfatal].
  destruct ch as [[] [] [] [] [] [] [] []]; destruct optarg; simpl;
    first [apply Hfatal | apply Hret | apply Hhelp | apply Hmode
          | apply Hid; first [apply getgrnam_fs | apply getpwnam_fs] ].
Qed.

Lemma opt_loop_fs argv0 evs c w o w' :
  opt_loop argv0 evs c w = (o, w') -> w_fs w' = w_fs w.
Proof.
  revert c w. induction evs as [|ev evs IH]; intros c w; simpl.
  - unfold ret. now intros [= _ <-].
  - unfold bind. destruct (handle_opt argv0 ev c w) as [[c'|s|] w1] eqn:E;
      apply handle_opt_fs in E; intros H.
    + apply IH in H. congruence.
    + congruence.
    + congruence.
Qed.

Lemma parse_args_fs argv w o w' :
  parse_args argv w = (o, w') -> w_fs w' = w_fs w.
Proof.
  unfold parse_args. destruct (getopt_run _ _) as [evs pos]. unfold bind.
  destruct (opt_loop _ evs _ w) as [[c|s|] w1] eqn:E; apply opt_loop_fs in E;
    intros H; try congruence.
  assert (forall (o : outcome (config * string * string)) msg,
             fatal msg w1 = (o, w') -> w_fs w' = w_fs w1)
    by (unfold fatal; intros ? ? [= _ <-]; reflexivity).
  destruct pos as [|s1 [|s2 [|s3 pos]]]; eauto using eq_trans.
  unfold ret in H. injection H as _ <-. exact E.
Qed.

(** The option loop does not change which files are stuck. *)
Lemma parse_id_stuck lookup kind optarg w o w' :
  (forall n w g w', lookup n w = (g, w') -> w_stuck w' = w_stuck w) ->
  parse_id lookup kind optarg w = (o, w') -> w_stuck w' = w_stuck w.
Proof.
  intros Hl. unfold parse_id, bind, call, fatal, ret.
  destruct (_ || _).
  - destruct (lookup optarg w) as [[id|] w1] eqn:E; apply Hl in E;
      intros [= _ <-]; simpl; congruence.
  - destruct (errno_set _); intros [= _ <-]; reflexivity.
Qed.

Lemma parse_mode_stuck optarg w o w' :
  parse_mode optarg w = (o, w') -> w_stuck w' = w_stuck w.
Proof.
  unfold parse_mode, fatal, ret.
  destruct (_ || _); intros [= _ <-]; reflexivity.
Qed.

Lemma handle_opt_stuck argv0 ev c w o w' :
  handle_opt argv0 ev c w = (o, w') -> w_stuck w' = w_stuck w.
Proof.
  assert (Hret : forall (c' : config) w o w',
             ret c' w = (o, w') -> w_stuck w' = w_stuck w)
    by (unfold ret; intros ? ? ? ? [= _ <-]; reflexivity).
  assert (Hfatal : forall msg w (o : outcome config) w',
             fatal msg w = (o, w') -> w_stuck w' = w_stuck w)
    by (unfold fatal; intros ? ? ? ? [= _ <-]; reflexivity).
  assert (Hhelp : forall w (o : outcome config) w',
             help argv0 w = (o, w') -> w_stuck w' = w_stuck w)
    by (unfold help; intros ? ? ? [= _ <-]; reflexivity).
  assert (Hid : forall lookup kind optarg (f : Z -> config) w o w',
             (forall n w g w', lookup n w = (g, w') -> w_stuck w' = w_stuck w) ->
             bind (parse_id lookup kind optarg) (fun x => ret (f x)) w = (o, w') ->
             w_stuck w' = w_stuck w).
  { intros lookup kind optarg f w0 o0 w0' Hl. unfold bind.
    destruct (parse_id lookup kind optarg w0) as [[x|s|] w1] eqn:E;
      apply parse_id_stuck in E; auto; intros H;
      [apply Hret in H; congruence | congruence | congruence]. }
  assert (Hmode : forall optarg (f : Z -> config) w o w',
             bind (parse_mode optarg) (fun x => ret (f x)) w = (o, w') ->
             w_stuck w' = w_stuck w).
  { intros optarg f w0 o0 w0'. unfold bind.
    destruct (parse_mode optarg w0) as [[x|s|] w1] eqn:E;
      apply parse_mode_stuck in E; intros H;
      [apply Hret in H; congruence | congruence | congruence]. }
  destruct ev as [ch optarg| |]; [|apply Hfatal|apply Hfatal].
  destruct ch as [[] [] [] [] [] [] [] []]; destruct optarg; simpl;
    first [apply Hfatal | apply Hret | apply Hhelp | apply Hmode
          | apply Hid; first [intros ? ? ? ? H; apply (getgrnam_plan _ _ _ _ H)
                            |intros ? ? ? ? H; apply (getpwnam_plan _ _ _ _ H)] ].
Qed.

Lemma opt_loop_stuck argv0 evs c w o w' :
  opt_loop argv0 evs c w = (o, w') -> w_stuck w' = w_stuck w.
Proof.
  revert c w. induction evs as [|ev evs IH]; intros c w; simpl.
  - unfold ret. now intros [= _ <-].
  - unfold bind. destruct (handle_opt argv0 ev c w) as [[c'|s|] w1] eqn:E;
      apply handle_opt_stuck in E; intros H.
    + apply IH in H. congruence.
    + congruence.
    + congruence.
Qed.

Lemma parse_args_stuck argv w o w' :
  parse_args argv w = (o, w') -> w_stuck w' = w_stuck w.
Proof.
  unfold parse_args. destruct (getopt_run _ _) as [evs pos]. unfold bind.
  destruct (opt_loop _ evs _ w) as [[c|s|] w1] eqn:E; apply opt_loop_stuck in E;
    intros H; try congruence.
  assert (forall (o : outcome (config * string * string)) msg,
             fatal msg w1 = (o, w') -> w_stuck w' = w_stuck w1)
    by (unfold fatal; intros ? ? [= _ <-]; reflexivity).
  destruct pos as [|s1 [|s2 [|s3 pos]]]; eauto using eq_trans.
  unfold ret in H. injection H as _ <-. exact E.
Qed.

(** ** The help option (C7) *)

(** C7, as stated, fails: the options are handled in order, and an
    invalid option argument before -h is fatal. On "install -m 9 -h" the
    program exits with status 1 and prints no usage text. *)
Lemma help_after_bad_mode_exits_1 :
  let argv := ["install"; "-m"; "9"; "-h"] in
  let w := Scenario.world_of 1000 (Scenario.fs_src 1000) ∅ in
  In "-h" argv /\
  fst (run argv w) = Some 1 /\
  w_out (snd (run argv w)) = "" /\
  w_err (snd (run argv w)) = "fatal: invalid mode: 9" +:+ nl.
Proof. vm_compute. intuition. Qed.

(** C7 (amended): when the option loop reaches -h, every option before
    it having been accepted, the program prints the usage text to
    standard output and exits with status 0, whatever follows -h on the
    command line (the later options [evs2] and the positional arguments
    are not looked at). *)
Theorem help_when_reached argv w evs1 optarg evs2 positional c w1 :
  getopt_run optstring (tl argv)
    = (evs1 ++ GOpt "h" optarg :: evs2, positional) ->
  opt_loop (hd "" argv) evs1 (initial_config w) w = (Ret c, w1) ->
  run argv w = (Some 0, put_out (install_help (hd "" argv)) w1).
Proof.
  intros Hg Hl. unfold run, main, parse_args. unfold bind at 1.
  rewrite Hg. rewrite (bind_Exit _ _ w 0 (put_out (install_help (hd "" argv)) w1)).
  - reflexivity.
  - rewrite opt_loop_app. rewrite (bind_Ret _ _ _ _ _ Hl).
    simpl. unfold bind. destruct optarg; reflexivity.
Qed.

Lemma help_when_reached_witness :
  let argv := ["install"; "-D"; "-h"; "junk"; "-m"; "999"] in
  let w := Scenario.world_of 1000 (Scenario.fs_src 1000) ∅ in
  run argv w = (Some 0, put_out (install_help "install") w).
Proof.
  intros argv w.
  apply (help_when_reached argv w [GOpt "D" None] None []
           ["junk"; "-m"; "999"]
           {| mkdirp := true; symbolic := false; owner := 1000;
              group := 1000; mode := o0755 |} w);
    reflexivity.
Defined.

(** ** Failures of mkdir in mkparents (C2) *)

(** C2: the code does not do what the claim says. On
    "install -D src.txt a/b/dst.txt" where a is a regular file,
    mkdir("a/b") fails with ENOTDIR; mkparents ignores the result of
    mkdir (line 74) and returns 0, so main does not report "failed to
    create directories: a/b/dst.txt (Not a directory)": the run goes on
    and it is the later open of the temporary path that fails. *)
Lemma mkdir_failure_not_reported :
  let argv := ["install"; "-D"; "src.txt"; "a/b/dst.txt"] in
  let w := Scenario.world_of 1000
             (<[ ["a"] := Reg (Scenario.owned 1000 1000 420) [] ]>
                (Scenario.fs_src 1000)) ∅ in
  In {| ev_call := CMkdir "a/b" o0777; ev_err := Some ENOTDIR |}
     (w_log (snd (run argv w))) /\
  In {| ev_call := COpen "a/b/dst.txt.tmp" true; ev_err := Some ENOTDIR |}
     (w_log (snd (run argv w))) /\
  fst (run argv w) = Some 1 /\
  w_err (snd (run argv w)) =
    "fatal: failed to create temporary file: a/b/dst.txt.tmp (Not a directory)"
    +:+ nl.
Proof. vm_compute. intuition. Qed.

(** ** The range of the mode (C3) *)

(** C3: the code does not do what the claim says. strtoul returns an
    unsigned long, which the assignment to the 32-bit mode_t truncates
    before the test mode > 07777: "40000000644" is octal for 2^32 + 0644,
    far above 07777, and the program installs with mode 0644 and exits
    with status 0. *)
Lemma mode_above_07777_accepted :
  let argv := ["install"; "-m"; "40000000644"; "src.txt"; "dst.txt"] in
  let w := Scenario.world_of 1000 (Scenario.fs_src 1000) ∅ in
  strtoul false "40000000644" 8
    = {| st_val := 2 ^ 32 + 420; st_end := ""; st_errno := None |} /\
  o07777 < 2 ^ 32 + 420 /\
  fst (run argv w) = Some 0 /\
  lstat_of (w_fs (snd (run argv w))) "dst.txt"
    = inr (Reg (Scenario.owned 1000 1000 420) (Scenario.bytes "hello world")).
Proof. vm_compute. intuition. Qed.

(** A second way to lose the requested mode: chmod comes before lchown,
    and lchown clears the set-user-ID bit again. "-m 4755" installs with
    mode 0755. *)
Lemma setuid_mode_lost :
  let argv := ["install"; "-m"; "4755"; "src.txt"; "dst.txt"] in
  let w := Scenario.world_of 1000 (Scenario.fs_src 1000) ∅ in
  fst (run argv w) = Some 0 /\
  lstat_of (w_fs (snd (run argv w))) "dst.txt"
    = inr (Reg (Scenario.owned 1000 1000 o0755) (Scenario.bytes "hello world")).
Proof. vm_compute. intuition. Qed.

(** ** Parent directories (C4) *)

Lemma scan_back_le path l : (scan_back path l <= l)%nat.
Proof.
  induction l as [|l IH]; simpl; [lia|].
  destruct (is_slash _); lia.
Qed.

Lemma get_length_none (s : string) : String.get (String.length s) s = None.
Proof. induction s; simpl; auto. Qed.

Lemma scan_back_lt path l :
  scan_back path (String.length path) = S l -> (S l < String.length path)%nat.
Proof.
  destruct (String.length path) as [|n] eqn:E; simpl; [discriminate|].
  rewrite <- E, get_length_none. simpl.
  pose proof (scan_back_le path n). lia.
Qed.

Lemma scan_back_slash path n l :
  scan_back path n = S l -> is_slash (String.get (S l) path) = true.
Proof.
  induction n as [|n IH]; simpl; [discriminate|].
  destruct (is_slash (String.get (S n) path)) eqn:E; [|exact IH].
  now intros [= <-].
Qed.

Lemma substring_length l s :
  (l <= String.length s)%nat -> String.length (String.substring 0 l s) = l.
Proof.
  revert l. induction s as [|c s IH]; intros [|l]; simpl; auto; try lia.
  intros H. f_equal. apply IH. lia.
Qed.

Lemma substring_get i l s :
  (i < l)%nat -> String.get i (String.substring 0 l s) = String.get i s.
Proof.
  intros H. rewrite substring_correct1 by exact H. f_equal. lia.
Qed.

Lemma substring_substring i l s :
  (i <= l)%nat ->
  String.substring 0 i (String.substring 0 l s) = String.substring 0 i s.
Proof.
  revert i l. induction s as [|c s IH]; intros [|i] [|l] H; simpl; auto;
    try lia.
  f_equal. apply IH. lia.
Qed.

Lemma slashes_upto_S path n :
  slashes_upto path (S n) =
  slashes_upto path n
    ++ (if is_slash (String.get (S n) path) then [S n] else []).
Proof.
  unfold slashes_upto. rewrite seq_S, List.filter_app. simpl.
  destruct (is_slash _); reflexivity.
Qed.

Lemma slashes_upto_scan_back path n :
  slashes_upto path n = slashes_upto path (scan_back path n).
Proof.
  induction n as [|n IH]; simpl; [reflexivity|].
  destruct (is_slash (String.get (S n) path)) eqn:E; [reflexivity|].
  rewrite slashes_upto_S, E, app_nil_r. exact IH.
Qed.

Lemma slashes_upto_ext p q n :
  (forall i, (1 <= i <= n)%nat -> String.get i p = String.get i q) ->
  slashes_upto p n = slashes_upto q n.
Proof.
  induction n as [|n IH]; intros H; [reflexivity|].
  rewrite !slashes_upto_S, IH, (H (S n)) by (intros; try apply H; lia).
  reflexivity.
Qed.

Lemma slashes_upto_bound path n i :
  In i (slashes_upto path n) -> (1 <= i <= n)%nat.
Proof.
  unfold slashes_upto. rewrite List.filter_In, in_seq. lia.
Qed.

(** The slashes of a prefix that ends just before a '/' or at the end. *)
Lemma slash_positions_prefix path l :
  (S l <= String.length path)%nat ->
  slash_positions (String.substring 0 (S l) path) = slashes_upto path l.
Proof.
  intros H. unfold slash_positions. fold (slashes_upto (String.substring 0 (S l) path)
    (String.length (String.substring 0 (S l) path))).
  rewrite substring_length by exact H.
  rewrite slashes_upto_S.
  replace (String.get (S l) (String.substring 0 (S l) path)) with (@None ascii).
  - simpl. rewrite app_nil_r. apply slashes_upto_ext.
    intros i Hi. apply substring_get. lia.
  - symmetry. rewrite <- (substring_length (S l) path) at 1 by exact H.
    apply get_length_none.
Qed.

Lemma parents_prefix path l :
  (S l <= String.length path)%nat ->
  parents (String.substring 0 (S l) path) =
  map (fun i => String.substring 0 i path) (slashes_upto path l).
Proof.
  intros H. unfold parents. rewrite slash_positions_prefix by exact H.
  apply map_ext_in. intros i Hi. apply slashes_upto_bound in Hi.
  apply substring_substring. lia.
Qed.

Lemma parents_none path :
  scan_back path (String.length path) = O -> parents path = [].
Proof.
  intros H. unfold parents, slash_positions.
  fold (slashes_upto path (String.length path)).
  rewrite slashes_upto_scan_back, H. reflexivity.
Qed.

Lemma parents_step path l :
  scan_back path (String.length path) = S l ->
  parents path =
  parents (String.substring 0 (S l) path) ++ [String.substring 0 (S l) path].
Proof.
  intros H. pose proof (scan_back_lt _ _ H) as Hlt.
  rewrite parents_prefix by lia.
  unfold parents, slash_positions.
  fold (slashes_upto path (String.length path)).
  rewrite slashes_upto_scan_back, H, slashes_upto_S.
  rewrite (scan_back_slash _ _ _ H). now rewrite map_app.
Qed.

Lemma syscall_log {A} c (body : world -> errno + (A * world)) w r w' :
  (forall w a w1, body w = inr (a, w1) -> w_log w1 = w_log w) ->
  syscall c body w = (r, w') ->
  w_log w' =
  {| ev_call := c;
     ev_err := match r with inl e => Some e | inr _ => None end |} :: w_log w.
Proof.
  intros Hb. destruct (syscall_cases c body w) as [(? & _ & ->)|[_ ->]];
    [intros [= <- <-]; reflexivity|].
  destruct (body w) as [e|[a w1]] eqn:E; intros [= <- <-]; simpl;
    [reflexivity|]. f_equal. eauto.
Qed.

Lemma malloc_log size w ok w' :
  malloc size w = (ok, w') ->
  exists e, w_log w' = {| ev_call := CMalloc size; ev_err := e |} :: w_log w
            /\ (ok = false -> e <> None).
Proof.
  unfold malloc. destruct (syscall _ _ w) as [r w1] eqn:E.
  apply syscall_log in E; [|now intros ? ? ? [= _ <-]].
  destruct r; intros [= <- <-]; eexists; (split; [exact E|]); congruence.
Qed.

Lemma mkdir_log path m w r w' :
  mkdir path m w = (r, w') ->
  exists e, w_log w' = {| ev_call := CMkdir path m; ev_err := e |} :: w_log w.
Proof.
  intros E. apply syscall_log in E; [eauto|].
  intros w0 a w1. destruct (locate _ _); [discriminate|].
  destruct (lookup_node _ _); [discriminate|]. now intros [= _ <-].
Qed.

Lemma mkdir_calls_cons ev log :
  mkdir_calls (ev :: log) =
  mkdir_calls log ++ match ev_call ev with CMkdir p _ => [p] | _ => [] end.
Proof.
  unfold mkdir_calls. simpl. rewrite flat_map_app. simpl.
  now rewrite app_nil_r.
Qed.

(** What a call of mkparents does, for any bound above the length of
    the path: it returns 0 after calling mkdir on each parent directory,
    the nearest to the root first, or it returns -1 right after a malloc
    that failed. *)
Lemma mkparents_rec_spec fuel path w :
  (String.length path < fuel)%nat ->
  exists r w', mkparents_rec fuel path w = (Ret r, w') /\
    ((r = 0 /\ mkdir_calls (w_log w') = mkdir_calls (w_log w) ++ parents path)
     \/ (r = -1 /\ exists size e rest,
           w_log w' = {| ev_call := CMalloc size; ev_err := Some e |} :: rest)).
Proof.
  revert path w. induction fuel as [|fuel IH]; intros path w Hf; [lia|].
  simpl. destruct (scan_back path (String.length path)) as [|l] eqn:El; simpl.
  - exists 0, w. split; [reflexivity|]. left.
    rewrite parents_none, app_nil_r by exact El. auto.
  - pose proof (scan_back_lt _ _ El) as Hlt.
    unfold bind, call.
    destruct (malloc _ w) as [ok w1] eqn:Em.
    destruct (malloc_log _ _ _ _ Em) as (e & Hlog1 & Hfail).
    destruct ok; simpl.
    + destruct (IH (String.substring 0 (S l) path) w1) as (r & w2 & Er & Hr).
      { rewrite substring_length; lia. }
      rewrite Er. destruct Hr as [[-> Hcalls]|[-> Hm]]; simpl.
      * destruct (mkdir _ _ w2) as [rm w3] eqn:Ek.
        destruct (mkdir_log _ _ _ _ _ Ek) as (e3 & Hlog3).
        exists 0, w3. split; [reflexivity|]. left. split; [reflexivity|].
        rewrite Hlog3, mkdir_calls_cons, Hcalls, Hlog1, mkdir_calls_cons.
        simpl. rewrite app_nil_r, (parents_step _ _ El), app_assoc.
        reflexivity.
      * exists (-1), w2. split; [reflexivity|]. right. auto.
    + exists (-1), w1. split; [reflexivity|]. right. split; [reflexivity|].
      destruct e as [e|]; [|now destruct Hfail]. eauto.
Qed.

(** Before a parent directory in the list come its own parents. *)
Lemma parents_split path before d after :
  parents path = before ++ d :: after -> parents d = before.
Proof.
  unfold parents at 1, slash_positions.
  fold (slashes_upto path (String.length path)).
  assert (G : forall n, (n <= String.length path)%nat ->
            map (fun i => String.substring 0 i path) (slashes_upto path n)
              = before ++ d :: after -> parents d = before);
    [|apply G; lia].
  intros n. revert before d after. induction n as [|n IH];
    intros before d after Hn.
  - simpl. now destruct before.
  - rewrite slashes_upto_S, map_app.
    destruct (is_slash (String.get (S n) path)) eqn:E; simpl.
    + destruct after as [|a after] using rev_ind.
      * intros H. apply app_inj_tail in H as [H1 H2]. subst d.
        rewrite parents_prefix by lia. auto.
      * clear IHafter. rewrite app_comm_cons, app_assoc. intros H.
        apply app_inj_tail in H as [H1 H2]. eapply IH; [lia|exact H1].
    + rewrite app_nil_r. apply IH. lia.
Qed.

(** C4, as stated, fails at a path whose only '/' is the leading one:
    "/dst" has a '/' separator, and still mkparents returns 0 at once:
    no recursion, no allocation, no mkdir (the world is unchanged). *)
Lemma mkparents_leading_slash_noop :
  let w := Scenario.world_of 1000 (Scenario.fs_src 1000) ∅ in
  String.get 0 "/dst" = Some "/"%char /\
  mkparents "/dst" w = (Ret 0, w).
Proof. split; reflexivity. Qed.

(** C4 (amended): given a path with no '/' after its first character
    (none at all, or only a leading one), mkparents does nothing and
    returns 0. Otherwise it returns 0 or -1; when it returns 0 it has
    called mkdir exactly on the parent directories of the path, in the
    order from the one nearest to the root to the immediate parent, so
    that before each of them come exactly its own parent directories;
    it returns -1 only right after a failed malloc. *)
Theorem mkparents_order path w :
  ((forall i, is_slash (String.get (S i) path) = false) ->
   mkparents path w = (Ret 0, w)) /\
  (exists r w', mkparents path w = (Ret r, w') /\ (r = 0 \/ r = -1)) /\
  (forall w', mkparents path w = (Ret 0, w') ->
     mkdir_calls (w_log w') = mkdir_calls (w_log w) ++ parents path) /\
  (forall w', mkparents path w = (Ret (-1), w') ->
     exists size e rest,
       w_log w' = {| ev_call := CMalloc size; ev_err := Some e |} :: rest) /\
  (forall before d after,
     parents path = before ++ d :: after -> parents d = before).
Proof.
  destruct (mkparents_rec_spec (S (String.length path)) path w)
    as (r & w1 & E & Hr); [lia|].
  fold (mkparents path) in E.
  split; [|split; [|split; [|split]]].
  - intros Hno. unfold mkparents. simpl.
    destruct (scan_back path (String.length path)) as [|l] eqn:El;
      [reflexivity|].
    apply scan_back_slash in El. rewrite Hno in El. discriminate.
  - exists r, w1. split; [exact E|]. destruct Hr as [[-> _]|[-> _]]; auto.
  - intros w'. rewrite E. intros [= -> ->].
    destruct Hr as [[_ H]|[H _]]; [exact H|discriminate].
  - intros w'. rewrite E. intros [= -> ->].
    destruct Hr as [[H _]|[_ H]]; [discriminate|exact H].
  - apply parents_split.
Qed.

Lemma mkparents_order_witness :
  let w := Scenario.world_of 1000 (Scenario.fs_src 1000) ∅ in
  mkparents "dst.txt" w = (Ret 0, w) /\
  mkdir_calls (w_log (snd (mkparents "a/b/dst.txt" w))) = ["a"; "a/b"] /\
  parents "a/b" = ["a"].
Proof.
  intros w. split; [|split].
  - apply (proj1 (mkparents_order "dst.txt" w)).
    intros i. do 8 (destruct i as [|i]; [reflexivity|]). reflexivity.
  - assert (H : mkparents "a/b/dst.txt" w
                 = (Ret 0, snd (mkparents "a/b/dst.txt" w)))
      by (vm_compute; reflexivity).
    rewrite (proj1 (proj2 (proj2 (mkparents_order "a/b/dst.txt" w))) _ H).
    vm_compute. reflexivity.
  - apply (proj2 (proj2 (proj2 (proj2 (mkparents_order "a/b/dst.txt" w))))
             ["a"] "a/b" []).
    reflexivity.
Defined.

(** ** Numeric and named identifiers (C5) *)

Lemma digit_val_pretty d :
  (d < 10)%N -> digit_val (pretty_N_char d) = Some (Z.of_N d).
Proof.
  intros H.
  assert (d = 0 \/ d = 1 \/ d = 2 \/ d = 3 \/ d = 4 \/ d = 5 \/ d = 6
          \/ d = 7 \/ d = 8 \/ d = 9)%N as Hd by lia.
  repeat (destruct Hd as [->|Hd]; [reflexivity|]). now subst.
Qed.

Lemma scan_digits_pretty x : forall s acc n,
  exists k : nat,
    scan_digits 10 (pretty_N_go x s) acc n
      = scan_digits 10 s (acc * 10 ^ Z.of_nat k + Z.of_N x) (n + k) /\
    ((0 < x)%N -> (0 < k)%nat).
Proof.
  induction (N.lt_wf_0 x) as [x _ IH]. intros s acc n.
  destruct (N.eq_dec x 0%N) as [->|Hx].
  - exists O. rewrite pretty_N_go_0. split; [|lia].
    f_equal; [lia|symmetry; apply Nat.add_0_r].
  - rewrite pretty_N_go_step by lia.
    destruct (IH (x `div` 10)%N) with
      (s := String (pretty_N_char (x `mod` 10)) s) (acc := acc) (n := n)
      as (k & Hk & _).
    { apply N.div_lt; lia. }
    exists (S k). split; [|lia]. rewrite Hk. simpl.
    rewrite digit_val_pretty by (apply N.mod_lt; lia).
    assert ((Z.of_N (x `mod` 10)%N <? 10) = true) as ->.
    { apply Z.ltb_lt. pose proof (N.mod_lt x 10%N). lia. }
    f_equal; [|lia].
    rewrite Nat2Z.inj_succ, Z.pow_succ_r by lia.
    rewrite (N.div_mod x 10%N) at 3 by lia.
    rewrite N2Z.inj_add, N2Z.inj_mul. simpl Z.of_N. ring.
Qed.

Lemma pretty_N_go_head x : forall s,
  (0 < x)%N ->
  exists d rest, (0 < d < 10)%N /\
    pretty_N_go x s = String (pretty_N_char d) rest.
Proof.
  induction (N.lt_wf_0 x) as [x _ IH]. intros s Hx.
  rewrite pretty_N_go_step by exact Hx.
  destruct (N.eq_dec (x `div` 10)%N 0%N) as [E|E].
  - rewrite E, pretty_N_go_0. exists (x `mod` 10)%N, s.
    split; [|reflexivity].
    pose proof (N.mod_lt x 10%N). pose proof (N.div_mod x 10%N). lia.
  - apply IH; [apply N.div_lt; lia|].
    destruct (x `div` 10)%N; [congruence|reflexivity].
Qed.

(** strtoul with base 0 on the decimal numeral of [n]. *)
Lemma strtoul_decimal einval n :
  0 <= n <= ULONG_MAX ->
  strtoul einval (pretty n) 0
    = {| st_val := n; st_end := ""; st_errno := None |}.
Proof.
  intros Hn. destruct n as [|p|p]; [reflexivity| |lia].
  change (pretty (Z.pos p)) with (pretty_N_go (N.pos p) "").
  destruct (pretty_N_go_head (N.pos p) "") as (d & rest & Hd & Hs);
    [reflexivity|].
  destruct (scan_digits_pretty (N.pos p) "" 0 0) as (k & Hk & Hpos).
  specialize (Hpos eq_refl).
  unfold strtoul.
  assert (d = 1 \/ d = 2 \/ d = 3 \/ d = 4 \/ d = 5 \/ d = 6
          \/ d = 7 \/ d = 8 \/ d = 9)%N as Hc by lia.
  assert (Hpre :
    (let s := skip_space (pretty_N_go (N.pos p) "") in
     let '(neg, s0) :=
       match s with
       | String "-" s' => (true, s')
       | String "+" s' => (false, s')
       | _ => (false, s)
       end in
     (neg, strtoul_base 0 s0)) = (false, (10, pretty_N_go (N.pos p) ""))).
  { rewrite Hs.
    repeat (destruct Hc as [->|Hc]; [reflexivity|]). subst d. reflexivity. }
  cbv zeta in Hpre.
  destruct (match skip_space (pretty_N_go (N.pos p) "") with
            | String "-" s' => (true, s')
            | String "+" s' => (false, s')
            | _ => (false, skip_space (pretty_N_go (N.pos p) ""))
            end) as [neg s0].
  injection Hpre as -> Hb. rewrite Hb, Hk. simpl scan_digits.
  destruct k as [|k]; [lia|]. simpl (0 + S k)%nat. cbv iota beta.
  replace (0 * 10 ^ Z.of_nat (S k) + Z.pos p) with (Z.pos p) by lia.
  assert ((ULONG_MAX <? Z.pos p) = false) as -> by (apply Z.ltb_ge; lia).
  reflexivity.
Qed.

Lemma digit_val_nonneg c d : digit_val c = Some d -> 0 <= d.
Proof.
  unfold digit_val.
  repeat match goal with
         | |- context [if ?b then _ else _] => destruct b eqn:?
         end; intros [= <-]; lia.
Qed.

Lemma scan_digits_nonneg b s : forall acc n,
  0 <= b -> 0 <= acc -> 0 <= fst (fst (scan_digits b s acc n)).
Proof.
  induction s as [|c s IH]; intros acc n Hb Hacc; simpl; [exact Hacc|].
  destruct (digit_val c) as [d|] eqn:E; [|exact Hacc].
  apply digit_val_nonneg in E.
  destruct (d <? b); [|exact Hacc]. apply IH; nia.
Qed.

Lemma strtoul_base_nonneg base s : 0 <= base -> 0 <= fst (strtoul_base base s).
Proof.
  intros H. unfold strtoul_base.
  repeat match goal with
         | |- context [match ?x with _ => _ end] => destruct x; simpl; try lia
         end.
Qed.

Lemma strtoul_nonneg einval s base :
  0 <= base -> 0 <= st_val (strtoul einval s base).
Proof.
  intros Hb. unfold strtoul.
  destruct (match skip_space s with
            | String "-" s' => (true, s')
            | String "+" s' => (false, s')
            | _ => (false, skip_space s)
            end) as [neg s0].
  pose proof (strtoul_base_nonneg base s0 Hb) as Hb'.
  destruct (strtoul_base base s0) as [b s1]. simpl in Hb'.
  pose proof (scan_digits_nonneg b s1 0 0%nat Hb' (Z.le_refl 0)) as Hv.
  destruct (scan_digits b s1 0 0) as [[v n] rest]. simpl in Hv.
  destruct n; simpl; [lia|].
  destruct (ULONG_MAX <? v); simpl; [unfold ULONG_MAX; lia|].
  destruct neg; [apply Z.mod_pos_bound; lia|exact Hv].
Qed.

Lemma parse_id_numeric lookup kind optarg w :
  st_errno (strtoul (w_einval w) optarg 0) = None ->
  st_end (strtoul (w_einval w) optarg 0) = "" ->
  st_val (strtoul (w_einval w) optarg 0) < 2 ^ 32 ->
  parse_id lookup kind optarg w
    = (Ret (st_val (strtoul (w_einval w) optarg 0)), w).
Proof.
  unfold parse_id. intros -> -> H. simpl. unfold ret, to_u32.
  rewrite Z.mod_small; [reflexivity|].
  split; [apply strtoul_nonneg; lia|exact H].
Qed.

Lemma parse_id_named lookup kind optarg w :
  st_errno (strtoul (w_einval w) optarg 0) <> None \/
  st_end (strtoul (w_einval w) optarg 0) <> "" ->
  parse_id lookup kind optarg w =
  match lookup optarg w with
  | (Some id, w1) => (Ret id, w1)
  | (None, w1) =>
      (Exit 1,
       put_err (fatal_line ("invalid " +:+ kind +:+ ": '" +:+ optarg +:+ "'")) w1)
  end.
Proof.
  unfold parse_id. intros H.
  assert (errno_set (st_errno (strtoul (w_einval w) optarg 0))
          || negb (st_end (strtoul (w_einval w) optarg 0) =? "")%string = true)
    as ->.
  { destruct H as [H|H].
    - destruct (st_errno _); [reflexivity|congruence].
    - apply String.eqb_neq in H. rewrite H. apply orb_true_r. }
  unfold bind, call, fatal, ret.
  destruct (lookup optarg w) as [[id|] w1]; reflexivity.
Qed.

Lemma syscall_unplanned {A} c (body : world -> errno + (A * world)) w :
  w_plan w !! length (w_log w) = None ->
  fst (syscall c body w) =
  match body w with inl e => inl e | inr (a, _) => inr a end.
Proof.
  unfold syscall. intros ->. destruct (body w) as [e|[a w1]]; reflexivity.
Qed.

(** C5, as stated, fails on a purely numeric string that does not fit an
    unsigned long: strtoul reports ERANGE and the condition of line 111
    sends the string to getgrnam. "-g 18446744073709551616" (2^64) makes
    a lookup in the group database, and with no group of that name the
    program exits with status 1. *)
Lemma numeric_overflow_is_looked_up :
  let optarg := "18446744073709551616" in
  let argv := ["install"; "-g"; optarg; "src.txt"; "dst.txt"] in
  let w := Scenario.world_of 1000 (Scenario.fs_src 1000) ∅ in
  optarg = pretty (2 ^ 64) /\
  w_log (snd (run argv w))
    = [{| ev_call := CGetgrnam optarg; ev_err := Some ENOENT |}] /\
  fst (run argv w) = Some 1 /\
  w_err (snd (run argv w))
    = "fatal: invalid group: '18446744073709551616'" +:+ nl.
Proof. vm_compute. intuition. Qed.

(** C5 (amended): for every -g or -o argument a numeric parse (strtoul,
    base 0) is attempted first. The decimal numeral of a number below
    2^32, and more generally any string that strtoul converts to its end
    into a value below 2^32, resolves to that number with no lookup
    (the world, and so the log of calls, is unchanged). A string that is
    not converted to its end, or whose value does not fit an unsigned
    long, is looked up by name in the group or user database; when the
    lookup fails the program exits with status 1 and an invalid group or
    user message. Any exit from the option loop leaves the file system
    as it was. *)
Theorem id_option_resolution argv0 c w optarg :
  let r := strtoul (w_einval w) optarg 0 in
  (forall n, 0 <= n < 2 ^ 32 -> optarg = pretty n ->
     handle_opt argv0 (GOpt "g" (Some optarg)) c w = (Ret (with_group c n), w) /\
     handle_opt argv0 (GOpt "o" (Some optarg)) c w = (Ret (with_owner c n), w)) /\
  (st_errno r = None -> st_end r = "" -> st_val r < 2 ^ 32 ->
     handle_opt argv0 (GOpt "g" (Some optarg)) c w
       = (Ret (with_group c (st_val r)), w) /\
     handle_opt argv0 (GOpt "o" (Some optarg)) c w
       = (Ret (with_owner c (st_val r)), w)) /\
  (st_errno r <> None \/ st_end r <> "" ->
     handle_opt argv0 (GOpt "g" (Some optarg)) c w
       = by_name "group" optarg (with_group c) (getgrnam optarg w) /\
     handle_opt argv0 (GOpt "o" (Some optarg)) c w
       = by_name "user" optarg (with_owner c) (getpwnam optarg w) /\
     (w_plan w !! length (w_log w) = None ->
        fst (getgrnam optarg w) = assoc optarg (w_group w) /\
        fst (getpwnam optarg w) = assoc optarg (w_passwd w))) /\
  (forall argv s w', parse_args argv w = (Exit s, w') ->
     main argv w = (Exit s, w') /\ w_fs w' = w_fs w).
Proof.
  intros r.
  assert (Hnum : st_errno r = None -> st_end r = "" -> st_val r < 2 ^ 32 ->
     handle_opt argv0 (GOpt "g" (Some optarg)) c w
       = (Ret (with_group c (st_val r)), w) /\
     handle_opt argv0 (GOpt "o" (Some optarg)) c w
       = (Ret (with_owner c (st_val r)), w)).
  { intros He Hend Hlt. simpl. unfold bind.
    rewrite !parse_id_numeric by assumption. split; reflexivity. }
  split; [|split; [exact Hnum|split]].
  - intros n Hn ->.
    assert (E : r = {| st_val := n; st_end := ""; st_errno := None |})
      by (apply strtoul_decimal; unfold ULONG_MAX; lia).
    rewrite E in Hnum. apply Hnum; simpl; lia || reflexivity.
  - intros Hbad. simpl. unfold bind, by_name.
    rewrite !parse_id_named by assumption. split; [|split].
    + destruct (getgrnam optarg w) as [[id|] w1]; reflexivity.
    + destruct (getpwnam optarg w) as [[id|] w1]; reflexivity.
    + intros Hplan. unfold getgrnam, getpwnam. split.
      * pose proof (syscall_unplanned (CGetgrnam optarg)
          (fun w => match assoc optarg (w_group w) with
                    | Some g => inr (g, w)
                    | None => inl ENOENT
                    end) w Hplan) as H.
        destruct (syscall _ _ w) as [[e|g] w1]; simpl in H |- *;
          destruct (assoc optarg (w_group w)); congruence.
      * pose proof (syscall_unplanned (CGetpwnam optarg)
          (fun w => match assoc optarg (w_passwd w) with
                    | Some g => inr (g, w)
                    | None => inl ENOENT
                    end) w Hplan) as H.
        destruct (syscall _ _ w) as [[e|g] w1]; simpl in H |- *;
          destruct (assoc optarg (w_passwd w)); congruence.
  - intros argv s w' H. split; [|eapply parse_args_fs; exact H].
    unfold main. apply bind_Exit. exact H.
Qed.

Lemma id_option_resolution_witness :
  let w := Scenario.world_of 1000 (Scenario.fs_src 1000) ∅ in
  let c := initial_config w in
  let argv := ["install"; "-g"; "nosuch"; "src.txt"; "dst.txt"] in
  handle_opt "install" (GOpt "g" (Some "50")) c w = (Ret (with_group c 50), w) /\
  handle_opt "install" (GOpt "o" (Some "0x10")) c w
    = (Ret (with_owner c 16), w) /\
  handle_opt "install" (GOpt "o" (Some "alice")) c w
    = by_name "user" "alice" (with_owner c) (getpwnam "alice" w) /\
  fst (getpwnam "alice" w) = Some 1000 /\
  main argv w = (Exit 1, snd (parse_args argv w)) /\
  w_fs (snd (parse_args argv w)) = w_fs w.
Proof.
  intros w c argv.
  assert (Hbad : st_errno (strtoul (w_einval w) "alice" 0) <> None \/
                 st_end (strtoul (w_einval w) "alice" 0) <> "")
    by (right; vm_compute; discriminate).
  assert (Hexit : parse_args argv w = (Exit 1, snd (parse_args argv w)))
    by (vm_compute; reflexivity).
  split; [|split; [|split; [|split]]].
  - apply (proj1 (id_option_resolution "install" c w "50") 50);
      [lia|reflexivity].
  - apply (proj1 (proj2 (id_option_resolution "install" c w "0x10")));
      [reflexivity|reflexivity|vm_compute; reflexivity].
  - apply (proj1 (proj2 (proj2 (id_option_resolution "install" c w "alice")))
             Hbad).
  - apply (proj1 (proj2 (proj2 (id_option_resolution "install" c w "alice")))
             Hbad).
    reflexivity.
  - apply (proj2 (proj2 (proj2 (id_option_resolution "install" c w "")))
             argv 1 _ Hexit).
Defined.

(** ** Before the source is inspected *)


Lemma malloc_fs size w ok w' : malloc size w = (ok, w') -> w_fs w' = w_fs w.
Proof.
  unfold malloc. destruct (syscall _ _ w) as [r w1] eqn:E.
  apply syscall_fs_pure in E; [|now intros ? ? ? [= _ <-]].
  destruct r; intros [= _ <-]; exact E.
Qed.

Lemma lstat_fs path w r w' : lstat path w = (r, w') -> w_fs w' = w_fs w.
Proof.
  apply syscall_fs_pure. intros w0 a w1.
  destruct (lstat_of _ _); [discriminate|]. now intros [= _ <-].
Qed.




(** ** Failed system calls *)

Lemma syscall_failed {A} c (body : world -> errno + (A * world)) w e w' :
  syscall c body w = (inl e, w') -> w' = failed c e w.
Proof.
  destruct (syscall_cases c body w) as [(? & _ & ->)|[_ ->]];
    [now intros [= <- <-]|].
  destruct (body w) as [e'|[a w1]]; [now intros [= <- <-]|discriminate].
Qed.

(** ** The temporary path *)

Lemma append_assoc (a b c : string) : (a +:+ b) +:+ c = a +:+ (b +:+ c).
Proof.
  induction a as [|x a IH]; [reflexivity|].
  change (String x ((a +:+ b) +:+ c) = String x (a +:+ (b +:+ c))).
  now rewrite IH.
Qed.

Lemma append_length (a b : string) :
  String.length (a +:+ b) = (String.length a + String.length b)%nat.
Proof.
  induction a as [|x a IH]; [reflexivity|].
  change (S (String.length (a +:+ b))
          = S (String.length a + String.length b)%nat).
  now rewrite IH.
Qed.

Lemma split_slash_nonempty s cur : split_slash s cur <> [].
Proof.
  revert cur. induction s as [|c s IH]; intros cur; simpl; [discriminate|].
  destruct (Ascii.eqb c "/"); [discriminate|apply IH].
Qed.

(** Appending ".tmp" to a path appends it to its last component. *)
Lemma split_slash_tmp s : forall cur,
  split_slash (s +:+ ".tmp") cur =
  removelast (split_slash s cur) ++ [List.last (split_slash s cur) "" +:+ ".tmp"].
Proof.
  induction s as [|c s IH]; intros cur.
  - change (split_slash ("" +:+ ".tmp") cur)
      with [(((cur +:+ ".") +:+ "t") +:+ "m") +:+ "p"].
    now rewrite !append_assoc.
  - change (String c s +:+ ".tmp") with (String c (s +:+ ".tmp")).
    cbn [split_slash]. destruct (Ascii.eqb c "/").
    + rewrite IH. pose proof (split_slash_nonempty s "") as Hne.
      destruct (split_slash s "") as [|x l]; [congruence|]. reflexivity.
    + apply IH.
Qed.

Lemma real_comp_tmp x : real_comp (x +:+ ".tmp") = true.
Proof.
  unfold real_comp.
  assert (H : forall y, (String.length y < 4)%nat -> x +:+ ".tmp" <> y).
  { intros y Hy E. apply (f_equal String.length) in E.
    rewrite append_length in E. simpl in E. lia. }
  rewrite (proj2 (String.eqb_neq _ _) (H "" ltac:(simpl; lia))).
  rewrite (proj2 (String.eqb_neq _ _) (H "." ltac:(simpl; lia))).
  reflexivity.
Qed.

(** The key of the temporary path: the directory [d] of the destination
    and then its last component with ".tmp" appended. The destination
    itself is [d ++ [x]], or [d] when it ends in '/' or in ".". *)
Lemma tmp_key_spec dst :
  exists d x,
    path_key (dst +:+ ".tmp") = d ++ [x +:+ ".tmp"] /\
    (path_key dst = d ++ [x] \/ path_key dst = d).
Proof.
  unfold path_key. rewrite split_slash_tmp.
  pose proof (split_slash_nonempty dst "") as Hne.
  set (L := split_slash dst "") in *.
  rewrite List.filter_app. simpl. rewrite real_comp_tmp.
  assert (EL : List.filter real_comp L =
               List.filter real_comp (removelast L)
                 ++ (if real_comp (List.last L "") then [List.last L ""]
                     else [])).
  { rewrite (app_removelast_last "" Hne) at 1.
    now rewrite List.filter_app. }
  rewrite EL. clear EL.
  destruct dst as [|c dst'].
  - exists (List.filter real_comp (removelast L)), (List.last L "").
    split; [reflexivity|].
    destruct (real_comp (List.last L "")); [left|right; rewrite app_nil_r];
      reflexivity.
  - change (String c dst' +:+ ".tmp") with (String c (dst' +:+ ".tmp")).
    assert (Hc : {c = "/"%char} + {c <> "/"%char}) by apply ascii_dec.
    destruct Hc as [->|Hc].
    + exists ("/" :: List.filter real_comp (removelast L)), (List.last L "").
      split; [reflexivity|].
      destruct (real_comp (List.last L "")); [left|right; rewrite app_nil_r];
        reflexivity.
    + assert (E : forall (A : Type) (a b : A) r,
                 match String c r with String "/" _ => a | _ => b end = b).
      { intros A a b r.
        destruct c as [[] [] [] [] [] [] [] []]; try reflexivity.
        now destruct Hc. }
      rewrite (E _ _ _ (dst' +:+ ".tmp")), (E _ _ _ dst').
      exists (List.filter real_comp (removelast L)), (List.last L "").
      split; [reflexivity|].
      destruct (real_comp (List.last L "")); [left|right; rewrite app_nil_r];
        reflexivity.
Qed.

Lemma tmp_key_ne dst : path_key (dst +:+ ".tmp") <> path_key dst.
Proof.
  destruct (tmp_key_spec dst) as (d & x & -> & [->| ->]); intros E.
  - apply app_inv_head in E. injection E as E.
    apply (f_equal String.length) in E. rewrite append_length in E.
    simpl in E. lia.
  - apply (f_equal (@length _)) in E. rewrite length_app in E. simpl in E.
    lia.
Qed.

Lemma wants_dir_tmp dst : wants_dir (dst +:+ ".tmp") = false.
Proof.
  unfold wants_dir. rewrite split_slash_tmp, last_last, real_comp_tmp.
  reflexivity.
Qed.

(** ** What the system calls do when they succeed *)

Lemma syscall_ok {A} c (body : world -> errno + (A * world)) w a w' :
  syscall c body w = (inr a, w') ->
  exists w1, body w = inr (a, w1) /\
             w' = add_log {| ev_call := c; ev_err := None |} w1.
Proof.
  destruct (syscall_cases c body w) as [(? & _ & ->)|[_ ->]];
    [discriminate|].
  destruct (body w) as [e|[a' w1]]; [discriminate|].
  intros [= <- <-]. eauto.
Qed.

Lemma lookup_node_present fs k n :
  lookup_node fs k = Some n -> is_dir n = false ->
  implicit k = false /\ fs !! k = Some n.
Proof.
  unfold lookup_node. destruct (implicit k).
  - intros [= <-]. discriminate.
  - auto.
Qed.

Lemma lookup_node_absent fs k :
  lookup_node fs k = None -> implicit k = false /\ fs !! k = None.
Proof. unfold lookup_node. destruct (implicit k); [discriminate|auto]. Qed.

Lemma open_ok path f w fd w' :
  open path f w = (inr fd, w') ->
  exists k,
    resolve (w_fs w) path = inr k /\
    fd = length (w_fds w) /\
    w_fds w' = w_fds w ++ [(k, O)] /\
    w_log w' = {| ev_call := COpen path (is_creat f); ev_err := None |} :: w_log w /\
    w_blksize w' = w_blksize w /\
    ((lookup_node (w_fs w) k = None /\
      exists mode, f = O_RDWR_CREAT mode /\
        w_fs w' = <[k := Reg (new_stat mode w) []]> (w_fs w))
     \/ (exists n, lookup_node (w_fs w) k = Some n /\
           (is_creat f = true -> is_dir n = false) /\ w_fs w' = w_fs w)).
Proof.
  intros H. apply syscall_ok in H as (w1 & Hb & ->).
  destruct (resolve (w_fs w) path) as [e|k]; [discriminate|].
  exists k. split; [reflexivity|].
  destruct (lookup_node (w_fs w) k) as [n|] eqn:En.
  - destruct (wants_dir path && negb (is_dir n)); [discriminate|].
    destruct (is_creat f && is_dir n) eqn:Ec; [discriminate|].
    injection Hb as <- <-. simpl. repeat split. right. exists n.
    repeat split. intros Hf. rewrite Hf in Ec. exact Ec.
  - destruct f as [|mode]; [discriminate|].
    destruct (wants_dir path); [discriminate|].
    injection Hb as <- <-. simpl. repeat split. left. split; [reflexivity|].
    exists mode. split; reflexivity.
Qed.

(** open_file is open, unless the file opened is stuck. *)
Lemma open_file_ret path f w r w' :
  open_file path f w = (Ret r, w') ->
  open path f w = (r, w') /\
  forall fd, r = inr fd -> stuck_fd fd w' = false.
Proof.
  unfold open_file, bind, call.
  destruct (open path f w) as [[e|fd] w1]; [now intros [= <- <-]|].
  destruct (stuck_fd fd w1) eqn:E; [discriminate|].
  intros [= <- <-]. split; [reflexivity|]. now intros ? [= <-].
Qed.

Lemma open_file_cases path f w :
  open_file path f w = (Ret (fst (open path f w)), snd (open path f w))
  \/ (open_file path f w = (Hang, snd (open path f w)) /\
      exists fd, fst (open path f w) = inr fd /\
                 stuck_fd fd (snd (open path f w)) = true).
Proof.
  unfold open_file, bind, call.
  destruct (open path f w) as [[e|fd] w1]; simpl; [now left|].
  destruct (stuck_fd fd w1) eqn:E; [right; eauto|now left].
Qed.

Lemma open_file_inv path f w o w' :
  open_file path f w = (o, w') ->
  exists r, open path f w = (r, w') /\
    (o = Ret r \/ (o = Hang /\ exists fd, r = inr fd /\ stuck_fd fd w' = true)).
Proof.
  unfold open_file, bind, call.
  destruct (open path f w) as [[e|fd] w1].
  - intros [= <- <-]. eauto.
  - destruct (stuck_fd fd w1) eqn:E; intros [= <- <-]; eauto 7.
Qed.

Lemma open_file_run path f w fd w' :
  open path f w = (inr fd, w') -> stuck_fd fd w' = false ->
  open_file path f w = (Ret (inr fd), w').
Proof. intros E H. unfold open_file, bind, call. now rewrite E, H. Qed.

Lemma open_file_world path f w o w' :
  open_file path f w = (o, w') -> w' = snd (open path f w).
Proof.
  destruct (open_file_cases path f w) as [-> |[-> _]]; now intros [= _ <-].
Qed.

Lemma read_ok fd count w buf w' :
  read fd count w = (inr buf, w') ->
  exists k pos,
    w_fds w !! fd = Some (k, pos) /\
    w_fs w' = w_fs w /\
    w_log w' = {| ev_call := CRead fd count; ev_err := None |} :: w_log w /\
    w_blksize w' = w_blksize w /\
    ((exists m data, lookup_node (w_fs w) k = Some (Reg m data) /\
        buf = take (Z.to_nat count) (drop pos data) /\
        w_fds w' = <[fd := (k, (pos + length buf)%nat)]> (w_fds w))
     \/ (exists m, lookup_node (w_fs w) k = Some (Special m) /\
           buf = [] /\ w_fds w' = w_fds w)).
Proof.
  intros H. apply syscall_ok in H as (w1 & Hb & ->).
  destruct (w_fds w !! fd) as [[k pos]|]; [|discriminate].
  exists k, pos. split; [reflexivity|].
  destruct (lookup_node (w_fs w) k) as [[m data|m|m t|m]|]; try discriminate;
    injection Hb as <- <-; simpl; repeat split.
  - left. exists m, data. repeat split.
  - right. exists m. repeat split.
Qed.

Lemma write_ok fd buf w r w' :
  write fd buf w = (inr r, w') ->
  exists k pos,
    w_fds w !! fd = Some (k, pos) /\
    w_log w' = {| ev_call := CWrite fd buf; ev_err := None |} :: w_log w /\
    w_blksize w' = w_blksize w /\
    ((exists m data, lookup_node (w_fs w) k = Some (Reg m data) /\
        w_fs w'
          = store_node (w_fs w) k (Reg m (overwrite data pos (written w buf))) /\
        w_fds w' = <[fd := (k, (pos + length (written w buf))%nat)]> (w_fds w))
     \/ (exists m, lookup_node (w_fs w) k = Some (Special m) /\
           w_fs w' = w_fs w /\ w_fds w' = w_fds w)).
Proof.
  intros H. apply syscall_ok in H as (w1 & Hb & ->).
  destruct (w_fds w !! fd) as [[k pos]|]; [|discriminate].
  exists k, pos. split; [reflexivity|]. cbv zeta in Hb.
  destruct (lookup_node (w_fs w) k) as [[m data|m|m t|m]|]; try discriminate;
    injection Hb as <- <-; (split; [reflexivity|]); (split; [reflexivity|]).
  - left. exists m, data. repeat split.
  - right. exists m. repeat split.
Qed.

(** Where no write is cut short, a write transfers its whole buffer. *)
Lemma written_whole w buf : whole_writes w -> written w buf = buf.
Proof.
  intros H. unfold written.
  destruct (w_plan w !! length (w_log w)) as [[e|n]|] eqn:E; try reflexivity.
  now apply H in E.
Qed.

Lemma written_prefix w buf : written w buf `prefix_of` buf.
Proof.
  unfold written.
  destruct (w_plan w !! length (w_log w)) as [[e|n]|]; try reflexivity.
  apply prefix_take.
Qed.

Lemma symlink_ok target path w w' :
  symlink target path w = (inr tt, w') ->
  exists k,
    locate (w_fs w) path = inr k /\
    lookup_node (w_fs w) k = None /\
    w_fs w' = <[k := Lnk (link_stat w) target]> (w_fs w) /\
    w_log w' = {| ev_call := CSymlink target path; ev_err := None |} :: w_log w.
Proof.
  intros H. apply syscall_ok in H as (w1 & Hb & ->).
  destruct (target =? "")%string; [discriminate|].
  destruct (locate (w_fs w) path) as [e|k]; [discriminate|].
  exists k. split; [reflexivity|].
  destruct (lookup_node (w_fs w) k); [discriminate|].
  destruct (wants_dir path); [discriminate|].
  injection Hb as <-. simpl. repeat split.
Qed.

Lemma chmod_ok path mode w w' :
  chmod path mode w = (inr tt, w') ->
  exists k n,
    resolve (w_fs w) path = inr k /\
    lookup_node (w_fs w) k = Some n /\
    w_fs w' = store_node (w_fs w) k (set_mode n (Z.land mode o07777)) /\
    w_log w' = {| ev_call := CChmod path mode; ev_err := None |} :: w_log w.
Proof.
  intros H. apply syscall_ok in H as (w1 & Hb & ->).
  destruct (resolve (w_fs w) path) as [e|k]; [discriminate|].
  destruct (lookup_node (w_fs w) k) as [n|] eqn:En; [|discriminate].
  destruct (wants_dir path && negb (is_dir n)); [discriminate|].
  injection Hb as <-. exists k, n. simpl. repeat split. exact En.
Qed.

Lemma lchown_ok path uid gid w w' :
  lchown path uid gid w = (inr tt, w') ->
  exists k n,
    locate (w_fs w) path = inr k /\
    lookup_node (w_fs w) k = Some n /\
    w_fs w' = store_node (w_fs w) k (set_owner n uid gid) /\
    w_log w' = {| ev_call := CLchown path uid gid; ev_err := None |} :: w_log w.
Proof.
  intros H. apply syscall_ok in H as (w1 & Hb & ->).
  destruct (locate (w_fs w) path) as [e|k]; [discriminate|].
  destruct (lookup_node (w_fs w) k) as [n|] eqn:En; [|discriminate].
  destruct (wants_dir path && negb (is_dir n)); [discriminate|].
  injection Hb as <-. exists k, n. simpl. repeat split. exact En.
Qed.

Lemma rename_ok old new w w' :
  rename old new w = (inr tt, w') ->
  exists ko kn n,
    locate (w_fs w) old = inr ko /\
    locate (w_fs w) new = inr kn /\
    lookup_node (w_fs w) ko = Some n /\
    is_dir n = false /\
    w_log w' = {| ev_call := CRename old new; ev_err := None |} :: w_log w /\
    ((ko = kn /\ w_fs w' = w_fs w)
     \/ (ko <> kn /\ wants_dir new = false /\
         (forall m, lookup_node (w_fs w) kn <> Some (Dir m)) /\
         w_fs w' = <[kn := n]> (delete ko (w_fs w)))).
Proof.
  intros H. apply syscall_ok in H as (w1 & Hb & ->).
  destruct (locate (w_fs w) old) as [e|ko]; [discriminate|].
  destruct (locate (w_fs w) new) as [e|kn]; [discriminate|].
  destruct (lookup_node (w_fs w) ko) as [n|] eqn:En; [|discriminate].
  destruct (is_dir n) eqn:Ed; [discriminate|].
  destruct (wants_dir old); [discriminate|].
  exists ko, kn, n.
  split; [reflexivity|]. split; [reflexivity|]. split; [exact En|].
  split; [exact Ed|].
  destruct (decide (ko = kn)) as [E|E].
  - injection Hb as <-. simpl. split; [reflexivity|]. left. auto.
  - destruct (lookup_node (w_fs w) kn) as [[m data|m|m t|m]|] eqn:Ek;
      try discriminate;
      (destruct (wants_dir new) eqn:Ew; [discriminate|]);
      injection Hb as <-; simpl; (split; [reflexivity|]); right;
      repeat split; auto; discriminate.
Qed.

(** ** The copy loop *)

Lemma reads_ok_suffix (l1 l2 : list event) :
  l1 `suffix_of` l2 -> reads_ok l2 -> reads_ok l1.
Proof.
  intros [k ->] H fd count e Hin. apply (H fd count e).
  apply in_or_app. now right.
Qed.

Lemma overwrite_inside (data : list byte) pos buf :
  (pos <= length data)%nat ->
  overwrite data pos buf = take pos data ++ buf ++ drop (pos + length buf) data.
Proof.
  intros H. unfold overwrite.
  replace (pos - length data)%nat with O by lia. reflexivity.
Qed.

Lemma overwrite_nil (data : list byte) pos :
  (pos <= length data)%nat -> overwrite data pos [] = data.
Proof.
  intros H. rewrite overwrite_inside by exact H. simpl.
  rewrite Nat.add_0_r. apply take_drop.
Qed.

Lemma overwrite_length (data : list byte) pos buf :
  (pos <= length data)%nat ->
  (pos + length buf <= length (overwrite data pos buf))%nat.
Proof.
  intros H. rewrite overwrite_inside by exact H.
  rewrite !length_app, length_take. lia.
Qed.

Lemma overwrite_app (data : list byte) pos a b :
  (pos <= length data)%nat ->
  overwrite (overwrite data pos a) (pos + length a) b
    = overwrite data pos (a ++ b).
Proof.
  intros H.
  rewrite (overwrite_inside (overwrite data pos a))
    by (apply overwrite_length; exact H).
  rewrite !overwrite_inside by exact H.
  assert (Hl : length (take pos data ++ a) = (pos + length a)%nat)
    by (rewrite length_app, length_take; lia).
  set (tl := drop (pos + length a) data).
  assert (E1 : take (pos + length a) (take pos data ++ a ++ tl)
               = take pos data ++ a).
  { rewrite app_assoc. apply take_app_length'. symmetry. exact Hl. }
  assert (E2 : drop (pos + length a + length b) (take pos data ++ a ++ tl)
               = drop (length b) tl).
  { rewrite app_assoc, drop_app_ge by lia. f_equal. lia. }
  rewrite E1, E2. unfold tl. rewrite drop_drop, length_app.
  rewrite <- !app_assoc. do 3 f_equal. f_equal. lia.
Qed.

Lemma take_drop_length {A} (l : list A) n :
  take n l ++ drop (length (take n l)) l = l.
Proof.
  rewrite length_take. destruct (Nat.le_gt_cases n (length l)).
  - rewrite Nat.min_l by lia. apply take_drop.
  - rewrite Nat.min_r by lia. rewrite take_ge, drop_all by lia.
    apply app_nil_r.
Qed.

Lemma take_length_take {A} (l : list A) n :
  take (length (take n l)) l = take n l.
Proof.
  rewrite length_take. destruct (Nat.le_gt_cases n (length l)).
  - now rewrite Nat.min_l by lia.
  - rewrite Nat.min_r by lia. now rewrite !take_ge by lia.
Qed.

Lemma take_plus {A} (l : list A) a b :
  take (a + b) l = take a l ++ take b (drop a l).
Proof.
  revert l. induction a as [|a IH]; intros [|x l]; simpl;
    rewrite ?take_nil; try reflexivity.
  now rewrite IH.
Qed.

(** A loop that returns has left everything but the content of the
    temporary file as it was. Where no write is cut short, it has copied
    part of the rest of the source, [j] bytes of it at most, over the
    temporary file from its offset on, and what the temporary file had
    beyond that stays; it has copied all the rest of the source if no
    read failed and the block size is positive. *)
Lemma copy_loop_spec src_fd tmp_fd blksize fuel :
  forall w w' ks ps kt pt ms ds mt dt,
    copy_loop fuel src_fd tmp_fd blksize w = (Ret tt, w') ->
    src_fd <> tmp_fd -> ks <> kt ->
    w_fds w !! src_fd = Some (ks, ps) ->
    w_fds w !! tmp_fd = Some (kt, pt) ->
    lookup_node (w_fs w) ks = Some (Reg ms ds) ->
    lookup_node (w_fs w) kt = Some (Reg mt dt) ->
    (pt <= length dt)%nat ->
    exists content,
      w_fs w' = <[kt := Reg mt content]> (w_fs w) /\
      (whole_writes w ->
       exists j,
         content = overwrite dt pt (take j (drop ps ds)) /\
         (0 < blksize -> reads_ok (w_log w') ->
          take j (drop ps ds) = drop ps ds)) /\
      w_log w `suffix_of` w_log w'.
Proof.
  induction fuel as [|fuel IH];
    intros w w' ks ps kt pt ms ds mt dt Hrun Hfd Hk Hs Ht Hns Hnt Hpt;
    [discriminate|].
  destruct (lookup_node_present _ _ _ Hnt eq_refl) as [Hit Hlt].
  destruct (lookup_node_present _ _ _ Hns eq_refl) as [His Hls].
  assert (Hstay : w_fs w = <[kt := Reg mt dt]> (w_fs w))
    by (symmetry; apply insert_id; exact Hlt).
  assert (Hzero : dt = overwrite dt pt (take 0 (drop ps ds)))
    by (now rewrite take_0, overwrite_nil by exact Hpt).
  simpl in Hrun. unfold bind, call in Hrun.
  destruct (read src_fd blksize w) as [[e|buf] w1] eqn:Er.
  - injection Hrun as <-. apply syscall_failed in Er. subst w1.
    exists dt. split; [exact Hstay|]. split.
    + intros _. exists O. split; [exact Hzero|].
      intros _ Hok. exfalso. apply (Hok src_fd blksize e). simpl. now left.
    + simpl. apply suffix_cons_r. reflexivity.
  - pose proof (proj1 (read_plan _ _ _ _ _ Er)) as Hpl1.
    apply read_ok in Er
      as (k & pos & Hfdk & Hfs1 & Hlog1 & _ & [(m & data & Hn & Hbuf & Hfds1)
                                             |(m & Hn & _)]);
      rewrite Hs in Hfdk; injection Hfdk as <- <-;
      rewrite Hns in Hn; [injection Hn as <- <-|discriminate].
    destruct (0 <? length buf)%nat eqn:Elen.
    + apply Nat.ltb_lt in Elen.
      unfold clear_errno in Hrun.
      destruct (write tmp_fd buf (set_errno None w1)) as [[e|r] w3] eqn:Ew;
        [unfold fatal_errno, bind, strerror_errno, fatal in Hrun;
         discriminate|].
      pose proof (proj1 (write_plan _ _ _ _ _ Ew)) as Hpl3.
      apply write_ok in Ew as (k & pos & Hfdk & Hlog3 & _ & Hw).
      set (part := written (set_errno None w1) buf) in *.
      simpl in Hfdk, Hlog3, Hw, Hpl3. rewrite Hfds1 in Hfdk.
      rewrite list_lookup_insert_ne in Hfdk by exact Hfd.
      rewrite Ht in Hfdk. injection Hfdk as <- <-.
      rewrite Hfs1, Hnt in Hw.
      destruct Hw as [(m & data & Hn & Hfs3 & Hfds3)|(m & Hn & _)];
        [injection Hn as <- <-|discriminate].
      unfold store_node in Hfs3. rewrite Hit in Hfs3.
      assert (Hs3 : w_fds w3 !! src_fd = Some (ks, (ps + length buf)%nat)).
      { rewrite Hfds3, Hfds1.
        rewrite list_lookup_insert_ne by congruence.
        apply list_lookup_insert_eq. eapply lookup_lt_Some; exact Hs. }
      assert (Ht3 : w_fds w3 !! tmp_fd = Some (kt, (pt + length part)%nat)).
      { rewrite Hfds3. apply list_lookup_insert_eq.
        rewrite Hfds1, length_insert. eapply lookup_lt_Some; exact Ht. }
      assert (Hns3 : lookup_node (w_fs w3) ks = Some (Reg ms ds)).
      { unfold lookup_node. rewrite His, Hfs3.
        rewrite lookup_insert_ne by congruence. exact Hls. }
      assert (Hnt3 : lookup_node (w_fs w3) kt
                     = Some (Reg mt (overwrite dt pt part))).
      { unfold lookup_node. rewrite Hit, Hfs3. apply lookup_insert_eq. }
      destruct (IH w3 w' ks _ kt _ ms ds mt _ Hrun Hfd Hk Hs3 Ht3 Hns3 Hnt3)
        as (content & Hfs' & Hwhole & Hlog');
        [apply overwrite_length; exact Hpt|].
      exists content. split; [|split].
      * rewrite Hfs', Hfs3, insert_insert_eq. reflexivity.
      * intros Hww.
        assert (Hp : part = buf).
        { apply written_whole. eapply whole_writes_plan; [|exact Hww].
          simpl. exact Hpl1. }
        destruct Hwhole as (j & Hc & Hall).
        { eapply whole_writes_plan; [|exact Hww]. now rewrite Hpl3. }
        rewrite Hp in Hc.
        assert (Hcat : take (length buf + j) (drop ps ds)
                       = buf ++ take j (drop (ps + length buf) ds)).
        { rewrite take_plus, <- drop_drop. f_equal.
          rewrite Hbuf. apply take_length_take. }
        exists (length buf + j)%nat. split.
        -- rewrite Hc, overwrite_app by exact Hpt. now rewrite Hcat.
        -- intros Hbs Hok. rewrite Hcat, (Hall Hbs Hok).
           rewrite <- drop_drop. rewrite Hbuf at 1. rewrite Hbuf.
           apply take_drop_length.
      * etransitivity; [|exact Hlog']. rewrite Hlog3, Hlog1.
        apply suffix_cons_r, suffix_cons_r. reflexivity.
    + injection Hrun as <-. apply Nat.ltb_ge in Elen.
      exists dt. split; [rewrite Hfs1; exact Hstay|]. split.
      * intros _. exists O. split; [exact Hzero|].
        intros Hbs _. rewrite take_0.
        destruct (drop ps ds) as [|b l]; [reflexivity|].
        rewrite Hbuf in Elen. destruct (Z.to_nat blksize) eqn:Eb; [lia|].
        simpl in Elen. lia.
      * rewrite Hlog1. apply suffix_cons_r. reflexivity.
Qed.

(** ** Paths that stay valid *)

Lemma locate_inr fs p k :
  locate fs p = inr k -> k = path_key p /\ walk fs [] k = None /\ p <> "".
Proof.
  unfold locate. destruct (String.eqb_spec p ""); [discriminate|].
  destruct (walk fs [] (path_key p)) eqn:E; [discriminate|].
  intros [= <-]. auto.
Qed.

Lemma locate_intro fs p :
  p <> "" -> walk fs [] (path_key p) = None -> locate fs p = inr (path_key p).
Proof.
  intros Hp Hw. unfold locate.
  destruct (String.eqb_spec p ""); [contradiction|]. now rewrite Hw.
Qed.

(** The walk to a path only needs the directories on the way: it still
    succeeds in a file system where they are still directories. *)
Lemma walk_mono fs fs' comps :
  (forall p m, lookup_node fs p = Some (Dir m) ->
               exists m', lookup_node fs' p = Some (Dir m')) ->
  forall pre, walk fs pre comps = None -> walk fs' pre comps = None.
Proof.
  intros Hd. induction comps as [|c rest IH]; intros pre; [reflexivity|].
  simpl. destruct rest as [|c' rest]; [reflexivity|].
  destruct (lookup_node fs (pre ++ [c])) as [[m d|m|m t|m]|] eqn:E;
    try discriminate.
  destruct (Hd _ _ E) as [m' ->]. apply IH.
Qed.

Lemma follow_not_link fuel fs : forall k k' m t,
  follow fuel fs k = inr k' -> lookup_node fs k' <> Some (Lnk m t).
Proof.
  induction fuel as [|fuel IH]; intros k k' m t; simpl.
  - destruct (lookup_node fs k) as [[| |m0 t0|]|] eqn:E; try discriminate;
      intros [= <-]; rewrite E; discriminate.
  - destruct (lookup_node fs k) as [[| |m0 t0|]|] eqn:E;
      try (intros [= <-]; rewrite E; discriminate).
    destruct (String.eqb t0 ""); [discriminate|].
    destruct (walk fs [] (link_dest k t0)); [discriminate|]. apply IH.
Qed.

Lemma follow_here fuel fs k :
  (forall m t, lookup_node fs k <> Some (Lnk m t)) -> follow fuel fs k = inr k.
Proof.
  intros H. destruct fuel; simpl;
    destruct (lookup_node fs k) as [[| |m0 t0|]|] eqn:E; try reflexivity;
    now destruct (H m0 t0).
Qed.

Lemma resolve_not_link fs p k m t :
  resolve fs p = inr k -> lookup_node fs k <> Some (Lnk m t).
Proof.
  unfold resolve. destruct (locate fs p); [discriminate|].
  apply follow_not_link.
Qed.

Lemma resolve_here fs p k :
  resolve fs p = inr k ->
  (forall m t, lookup_node fs (path_key p) <> Some (Lnk m t)) ->
  k = path_key p.
Proof.
  unfold resolve. destruct (locate fs p) as [e|k0] eqn:E; [discriminate|].
  apply locate_inr in E as (-> & _ & _). intros H Hn.
  rewrite follow_here in H by exact Hn. congruence.
Qed.

Lemma implicit_is_dir fs k : implicit k = true ->
  lookup_node fs k = Some implicit_dir.
Proof. unfold lookup_node. now intros ->. Qed.

Lemma lookup_node_not_dir fs k n :
  lookup_node fs k = Some n -> is_dir n = false -> implicit k = false.
Proof. intros H Hd. eapply lookup_node_present; eassumption. Qed.

(** Renaming a file onto a path that is not a directory keeps every
    directory in place. *)
Lemma rename_keeps_dirs (fs : gmap key node) ko kn n p m :
  lookup_node fs ko = Some n -> is_dir n = false ->
  (forall m, lookup_node fs kn <> Some (Dir m)) ->
  lookup_node fs p = Some (Dir m) ->
  lookup_node (<[kn := n]> (delete ko fs)) p = Some (Dir m).
Proof.
  intros Hko Hd Hkn Hp. unfold lookup_node in *.
  destruct (implicit p) eqn:Ei; [exact Hp|].
  assert (p <> kn) by (intros ->; rewrite Ei in Hkn; now apply (Hkn m)).
  assert (p <> ko).
  { intros ->. rewrite Ei in Hko. rewrite Hko in Hp. injection Hp as ->.
    discriminate. }
  rewrite lookup_insert_ne, lookup_delete_ne by congruence. exact Hp.
Qed.

(** ** chmod, lchown, rename *)


Lemma is_dir_set_owner n u g : is_dir (set_owner n u g) = is_dir n.
Proof. now destruct n. Qed.

Lemma is_dir_after_chmod n m : is_dir (after_chmod n m) = is_dir n.
Proof. destruct n; try reflexivity. Qed.

Lemma finish_spec c tmp dst w r w' n0 :
  finish c tmp dst w = (Ret r, w') ->
  lookup_node (w_fs w) (path_key tmp) = Some n0 -> is_dir n0 = false ->
  path_key tmp <> path_key dst ->
  r = 0 /\
  lstat_of (w_fs w') dst
    = inr (set_owner (after_chmod n0 (mode c)) (owner c) (group c)) /\
  lstat_of (w_fs w') tmp = inl ENOENT /\
  w_log w `suffix_of` w_log w'.
Proof.
  intros Hrun Hn0 Hd0 Hne.
  pose proof (lookup_node_not_dir _ _ _ Hn0 Hd0) as Hit.
  unfold finish, bind, clear_errno, call in Hrun.
  destruct (chmod tmp (mode c) (set_errno None w)) as [[e|[]] w2] eqn:E2;
    [discriminate|].
  apply chmod_ok in E2 as (k & n & Hres & Hk & Hfs2 & Hlog2).
  simpl in Hres, Hk, Hfs2, Hlog2.
  assert (Hn2 : lookup_node (w_fs w2) (path_key tmp)
                = Some (after_chmod n0 (mode c))).
  { unfold lookup_node. rewrite Hit, Hfs2. unfold store_node.
    destruct n0 as [m0 d0|m0|m0 t0|m0]; try discriminate.
    - assert (k = path_key tmp) as ->
        by (eapply resolve_here; [exact Hres|intros; rewrite Hn0; discriminate]).
      rewrite Hn0 in Hk. injection Hk as <-.
      rewrite Hit, lookup_insert_eq. reflexivity.
    - assert (k <> path_key tmp).
      { intros ->. eapply resolve_not_link; [exact Hres|exact Hn0]. }
      unfold lookup_node in Hn0. rewrite Hit in Hn0.
      destruct (implicit k); [exact Hn0|].
      rewrite lookup_insert_ne by congruence. exact Hn0.
    - assert (k = path_key tmp) as ->
        by (eapply resolve_here; [exact Hres|intros; rewrite Hn0; discriminate]).
      rewrite Hn0 in Hk. injection Hk as <-.
      rewrite Hit, lookup_insert_eq. reflexivity. }
  destruct (lchown tmp (owner c) (group c) w2) as [[e|[]] w3] eqn:E3;
    [discriminate|].
  apply lchown_ok in E3 as (k3 & n3 & Hloc3 & Hk3 & Hfs3 & Hlog3).
  apply locate_inr in Hloc3 as (-> & _ & _).
  rewrite Hn2 in Hk3. injection Hk3 as <-.
  unfold store_node in Hfs3. rewrite Hit in Hfs3.
  set (n3 := set_owner (after_chmod n0 (mode c)) (owner c) (group c)) in *.
  assert (Hd3 : is_dir n3 = false)
    by (unfold n3; now rewrite is_dir_set_owner, is_dir_after_chmod).
  assert (Hn3 : lookup_node (w_fs w3) (path_key tmp) = Some n3).
  { unfold lookup_node. rewrite Hit, Hfs3. apply lookup_insert_eq. }
  destruct (rename tmp dst w3) as [[e|[]] w4] eqn:E4; [discriminate|].
  injection Hrun as <- <-.
  apply rename_ok in E4
    as (ko & kn & n4 & Hlo & Hln & Hko & _ & Hlog4 & Hcase).
  apply locate_inr in Hlo as (-> & Hwo & Hto).
  apply locate_inr in Hln as (-> & Hwn & Htn).
  rewrite Hn3 in Hko. injection Hko as <-.
  destruct Hcase as [[E _]|(_ & Hwd & Hnd & Hfs4)]; [contradiction|].
  assert (Hdirs : forall p m, lookup_node (w_fs w3) p = Some (Dir m) ->
                    exists m', lookup_node (w_fs w4) p = Some (Dir m')).
  { intros p m Hp. exists m. rewrite Hfs4.
    eapply rename_keeps_dirs; eassumption. }
  assert (Hid : implicit (path_key dst) = false).
  { destruct (implicit (path_key dst)) eqn:Ei; [|reflexivity].
    exfalso. eapply Hnd. apply implicit_is_dir. exact Ei. }
  split; [reflexivity|]. split; [|split].
  - unfold lstat_of.
    rewrite (locate_intro _ _ Htn (walk_mono _ _ _ Hdirs _ Hwn)).
    unfold lookup_node. rewrite Hid, Hfs4, lookup_insert_eq, Hwd.
    reflexivity.
  - unfold lstat_of.
    rewrite (locate_intro _ _ Hto (walk_mono _ _ _ Hdirs _ Hwo)).
    unfold lookup_node. rewrite Hit, Hfs4.
    rewrite lookup_insert_ne by congruence. now rewrite lookup_delete_eq.
  - rewrite Hlog4, Hlog3, Hlog2. simpl.
    do 3 apply suffix_cons_r. reflexivity.
Qed.

(** ** Staging *)

Lemma lstat_ok path w n w' :
  lstat path w = (inr n, w') ->
  lstat_of (w_fs w) path = inr n /\
  w' = add_log {| ev_call := CLstat path; ev_err := None |} w.
Proof.
  intros H. apply syscall_ok in H as (w1 & Hb & ->).
  destruct (lstat_of (w_fs w) path); [discriminate|].
  injection Hb as <- <-. auto.
Qed.

Lemma malloc_ok size w w' :
  malloc size w = (true, w') ->
  w' = add_log {| ev_call := CMalloc size; ev_err := None |} w.
Proof.
  unfold malloc. destruct (syscall _ _ w) as [[e|[]] w1] eqn:E;
    [discriminate|].
  apply syscall_ok in E as (w2 & Hb & ->). injection Hb as <-.
  now intros [= <-].
Qed.


(** The copy branch, when it returns: the temporary path, which was
    absent or a regular file with content [old], is a regular file.
    Where no write is cut short it holds the first [k] bytes of the
    source followed by what [old] had beyond them; [k] is the length of
    the source if no read failed and the block size is positive. *)
Lemma stage_copy_spec src tmp w w' ks ms data old :
  stage_copy src tmp w = (Ret tt, w') ->
  resolve (w_fs w) src = inr ks ->
  lookup_node (w_fs w) ks = Some (Reg ms data) ->
  ks <> path_key tmp ->
  (lookup_node (w_fs w) (path_key tmp) = None /\ old = []
   \/ exists mt, lookup_node (w_fs w) (path_key tmp) = Some (Reg mt old)) ->
  exists mt content,
    lookup_node (w_fs w') (path_key tmp) = Some (Reg mt content) /\
    (whole_writes w ->
     exists k,
       (k <= length data)%nat /\
       content = take k data ++ drop k old /\
       (0 < w_blksize w -> reads_ok (w_log w') -> k = length data)) /\
    w_log w `suffix_of` w_log w'.
Proof.
  intros Hrun Hres Hks Hne Htmp.
  unfold stage_copy, bind, clear_errno, call in Hrun.
  destruct (lstat src (set_errno None w)) as [[e|n] w1] eqn:E1.
  { destruct e; discriminate. }
  apply lstat_ok in E1 as [_ ->].
  set (w0 := add_log _ (set_errno None w)) in Hrun.
  assert (Hgo : copy_file src tmp w0 = (Ret tt, w'))
    by (destruct n; try discriminate; exact Hrun).
  clear Hrun. unfold copy_file, bind, clear_errno, call in Hgo.
  set (w1 := set_errno None w0) in Hgo.
  destruct (open_file src O_RDONLY w1) as [[[e|src_fd]|s|] w2] eqn:E2;
    try discriminate.
  apply open_file_ret in E2 as [E2 _].
  pose proof (proj1 (open_plan _ _ _ _ _ E2)) as Hpl2.
  apply open_ok in E2
    as (k & Hres2 & Hfd2 & Hfds2 & Hlog2 & Hblk2 & Hcase2).
  simpl in Hres2, Hfd2, Hfds2, Hlog2, Hblk2, Hcase2, Hpl2.
  rewrite Hres in Hres2. injection Hres2 as <-.
  destruct Hcase2 as [(_ & mode & Hf & _)|(n2 & _ & _ & Hfs2)];
    [discriminate|].
  cbv beta iota in Hgo.
  destruct (open_file tmp (O_RDWR_CREAT o0600) (set_errno None w2))
    as [[[e|tmp_fd]|s|] w3] eqn:E3; try discriminate.
  apply open_file_ret in E3 as [E3 _].
  pose proof (proj1 (open_plan _ _ _ _ _ E3)) as Hpl3.
  apply open_ok in E3
    as (k & Hres3 & Hfd3 & Hfds3 & Hlog3 & Hblk3 & Hcase3).
  simpl in Hres3, Hfd3, Hfds3, Hlog3, Hblk3, Hcase3, Hpl3.
  rewrite Hfs2 in Hres3, Hcase3.
  assert (k = path_key tmp) as ->.
  { eapply resolve_here; [exact Hres3|]. intros m t.
    destruct Htmp as [[-> _]|[mt ->]]; discriminate. }
  unfold bind, call in Hgo.
  destruct (malloc (w_blksize w3) w3) as [[] w4] eqn:E4; [|discriminate].
  apply malloc_ok in E4. cbn [negb] in Hgo.
  assert (Hs4 : w_fds w4 !! src_fd = Some (ks, O)).
  { subst w4. simpl. rewrite Hfds3, Hfds2, Hfd2.
    rewrite lookup_app_l by (rewrite length_app; simpl; lia).
    rewrite lookup_app_r by lia. now rewrite Nat.sub_diag. }
  assert (Ht4 : w_fds w4 !! tmp_fd = Some (path_key tmp, O)).
  { subst w4. simpl. rewrite Hfds3, Hfd3.
    rewrite lookup_app_r by lia. now rewrite Nat.sub_diag. }
  assert (Hne4 : src_fd <> tmp_fd).
  { rewrite Hfd2, Hfd3, Hfds2, length_app. simpl. lia. }
  assert (Hb4 : w_blksize w3 = w_blksize w) by (rewrite Hblk3, Hblk2; reflexivity).
  assert (Hpl4 : w_plan w4 = w_plan w)
    by (subst w4; simpl; rewrite Hpl3, Hpl2; reflexivity).
  destruct (lookup_node_present _ _ _ Hks eq_refl) as [His Hls].
  assert (Hstaged : exists mt,
            lookup_node (w_fs w4) ks = Some (Reg ms data) /\
            lookup_node (w_fs w4) (path_key tmp) = Some (Reg mt old) /\
            w_fs w4 = w_fs w3).
  { subst w4. simpl.
    destruct Hcase3 as [(Hnone & mode & _ & Hfs3)|(n3 & Hsome & _ & Hfs3)].
    - destruct Htmp as [[_ ->]|[mt Hmt]]; [|congruence].
      apply lookup_node_absent in Hnone as [Hit _].
      exists (new_stat mode (set_errno None w2)). rewrite Hfs3.
      unfold lookup_node. rewrite His, Hit.
      rewrite lookup_insert_ne by congruence. rewrite lookup_insert_eq.
      auto.
    - destruct Htmp as [[Hnone _]|[mt Hmt]]; [congruence|].
      exists mt. rewrite Hfs3. auto. }
  destruct Hstaged as (mt & Hns4 & Hnt4 & Hfs4).
  destruct (copy_loop_spec _ _ _ _ _ _ ks O (path_key tmp) O ms data mt old
              Hgo Hne4 Hne Hs4 Ht4 Hns4 Hnt4)
    as (content & Hfs' & Hwhole & Hlog'); [lia|].
  destruct (lookup_node_present _ _ _ Hnt4 eq_refl) as [Hit _].
  exists mt, content. split; [|split].
  - unfold lookup_node. rewrite Hit, Hfs', lookup_insert_eq. reflexivity.
  - intros Hww.
    destruct Hwhole as (j & Hc & Hall);
      [eapply whole_writes_plan; [exact Hpl4|exact Hww]|].
    rewrite drop_0 in Hc, Hall.
    exists (length (take j data)). split; [|split].
    + rewrite length_take. lia.
    + rewrite Hc, overwrite_inside by lia. simpl. now rewrite take_length_take.
    + intros Hbs Hok.
      rewrite Hall; [reflexivity|rewrite Hb4; exact Hbs|exact Hok].
  - etransitivity; [|exact Hlog']. subst w4. simpl.
    rewrite Hlog3, Hlog2. simpl. do 4 apply suffix_cons_r. reflexivity.
Qed.

(** ** What a successful install has done *)

Lemma main_install argv w c src dst w0 :
  parse_args argv w = (Ret (c, src, dst), w0) ->
  main argv w = install c src dst w0.
Proof. intros H. unfold main. now rewrite (bind_Ret _ _ _ _ _ H). Qed.

Lemma prelude_ret c dst w tmp w1 :
  prelude c dst w = (Ret tmp, w1) ->
  tmp = dst +:+ ".tmp" /\ mode c <= o07777.
Proof.
  unfold prelude. destruct (o07777 <? mode c) eqn:Em; [discriminate|].
  apply Z.ltb_ge in Em. unfold bind, call, clear_errno.
  destruct (malloc _ w) as [[] w2]; [|discriminate]. simpl.
  destruct (if mkdirp c then mkparents dst else ret 0) as [[r|s|] w3];
    try discriminate.
  destruct (mkdirp c && (r =? -1)); [discriminate|].
  unfold ret. intros [= <- <-]. auto.
Qed.

Lemma install_inv c src dst w0 r w' :
  install c src dst w0 = (Ret r, w') ->
  exists tmp w1 w2,
    prelude c dst w0 = (Ret tmp, w1) /\
    stage c src tmp w1 = (Ret tt, w2) /\
    finish c tmp dst w2 = (Ret r, w').
Proof.
  unfold install. intros H.
  apply bind_Ret_inv in H as (tmp & w1 & Hp & H).
  apply bind_Ret_inv in H as ([] & w2 & Hs & Hf).
  exists tmp, w1, w2. auto.
Qed.

Lemma land_o07777 m : 0 <= m <= o07777 -> Z.land m o07777 = m.
Proof.
  intros H. change o07777 with (Z.ones 12). rewrite Z.land_ones by lia.
  apply Z.mod_small. unfold o07777 in H. lia.
Qed.


Lemma stat_of_inr fs p n :
  stat_of fs p = inr n ->
  exists k, resolve fs p = inr k /\ lookup_node fs k = Some n.
Proof.
  unfold stat_of. destruct (resolve fs p) as [e|k]; [discriminate|].
  destruct (lookup_node fs k) as [n'|] eqn:En; [|discriminate].
  destruct (wants_dir p && negb (is_dir n')); [discriminate|].
  intros [= <-]. exists k. split; [reflexivity|exact En].
Qed.

Lemma chmod_log path m w r w' :
  chmod path m w = (r, w') ->
  exists e, w_log w' = {| ev_call := CChmod path m; ev_err := e |} :: w_log w.
Proof.
  intros E. apply syscall_log in E; [eauto|].
  intros w0 a w1. destruct (resolve _ _); [discriminate|].
  destruct (lookup_node _ _) as [n|]; [|discriminate].
  destruct (_ && _); [discriminate|]. now intros [= _ <-].
Qed.

Lemma lchown_log path u g w r w' :
  lchown path u g w = (r, w') ->
  exists e, w_log w' = {| ev_call := CLchown path u g; ev_err := e |} :: w_log w.
Proof.
  intros E. apply syscall_log in E; [eauto|].
  intros w0 a w1. destruct (locate _ _); [discriminate|].
  destruct (lookup_node _ _) as [n|]; [|discriminate].
  destruct (_ && _); [discriminate|]. now intros [= _ <-].
Qed.

Lemma rename_log old new w r w' :
  rename old new w = (r, w') ->
  exists e, w_log w' = {| ev_call := CRename old new; ev_err := e |} :: w_log w.
Proof.
  intros E. apply syscall_log in E; [eauto|].
  intros w0 a w1. destruct (locate _ old); [discriminate|].
  destruct (locate _ new); [discriminate|].
  destruct (lookup_node _ _) as [n|]; [|discriminate].
  destruct (is_dir n); [discriminate|].
  destruct (wants_dir old); [discriminate|].
  destruct (decide _); [now intros [= _ <-]|].
  destruct (lookup_node _ _) as [[| | |]|]; try discriminate;
    (destruct (wants_dir new); [discriminate|]); now intros [= _ <-].
Qed.

(** Whatever its outcome, the last part of main only adds to the log. *)
Lemma finish_log c tmp dst w o w' :
  finish c tmp dst w = (o, w') -> w_log w `suffix_of` w_log w'.
Proof.
  unfold finish, bind, clear_errno, call, fatal_errno, strerror_errno,
    fatal, ret.
  destruct (chmod _ _ _) as [r1 w1] eqn:E1.
  apply chmod_log in E1 as [e1 H1]. simpl in H1.
  destruct r1 as [?|?]; [intros [= _ <-]; simpl; rewrite H1;
                         apply suffix_cons_r; reflexivity|].
  destruct (lchown _ _ _ w1) as [r2 w2] eqn:E2.
  apply lchown_log in E2 as [e2 H2].
  destruct r2 as [?|?]; [intros [= _ <-]; simpl; rewrite H2, H1;
                         do 2 apply suffix_cons_r; reflexivity|].
  destruct (rename _ _ w2) as [r3 w3] eqn:E3.
  apply rename_log in E3 as [e3 H3].
  destruct r3 as [?|?]; intros [= _ <-]; simpl; rewrite H3, H2, H1;
    do 3 apply suffix_cons_r; reflexivity.
Qed.

(** Without -D the prelude changes nothing that matters to the copy;
    with -D, neither does it change the plan. *)
Lemma mkparents_rec_plan fuel : forall path w r w',
  mkparents_rec fuel path w = (r, w') ->
  w_plan w' = w_plan w /\ w_stuck w' = w_stuck w.
Proof.
  induction fuel as [|fuel IH]; intros path w r w'; simpl.
  - now intros [= _ <-].
  - destruct (Nat.eqb _ 0); [now intros [= _ <-]|].
    unfold bind, call, ret.
    destruct (malloc _ w) as [ok w1] eqn:Em.
    apply malloc_plan in Em as [Hp1 Hs1].
    destruct ok; cbn [negb]; [|intros [= _ <-]; auto].
    destruct (mkparents_rec fuel _ w1) as [[v|s|] w2] eqn:Er;
      apply IH in Er as [Hp2 Hs2];
      try (intros [= _ <-]; split; congruence).
    destruct (v =? -1); [intros [= _ <-]; split; congruence|].
    destruct (mkdir _ _ w2) as [rm w3] eqn:Ek.
    apply mkdir_plan in Ek as [Hp3 Hs3].
    intros [= _ <-]. split; congruence.
Qed.

Lemma prelude_plan c dst w o w1 :
  prelude c dst w = (o, w1) ->
  w_plan w1 = w_plan w /\ w_stuck w1 = w_stuck w.
Proof.
  unfold prelude. destruct (o07777 <? mode c);
    [unfold fatal; now intros [= _ <-]|].
  unfold bind, call, fatal, clear_errno, ret, fatal_path_errno,
    strerror_errno.
  destruct (malloc _ w) as [ok w0] eqn:Em.
  apply malloc_plan in Em as [Hp0 Hs0].
  destruct ok; cbn [negb]; [|now intros [= _ <-]].
  destruct (mkdirp c); cbn [andb].
  - unfold mkparents, bind.
    destruct (mkparents_rec _ dst _) as [[v|s|] w2] eqn:Er;
      apply mkparents_rec_plan in Er as [Hp2 Hs2]; simpl in Hp2, Hs2;
      try (intros [= _ <-]; split; congruence).
    destruct (v =? -1); intros [= _ <-]; simpl; split; congruence.
  - intros [= _ <-]. simpl. auto.
Qed.

(** In copy mode a run that returns 0, on a source that is a regular
    file with content [data] and a temporary path that was absent ([old]
    empty) or a regular file with content [old]: the destination is a
    regular file whose mode and owner are what chmod and lchown leave.
    Where no write is cut short, it holds the first [k] bytes of [data]
    and then what [old] had beyond them, where [k] is the length of
    [data] if no read failed. *)
Lemma copy_install_spec c src dst w0 w' tmp w1 ms data old :
  install c src dst w0 = (Ret 0, w') ->
  prelude c dst w0 = (Ret tmp, w1) ->
  symbolic c = false ->
  stat_of (w_fs w1) src = inr (Reg ms data) ->
  (lstat_of (w_fs w1) tmp = inl ENOENT /\ old = []
   \/ exists mt, lstat_of (w_fs w1) tmp = inr (Reg mt old) /\ data <> old) ->
  exists mt content,
    lstat_of (w_fs w') dst
      = inr (Reg {| st_mode := kill_suid (Z.land (mode c) o07777);
                    st_uid := (if owner c =? UNCHANGED then st_uid mt
                               else owner c);
                    st_gid := (if group c =? UNCHANGED then st_gid mt
                               else group c) |}
               content) /\
    (whole_writes w1 ->
     exists k,
       (k <= length data)%nat /\
       content = take k data ++ drop k old /\
       (0 < w_blksize w1 -> reads_ok (w_log w') -> k = length data)) /\
    lstat_of (w_fs w') tmp = inl ENOENT.
Proof.
  intros Hrun Hpre Hsym Hsrc Htmp.
  apply install_inv in Hrun as (tmp' & w1' & w2 & Hpre' & Hst & Hfin).
  rewrite Hpre in Hpre'. injection Hpre' as <- <-.
  apply prelude_ret in Hpre as [-> _].
  unfold stage in Hst. rewrite Hsym in Hst.
  apply stat_of_inr in Hsrc as (ks & Hres & Hks).
  (* the temporary path can be located: the copy branch opened it *)
  assert (Hloc : locate (w_fs w1) (dst +:+ ".tmp")
                 = inr (path_key (dst +:+ ".tmp"))).
  { destruct Htmp as [[H _]|(mt & H & _)]; unfold lstat_of in H;
      destruct (locate (w_fs w1) (dst +:+ ".tmp")) as [e|k] eqn:E.
    - exfalso. clear H.
      unfold stage_copy, bind, clear_errno, call in Hst.
      destruct (lstat src (set_errno None w1)) as [[e1|n] wl] eqn:El;
        [destruct e1; discriminate|].
      apply lstat_ok in El as [_ ->].
      assert (Hc : copy_file src (dst +:+ ".tmp")
                (add_log {| ev_call := CLstat src; ev_err := None |}
                   (set_errno None w1)) = (Ret tt, w2))
        by (destruct n; try discriminate; exact Hst).
      unfold copy_file, bind, clear_errno, call in Hc.
      destruct (open_file src O_RDONLY _) as [[[e2|sfd]|s|] wo] eqn:Eo;
        try discriminate.
      apply open_file_ret in Eo as [Eo _].
      apply open_ok in Eo as (k2 & _ & _ & _ & _ & _ & Hcase).
      assert (Hfs : w_fs wo = w_fs w1).
      { destruct Hcase as [(_ & mode & Hf & _)|(n2 & _ & _ & Hfs)];
          [discriminate|exact Hfs]. }
      destruct (open_file (dst +:+ ".tmp") _ _) as [[[e3|tfd]|s|] wt] eqn:Et;
        try discriminate.
      apply open_file_ret in Et as [Et _].
      apply open_ok in Et as (k3 & Hr3 & _). simpl in Hr3.
      rewrite Hfs in Hr3. unfold resolve in Hr3. rewrite E in Hr3.
      discriminate.
    - apply locate_inr in E as (-> & _). reflexivity.
    - discriminate.
    - apply locate_inr in E as (-> & _). reflexivity. }
  assert (Hbefore :
    (lookup_node (w_fs w1) (path_key (dst +:+ ".tmp")) = None /\ old = []
     \/ exists mt, lookup_node (w_fs w1) (path_key (dst +:+ ".tmp"))
                   = Some (Reg mt old)) /\
    ks <> path_key (dst +:+ ".tmp")).
  { destruct Htmp as [[H ->]|(mt & H & Hd)]; unfold lstat_of in H;
      rewrite Hloc in H;
      destruct (lookup_node (w_fs w1) (path_key (dst +:+ ".tmp")))
        as [n|] eqn:En.
    - rewrite wants_dir_tmp in H. discriminate.
    - split; [left; auto|]. intros ->. congruence.
    - rewrite wants_dir_tmp in H. simpl in H.
      injection H as ->. split; [right; eauto|].
      intros ->. rewrite Hks in En. injection En as _ E. contradiction.
    - discriminate. }
  destruct Hbefore as [Hbefore Hne].
  destruct (stage_copy_spec src (dst +:+ ".tmp") w1 w2 ks ms data old)
    as (mt & content & Hstaged & Hwhole & _); auto.
  destruct (finish_spec c _ dst w2 _ _ _ Hfin Hstaged eq_refl (tmp_key_ne dst))
    as (_ & Hdst & Htmpgone & _).
  exists mt, content. split; [exact Hdst|]. split; [|exact Htmpgone].
  intros Hww. destruct (Hwhole Hww) as (k & Hk & Hc & Hall).
  exists k. split; [exact Hk|]. split; [exact Hc|].
  intros Hbs Hok. apply Hall; [exact Hbs|].
  eapply reads_ok_suffix; [eapply finish_log; exact Hfin|exact Hok].
Qed.





(** ** What a failure after staging leaves *)

Lemma only_refl S fs : only S fs fs.
Proof.
  split; [reflexivity|]. split; [eauto|]. intros k n' H1 H2. congruence.
Qed.

Lemma only_weaken (S S' : key -> Prop) fs fs' :
  (forall k, S k -> S' k) -> only S fs fs' -> only S' fs fs'.
Proof. intros H (H1 & H2 & H3). split; [|split]; auto. Qed.

Lemma only_trans S fs1 fs2 fs3 :
  only S fs1 fs2 -> only S fs2 fs3 -> only S fs1 fs3.
Proof.
  intros (A1 & A2 & A3) (B1 & B2 & B3). split; [|split].
  - intros k Hk. rewrite B1, A1 by exact Hk. reflexivity.
  - intros k n Hn. destruct (A2 _ _ Hn) as (n2 & Hn2 & Hk2).
    destruct (B2 _ _ Hn2) as (n3 & Hn3 & Hk3). exists n3. split; congruence.
  - intros k n' Hn Hn'.
    destruct (lookup_node fs2 k) as [n2|] eqn:E2.
    + destruct (B2 _ _ E2) as (n3 & Hn3 & Hk3).
      rewrite (A3 _ _ Hn E2) in Hk3. congruence.
    + eapply B3; eassumption.
Qed.

Lemma only_dirs S fs fs' p m :
  only S fs fs' -> lookup_node fs p = Some (Dir m) ->
  exists m', lookup_node fs' p = Some (Dir m').
Proof.
  intros (_ & H & _) Hp. destruct (H _ _ Hp) as (n' & Hn' & Hk).
  destruct n'; try discriminate. eauto.
Qed.

(** A node replaced by one of the same kind. *)
Lemma only_store fs k n n' :
  lookup_node fs k = Some n -> kind_of n' = kind_of n ->
  only (fun x => x = k) fs (store_node fs k n').
Proof.
  intros Hn Hk. unfold store_node.
  destruct (implicit k) eqn:Ei; [apply only_refl|].
  split; [|split].
  - intros x Hx. unfold lookup_node. destruct (implicit x); [reflexivity|].
    apply lookup_insert_ne. congruence.
  - intros x nx Hx. destruct (decide (x = k)) as [->|Hne].
    + exists n'. split; [|congruence].
      unfold lookup_node. rewrite Ei. apply lookup_insert_eq.
    + exists nx. split; [|reflexivity]. unfold lookup_node in *.
      destruct (implicit x); [exact Hx|].
      rewrite lookup_insert_ne by congruence. exact Hx.
  - intros x nx Hx Hx'. destruct (decide (x = k)) as [->|Hne]; [congruence|].
    unfold lookup_node in *. destruct (implicit x); [congruence|].
    rewrite lookup_insert_ne in Hx' by congruence. congruence.
Qed.

(** A file created at an absent key. *)
Lemma only_create (fs : gmap key node) k n' :
  lookup_node fs k = None -> kind_of n' = KFile ->
  only (fun x => x = k) fs (<[k := n']> fs).
Proof.
  intros Hn Hk. apply lookup_node_absent in Hn as [Hi Hn].
  split; [|split].
  - intros x Hx. unfold lookup_node. destruct (implicit x); [reflexivity|].
    apply lookup_insert_ne. congruence.
  - intros x nx Hx. exists nx. split; [|reflexivity].
    unfold lookup_node in *. destruct (implicit x); [exact Hx|].
    rewrite lookup_insert_ne by congruence. exact Hx.
  - intros x nx Hx Hx'. destruct (decide (x = k)) as [->|Hne].
    + unfold lookup_node in Hx'. rewrite Hi, lookup_insert_eq in Hx'.
      congruence.
    + unfold lookup_node in *. destruct (implicit x); [congruence|].
      rewrite lookup_insert_ne in Hx' by congruence. congruence.
Qed.


Lemma locate_stable S fs fs' p k :
  only S fs fs' -> locate fs p = inr k -> locate fs' p = inr k.
Proof.
  intros Ho H. apply locate_inr in H as (-> & Hw & Hp).
  apply locate_intro; [exact Hp|].
  exact (walk_mono fs fs' _ (fun p m => only_dirs _ _ _ p m Ho) _ Hw).
Qed.


Lemma resolve_locate fs p R :
  resolve fs p = inr R -> locate fs p = inr (path_key p).
Proof.
  unfold resolve. destruct (locate fs p) as [e|k] eqn:E; [discriminate|].
  apply locate_inr in E as (-> & _). reflexivity.
Qed.


Lemma copy_loop_only src_fd tmp_fd blksize R fuel : forall w o w' pt,
  copy_loop fuel src_fd tmp_fd blksize w = (o, w') ->
  src_fd <> tmp_fd -> w_fds w !! tmp_fd = Some (R, pt) ->
  only (fun x => x = R) (w_fs w) (w_fs w') /\ (forall s, o = Exit s -> s = 1).
Proof.
  induction fuel as [|fuel IH]; intros w o w' pt Hrun Hfd Ht.
  - injection Hrun as <- <-. split; [apply only_refl|discriminate].
  - simpl in Hrun. unfold bind, call in Hrun.
    destruct (read src_fd blksize w) as [[e|buf] w1] eqn:Er.
    + injection Hrun as <- <-. apply syscall_failed in Er. subst w1.
      split; [apply only_refl|discriminate].
    + apply read_ok in Er as (k & pos & Hs & Hfs1 & _ & _ & Hr).
      assert (Ht1 : w_fds w1 !! tmp_fd = Some (R, pt)).
      { destruct Hr as [(m & data & _ & _ & ->)|(m & _ & _ & ->)];
          [|exact Ht].
        rewrite list_lookup_insert_ne by exact Hfd. exact Ht. }
      destruct (0 <? length buf)%nat.
      * unfold clear_errno in Hrun.
        destruct (write tmp_fd buf (set_errno None w1)) as [[e|r] w3] eqn:Ew.
        -- unfold fatal_errno, bind, strerror_errno, fatal in Hrun.
           injection Hrun as <- <-. apply syscall_failed in Ew. subst w3.
           simpl. rewrite Hfs1.
           split; [apply only_refl|now intros s [= <-]].
        -- apply write_ok in Ew as (k' & pos' & Hk' & _ & _ & Hw).
           simpl in Hk', Hw. rewrite Ht1 in Hk'. injection Hk' as <- <-.
           rewrite Hfs1 in Hw.
           assert (Hstep : only (fun x => x = R) (w_fs w) (w_fs w3) /\
                           exists pt', w_fds w3 !! tmp_fd = Some (R, pt')).
           { destruct Hw as [(m & data & Hn & -> & ->)|(m & _ & -> & ->)].
             - split; [eapply only_store; [exact Hn|reflexivity]|].
               eexists. apply list_lookup_insert_eq.
               eapply lookup_lt_Some; exact Ht1.
             - split; [apply only_refl|eauto]. }
           destruct Hstep as [Ho3 [pt' Ht3]].
           destruct (IH _ _ _ _ Hrun Hfd Ht3) as [Ho' Hs'].
           split; [eapply only_trans; eassumption|exact Hs'].
      * injection Hrun as <- <-. rewrite Hfs1.
        split; [apply only_refl|discriminate].
Qed.

Lemma chmod_only path m w r w' :
  chmod path m w = (r, w') ->
  only (fun x => resolve (w_fs w) path = inr x) (w_fs w) (w_fs w').
Proof.
  destruct r as [e|[]]; intros H.
  - apply syscall_failed in H. subst w'. apply only_refl.
  - apply chmod_ok in H as (k & n & Hr & Hk & -> & _).
    eapply only_weaken; [|eapply only_store; [exact Hk|]].
    + now intros x ->.
    + now destruct n.
Qed.

Lemma lchown_only path u g w r w' :
  lchown path u g w = (r, w') ->
  only (fun x => x = path_key path) (w_fs w) (w_fs w').
Proof.
  destruct r as [e|[]]; intros H.
  - apply syscall_failed in H. subst w'. apply only_refl.
  - apply lchown_ok in H as (k & n & Hl & Hk & -> & _).
    apply locate_inr in Hl as (-> & _).
    eapply only_store; [exact Hk|]. now destruct n.
Qed.

(** The last part of main, when it exits: the status is 1 and only the
    temporary path and the file that the temporary path leads to have
    been touched. *)
Lemma finish_exit c tmp dst w s w' :
  finish c tmp dst w = (Exit s, w') ->
  s = 1 /\
  only (fun x => x = path_key tmp \/ resolve (w_fs w) tmp = inr x)
       (w_fs w) (w_fs w').
Proof.
  unfold finish, bind, clear_errno, call, fatal_errno, strerror_errno,
    fatal, ret.
  destruct (chmod _ _ _) as [r1 w1] eqn:E1.
  apply chmod_only in E1. simpl in E1.
  assert (O1 : only (fun x => x = path_key tmp \/ resolve (w_fs w) tmp = inr x)
                 (w_fs w) (w_fs w1))
    by (eapply only_weaken; [|exact E1]; auto).
  destruct r1 as [e|[]]; [intros [= <- <-]; auto|].
  destruct (lchown _ _ _ w1) as [r2 w2] eqn:E2.
  apply lchown_only in E2.
  assert (O2 : only (fun x => x = path_key tmp \/ resolve (w_fs w) tmp = inr x)
                 (w_fs w) (w_fs w2)).
  { eapply only_trans; [exact O1|]. eapply only_weaken; [|exact E2]. auto. }
  destruct r2 as [e|[]]; [intros [= <- <-]; auto|].
  destruct (rename _ _ w2) as [r3 w3] eqn:E3.
  destruct r3 as [e|[]]; [|discriminate].
  apply syscall_failed in E3. subst w3. intros [= <- <-]. auto.
Qed.

Lemma open_only path f w r w' :
  open path f w = (r, w') ->
  only (fun x => resolve (w_fs w) path = inr x) (w_fs w) (w_fs w').
Proof.
  destruct r as [e|fd]; intros H.
  - apply syscall_failed in H. subst w'. apply only_refl.
  - apply open_ok in H as (k & Hr & _ & _ & _ & _ & Hc).
    destruct Hc as [(Hn & mode & _ & ->)|(n & _ & _ & ->)];
      [|apply only_refl].
    eapply only_weaken; [|apply only_create; [exact Hn|reflexivity]].
    now intros x ->.
Qed.







(** ** The bounds of the loops are never reached *)

Lemma overwrite_same_length (data : list byte) pos buf :
  (pos + length buf <= length data)%nat ->
  length (overwrite data pos buf) = length data.
Proof.
  intros H. rewrite overwrite_inside by lia.
  rewrite !length_app, length_take, length_drop. lia.
Qed.

Lemma written_length w buf : (length (written w buf) <= length buf)%nat.
Proof. apply prefix_length, written_prefix. Qed.

(** The copy loop ends within one iteration more than the bytes left in
    the source, also when source and temporary file are the same file
    (the offset of the writes is then at most that of the reads, and
    each write stays within the file). *)
Lemma copy_loop_total src_fd tmp_fd blksize fuel : forall w ks ps kt pt,
  src_fd <> tmp_fd ->
  w_fds w !! src_fd = Some (ks, ps) ->
  w_fds w !! tmp_fd = Some (kt, pt) ->
  (ks = kt -> (pt <= ps)%nat) ->
  (size_at (w_fs w) ks - ps < fuel)%nat ->
  fst (copy_loop fuel src_fd tmp_fd blksize w) <> Hang.
Proof.
  induction fuel as [|fuel IH]; intros w ks ps kt pt Hfd Hs Ht Hal Hsz; [lia|].
  simpl. unfold bind, call.
  destruct (read src_fd blksize w) as [[e|buf] w1] eqn:Er; [discriminate|].
  apply read_ok in Er as (k & pos & Hfdk & Hfs1 & _ & _ & Hr).
  rewrite Hs in Hfdk. injection Hfdk as <- <-.
  destruct (0 <? length buf)%nat eqn:Elen; [|discriminate].
  apply Nat.ltb_lt in Elen.
  destruct Hr as [(ms & ds & Hns & Hbuf & Hfds1)|(m & _ & -> & _)];
    [|simpl in Elen; lia].
  assert (Hlen : (ps + length buf <= length ds)%nat).
  { pose proof Elen as Hpos. rewrite Hbuf, length_take, length_drop in Hpos.
    rewrite Hbuf, length_take, length_drop. lia. }
  unfold clear_errno.
  destruct (write tmp_fd buf (set_errno None w1)) as [[e|r] w3] eqn:Ew;
    [discriminate|].
  apply write_ok in Ew as (k & pos & Hfdk & _ & _ & Hw).
  pose proof (written_length (set_errno None w1) buf) as Hpart.
  set (part := written (set_errno None w1) buf) in *.
  simpl in Hfdk, Hw. rewrite Hfds1 in Hfdk.
  rewrite list_lookup_insert_ne in Hfdk by exact Hfd.
  rewrite Ht in Hfdk. injection Hfdk as <- <-. rewrite Hfs1 in Hw.
  assert (Hsz0 : size_at (w_fs w) ks = length ds)
    by (unfold size_at; now rewrite Hns).
  assert (Hs1 : w_fds w1 !! src_fd = Some (ks, (ps + length buf)%nat)).
  { rewrite Hfds1. apply list_lookup_insert_eq.
    eapply lookup_lt_Some; exact Hs. }
  destruct Hw as [(mt & dt & Hnt & Hfs3 & Hfds3)|(m & Hnt & Hfs3 & Hfds3)].
  - apply (IH w3 ks (ps + length buf)%nat kt (pt + length part)%nat Hfd).
    + rewrite Hfds3, list_lookup_insert_ne by congruence. exact Hs1.
    + rewrite Hfds3. apply list_lookup_insert_eq.
      rewrite Hfds1, length_insert. eapply lookup_lt_Some; exact Ht.
    + intros E. specialize (Hal E). lia.
    + assert (size_at (w_fs w3) ks = length ds); [|lia].
      unfold size_at. rewrite Hfs3.
      destruct (lookup_node_present _ _ _ Hnt eq_refl) as [Hit _].
      unfold store_node. rewrite Hit.
      destruct (decide (ks = kt)) as [E|E].
      * subst kt. rewrite Hns in Hnt. injection Hnt as <- <-.
        unfold lookup_node. rewrite Hit, lookup_insert_eq.
        specialize (Hal eq_refl). apply overwrite_same_length. lia.
      * unfold lookup_node in Hns |- *.
        destruct (implicit ks); [discriminate|].
        rewrite lookup_insert_ne by congruence. now rewrite Hns.
  - apply (IH w3 ks (ps + length buf)%nat kt pt Hfd).
    + rewrite Hfds3. exact Hs1.
    + rewrite Hfds3, Hfds1, list_lookup_insert_ne by exact Hfd. exact Ht.
    + intros E. subst kt. congruence.
    + rewrite Hfs3. lia.
Qed.

(** The copy comes to an end unless it opens a special file that is
    stuck. *)
Lemma copy_file_total src tmp w :
  w_stuck w = ∅ -> fst (copy_file src tmp w) <> Hang.
Proof.
  intros Hstuck.
  assert (Hns : forall fd w', w_stuck w' = ∅ -> stuck_fd fd w' = false).
  { intros fd w' Hw. unfold stuck_fd. rewrite Hw.
    destruct (w_fds w' !! fd) as [[k pos]|]; [|reflexivity].
    destruct (lookup_node (w_fs w') k) as [[| | |]|]; reflexivity. }
  unfold copy_file, bind, clear_errno, call.
  destruct (open_file src O_RDONLY _) as [o2 w2] eqn:E2.
  apply open_file_inv in E2 as (r2 & E2 & Ho2).
  pose proof (proj2 (open_plan _ _ _ _ _ E2)) as Hst2. simpl in Hst2.
  destruct Ho2 as [-> |(_ & fd & _ & Hfd)];
    [|rewrite Hns in Hfd by congruence; discriminate].
  destruct r2 as [e|src_fd]; [discriminate|].
  apply open_ok in E2 as (ks & _ & Hfd2 & Hfds2 & _).
  destruct (open_file tmp _ _) as [o3 w3] eqn:E3.
  apply open_file_inv in E3 as (r3 & E3 & Ho3).
  pose proof (proj2 (open_plan _ _ _ _ _ E3)) as Hst3. simpl in Hst3.
  destruct Ho3 as [-> |(_ & fd & _ & Hfd)];
    [|rewrite Hns in Hfd by congruence; discriminate].
  destruct r3 as [e|tmp_fd]; [discriminate|].
  apply open_ok in E3 as (kt & _ & Hfd3 & Hfds3 & _).
  simpl in Hfd2, Hfds2, Hfd3, Hfds3.
  unfold bind, call.
  destruct (malloc (w_blksize w3) w3) as [[] w4] eqn:E4; [|discriminate].
  apply malloc_ok in E4. cbn [negb].
  assert (Hs : w_fds w3 !! src_fd = Some (ks, O)).
  { rewrite Hfds3, Hfds2, Hfd2.
    rewrite lookup_app_l by (rewrite length_app; simpl; lia).
    rewrite lookup_app_r by lia. now rewrite Nat.sub_diag. }
  apply (copy_loop_total _ _ _ _ w4 ks O kt O).
  - rewrite Hfd2, Hfd3, Hfds2, length_app. simpl. lia.
  - subst w4. exact Hs.
  - subst w4. simpl. rewrite Hfds3, Hfd3.
    rewrite lookup_app_r by lia. now rewrite Nat.sub_diag.
  - reflexivity.
  - subst w4. simpl. unfold file_size, size_at. rewrite Hs.
    destruct (lookup_node (w_fs w3) ks) as [[]|]; lia.
Qed.

Lemma finish_total c tmp dst w : fst (finish c tmp dst w) <> Hang.
Proof.
  unfold finish, bind, clear_errno, call.
  destruct (chmod _ _ _) as [[e|[]] w1]; [discriminate|].
  destruct (lchown _ _ _ w1) as [[e|[]] w2]; [discriminate|].
  destruct (rename _ _ w2) as [[e|[]] w3]; discriminate.
Qed.

Lemma finish_returns_0 c tmp dst w r w' :
  finish c tmp dst w = (Ret r, w') -> r = 0.
Proof.
  unfold finish, bind, clear_errno, call.
  destruct (chmod _ _ _) as [[e|[]] w1]; [discriminate|].
  destruct (lchown _ _ _ w1) as [[e|[]] w2]; [discriminate|].
  destruct (rename _ _ w2) as [[e|[]] w3]; [discriminate|].
  now intros [= <- _].
Qed.

Lemma stage_total c src tmp w :
  w_stuck w = ∅ -> fst (stage c src tmp w) <> Hang.
Proof.
  intros Hstuck. unfold stage. destruct (symbolic c).
  - unfold stage_link, bind, clear_errno, call.
    destruct (symlink _ _ _) as [[e|[]] w1]; discriminate.
  - unfold stage_copy, bind, clear_errno, call.
    destruct (lstat _ _) as [[e|n] w1] eqn:El.
    + destruct e; discriminate.
    + apply lstat_plan in El as [_ Hs1]. simpl in Hs1.
      destruct n; try discriminate; apply copy_file_total; congruence.
Qed.

Lemma prelude_total c dst w : fst (prelude c dst w) <> Hang.
Proof.
  unfold prelude. destruct (o07777 <? mode c); [discriminate|].
  unfold bind, call, clear_errno.
  destruct (malloc _ w) as [[] w1]; [|discriminate]. cbn [negb].
  destruct (mkdirp c); simpl.
  - destruct (mkparents_rec_spec (S (String.length dst)) dst
                (set_errno None w1)) as (r & w2 & E & _); [lia|].
    unfold mkparents. rewrite E. destruct (r =? -1); discriminate.
  - discriminate.
Qed.

Lemma copy_loop_exit src_fd tmp_fd blksize fuel : forall w s w',
  copy_loop fuel src_fd tmp_fd blksize w = (Exit s, w') -> s = 1.
Proof.
  induction fuel as [|fuel IH]; intros w s w'; [discriminate|].
  simpl. unfold bind, call, clear_errno.
  destruct (read src_fd blksize w) as [[e|buf] w1]; [discriminate|].
  destruct (0 <? length buf)%nat; [|discriminate].
  destruct (write tmp_fd buf _) as [[e|r] w3].
  - unfold fatal_errno, bind, strerror_errno, fatal. congruence.
  - apply IH.
Qed.

Lemma copy_file_exit src tmp w s w' :
  copy_file src tmp w = (Exit s, w') -> s = 1.
Proof.
  unfold copy_file, fatal_path_errno, strerror_errno, fatal, clear_errno,
    call, bind.
  destruct (open_file src O_RDONLY _) as [[[e|src_fd]|s2|] w2] eqn:E2;
    [congruence| |apply open_file_inv in E2 as (? & _ & [?|[? _]]); discriminate
    |discriminate].
  destruct (open_file tmp _ _) as [[[e|tmp_fd]|s3|] w3] eqn:E3;
    [congruence| |apply open_file_inv in E3 as (? & _ & [?|[? _]]); discriminate
    |discriminate].
  destruct (malloc _ w3) as [[] w4]; cbn [negb]; [|congruence].
  apply copy_loop_exit.
Qed.

Lemma stage_exit c src tmp w s w' :
  stage c src tmp w = (Exit s, w') -> s = 1.
Proof.
  unfold stage. destruct (symbolic c).
  - unfold stage_link, fatal_errno, strerror_errno, fatal, clear_errno, call,
      ret, bind.
    destruct (symlink _ _ _) as [[e|[]] w1]; congruence.
  - unfold stage_copy, clear_errno, call, bind.
    destruct (lstat _ _) as [[e|n] w1].
    + unfold fatal_errno, strerror_errno, fatal, bind. destruct e; congruence.
    + destruct n; unfold fatal; try congruence; apply copy_file_exit.
Qed.

Lemma prelude_exit c dst w s w' :
  prelude c dst w = (Exit s, w') -> s = 1.
Proof.
  unfold prelude, fatal. destruct (o07777 <? mode c); [congruence|].
  unfold bind, call, clear_errno.
  destruct (malloc _ w) as [[] w1]; [|simpl; congruence]. cbn [negb].
  destruct (mkdirp c); simpl.
  - destruct (mkparents_rec_spec (S (String.length dst)) dst
                (set_errno None w1)) as (r & w2 & E & _); [lia|].
    unfold mkparents. rewrite E.
    unfold fatal_path_errno, strerror_errno, fatal, ret, bind.
    destruct (r =? -1); congruence.
  - discriminate.
Qed.

(** Where no special file is stuck, what main does after the options
    runs to its end: it returns 0 or exits with status 1. *)
Lemma install_total c src dst w :
  w_stuck w = ∅ ->
  fst (install c src dst w) = Ret 0 \/ fst (install c src dst w) = Exit 1.
Proof.
  intros Hstuck. unfold install, bind.
  pose proof (prelude_total c dst w) as Hp.
  destruct (prelude c dst w) as [[tmp|s|] w1] eqn:Ep; [| |now destruct Hp].
  - pose proof (proj2 (prelude_plan _ _ _ _ _ Ep)) as Hs1.
    rewrite Hstuck in Hs1.
    pose proof (stage_total c src tmp w1 Hs1) as Hs.
    destruct (stage c src tmp w1) as [[[]|s|] w2] eqn:Es; [| |now destruct Hs].
    + pose proof (finish_total c tmp dst w2) as Hf.
      destruct (finish c tmp dst w2) as [[r|s|] w3] eqn:Ef;
        [| |now destruct Hf].
      * left. apply finish_returns_0 in Ef. now subst r.
      * right. simpl. apply finish_exit in Ef as [-> _]. reflexivity.
    + right. simpl. apply stage_exit in Es. now subst s.
  - right. simpl. apply prelude_exit in Ep. now subst s.
Qed.

Lemma parse_id_halts lookup kind optarg w :
  halts (fst (parse_id lookup kind optarg w)).
Proof.
  unfold parse_id, bind, call, fatal, ret.
  destruct (_ || _).
  - destruct (lookup optarg w) as [[id|] w1]; simpl; auto.
  - destruct (errno_set _); simpl; auto.
Qed.

Lemma parse_mode_halts optarg w : halts (fst (parse_mode optarg w)).
Proof. unfold parse_mode, fatal, ret. destruct (_ || _); simpl; auto. Qed.

Lemma bind_ret_halts {A B} (m : prog A) (f : A -> B) w :
  halts (fst (m w)) -> halts (fst (bind m (fun x => ret (f x)) w)).
Proof. unfold bind, ret. destruct (m w) as [[x|s|] w1]; simpl; auto. Qed.

Lemma handle_opt_halts argv0 ev c w : halts (fst (handle_opt argv0 ev c w)).
Proof.
  destruct ev as [ch optarg| |]; [|simpl; auto|simpl; auto].
  destruct ch as [[] [] [] [] [] [] [] []]; destruct optarg; simpl; auto;
    apply bind_ret_halts;
    first [apply parse_id_halts | apply parse_mode_halts].
Qed.

Lemma opt_loop_halts argv0 evs : forall c w,
  halts (fst (opt_loop argv0 evs c w)).
Proof.
  induction evs as [|ev evs IH]; intros c w; simpl; [exact I|].
  unfold bind. pose proof (handle_opt_halts argv0 ev c w) as H.
  destruct (handle_opt argv0 ev c w) as [[c'|s|] w1]; simpl in *; auto.
Qed.

(** main comes to its end on every command line, in every world where
    no special file is stuck: it returns 0, or exits with status 0 (the
    help) or 1 (fatal). *)
Lemma main_total argv w :
  w_stuck w = ∅ ->
  fst (main argv w) = Ret 0 \/ fst (main argv w) = Exit 0 \/
  fst (main argv w) = Exit 1.
Proof.
  intros Hstuck. unfold main, bind.
  destruct (parse_args argv w) as [o w0] eqn:Ep.
  pose proof (parse_args_stuck _ _ _ _ Ep) as Hs0. rewrite Hstuck in Hs0.
  assert (Ho : halts o).
  { unfold parse_args in Ep. destruct (getopt_run _ _) as [evs pos].
    unfold bind in Ep. pose proof (opt_loop_halts (hd "" argv) evs
                                     (initial_config w) w) as H.
    destruct (opt_loop _ evs _ w) as [[c|s|] w1]; simpl in H.
    - destruct pos as [|a [|b [|? ?]]]; injection Ep as <- _; simpl; auto.
    - injection Ep as <- _. exact H.
    - contradiction. }
  destruct o as [[[c src] dst]|s|]; simpl in Ho.
  - destruct (install_total c src dst w0 Hs0); auto.
  - simpl. destruct Ho as [-> | ->]; auto.
  - contradiction.
Qed.

(** * Further properties of the code *)

(** ** What main writes, and the status it ends with *)

Lemma syscall_streams {A} c (body : world -> errno + (A * world)) w r w' :
  (forall w a w1, body w = inr (a, w1) -> streams w1 = streams w) ->
  syscall c body w = (r, w') -> streams w' = streams w.
Proof.
  intros Hb. destruct (syscall_cases c body w) as [(? & _ & ->)|[_ ->]];
    [now intros [= _ <-]|].
  destruct (body w) as [e|[a w1]] eqn:E; intros [= _ <-]; [reflexivity|].
  apply Hb in E. exact E.
Qed.

Lemma malloc_streams size w r w' :
  malloc size w = (r, w') -> streams w' = streams w.
Proof.
  unfold malloc. destruct (syscall _ _ w) as [[e|[]] w1] eqn:E;
    intros [= _ <-]; (eapply syscall_streams; [|exact E]); streams_of_body.
Qed.

Lemma mkdir_streams path m w r w' :
  mkdir path m w = (r, w') -> streams w' = streams w.
Proof. apply syscall_streams. streams_of_body. Qed.

Lemma symlink_streams t path w r w' :
  symlink t path w = (r, w') -> streams w' = streams w.
Proof. apply syscall_streams. streams_of_body. Qed.

Lemma lstat_streams path w r w' :
  lstat path w = (r, w') -> streams w' = streams w.
Proof. apply syscall_streams. streams_of_body. Qed.

Lemma open_streams path f w r w' :
  open path f w = (r, w') -> streams w' = streams w.
Proof. apply syscall_streams. streams_of_body. Qed.

Lemma read_streams fd n w r w' :
  read fd n w = (r, w') -> streams w' = streams w.
Proof. apply syscall_streams. streams_of_body. Qed.

Lemma write_streams fd buf w r w' :
  write fd buf w = (r, w') -> streams w' = streams w.
Proof. apply syscall_streams. streams_of_body. Qed.

Lemma chmod_streams path m w r w' :
  chmod path m w = (r, w') -> streams w' = streams w.
Proof. apply syscall_streams. streams_of_body. Qed.

Lemma lchown_streams path u g w r w' :
  lchown path u g w = (r, w') -> streams w' = streams w.
Proof. apply syscall_streams. streams_of_body. Qed.

Lemma rename_streams old new w r w' :
  rename old new w = (r, w') -> streams w' = streams w.
Proof. apply syscall_streams. streams_of_body. Qed.

Lemma getgrnam_streams name w r w' :
  getgrnam name w = (r, w') -> streams w' = streams w.
Proof.
  unfold getgrnam. destruct (syscall _ _ w) as [[e|g] w1] eqn:E;
    intros [= _ <-]; (eapply syscall_streams; [|exact E]); streams_of_body.
Qed.

Lemma getpwnam_streams name w r w' :
  getpwnam name w = (r, w') -> streams w' = streams w.
Proof.
  unfold getpwnam. destruct (syscall _ _ w) as [[e|g] w1] eqn:E;
    intros [= _ <-]; (eapply syscall_streams; [|exact E]); streams_of_body.
Qed.

Lemma speaks_from {A} argv0 w w1 (r : outcome A * world) :
  streams w1 = streams w -> speaks_as argv0 w1 r -> speaks_as argv0 w r.
Proof.
  unfold speaks_as, streams. intros [= Ho He]. rewrite Ho, He. exact id.
Qed.

Lemma bind_speaks {A B} argv0 (m : prog A) (f : A -> prog B) w :
  speaks_as argv0 w (m w) ->
  (forall a w1, m w = (Ret a, w1) -> speaks_as argv0 w1 (f a w1)) ->
  speaks_as argv0 w (bind m f w).
Proof.
  intros Hm Hf. unfold bind. destruct (m w) as [[a|s|] w1] eqn:E.
  - eapply speaks_from; [exact Hm|]. apply Hf. reflexivity.
  - exact Hm.
  - exact I.
Qed.

Lemma call_speaks {A} argv0 (f : world -> A * world) :
  (forall w r w', f w = (r, w') -> streams w' = streams w) ->
  forall w, speaks_as argv0 w (call f w).
Proof.
  intros Hf w. unfold call, speaks_as. destruct (f w) as [r w'] eqn:E.
  simpl. eapply Hf. exact E.
Qed.

Lemma ret_speaks {A} argv0 (a : A) w : speaks_as argv0 w (ret a w).
Proof. reflexivity. Qed.

Lemma fatal_speaks {A} argv0 msg w : speaks_as argv0 w (@fatal A msg w).
Proof. right. simpl. eauto. Qed.

Lemma help_speaks {A} argv0 w : speaks_as argv0 w (@help A argv0 w).
Proof. left. simpl. auto. Qed.

Lemma clear_errno_speaks argv0 w : speaks_as argv0 w (clear_errno w).
Proof. reflexivity. Qed.

Lemma strerror_errno_speaks argv0 w : speaks_as argv0 w (strerror_errno w).
Proof. reflexivity. Qed.

Lemma open_file_speaks argv0 path f w :
  speaks_as argv0 w (open_file path f w).
Proof.
  unfold open_file. apply bind_speaks;
    [apply call_speaks; intros ? ? ?; apply open_streams|].
  intros [e|fd] w1 _; unfold speaks_as; simpl; [reflexivity|].
  destruct (stuck_fd fd w1); [exact I|reflexivity].
Qed.

Ltac speak :=
  repeat first
    [ apply ret_speaks | apply fatal_speaks | apply help_speaks
    | apply clear_errno_speaks | apply strerror_errno_speaks
    | apply open_file_speaks
    | apply call_speaks; intros ? ? ?;
      first [ apply malloc_streams | apply mkdir_streams
            | apply symlink_streams | apply lstat_streams
            | apply open_streams | apply read_streams | apply write_streams
            | apply chmod_streams | apply lchown_streams
            | apply rename_streams | apply getgrnam_streams
            | apply getpwnam_streams ]
    | apply bind_speaks; [|intros ? ? _]
    | progress cbv beta zeta
    | match goal with
      | |- speaks_as _ _ (match ?x with _ => _ end _) => destruct x
      | |- speaks_as _ _ ((if ?x then _ else _) _) => destruct x
      end ].

Lemma mkparents_rec_speaks argv0 fuel : forall path w,
  speaks_as argv0 w (mkparents_rec fuel path w).
Proof.
  induction fuel as [|fuel IH]; intros path w; [exact I|].
  cbn [mkparents_rec]. speak. apply IH.
Qed.

Lemma parse_id_speaks argv0 lookup kind optarg w :
  (forall w r w', lookup optarg w = (r, w') -> streams w' = streams w) ->
  speaks_as argv0 w (parse_id lookup kind optarg w).
Proof.
  intros Hl. unfold parse_id. cbv beta zeta.
  destruct (_ || _).
  - apply bind_speaks; [apply call_speaks; exact Hl|]. intros [id|] w1 _; speak.
  - speak.
Qed.

Lemma parse_mode_speaks argv0 optarg w :
  speaks_as argv0 w (parse_mode optarg w).
Proof. unfold parse_mode. speak. Qed.

Lemma handle_opt_speaks argv0 ev c w :
  speaks_as argv0 w (handle_opt argv0 ev c w).
Proof.
  destruct ev as [ch optarg| |]; [|apply fatal_speaks|apply fatal_speaks].
  destruct ch as [[] [] [] [] [] [] [] []]; destruct optarg; simpl;
    first [ apply fatal_speaks | apply ret_speaks | apply help_speaks
          | apply bind_speaks;
            [first [ apply parse_mode_speaks
                   | apply parse_id_speaks; intros ? ? ?;
                     first [apply getgrnam_streams | apply getpwnam_streams] ]
            | intros ? ? _; apply ret_speaks ] ].
Qed.

Lemma opt_loop_speaks argv0 evs : forall c w,
  speaks_as argv0 w (opt_loop argv0 evs c w).
Proof.
  induction evs as [|ev evs IH]; intros c w; cbn [opt_loop]; [apply ret_speaks|].
  apply bind_speaks; [apply handle_opt_speaks|]. intros c' w1 _. apply IH.
Qed.

Lemma copy_loop_speaks argv0 src_fd tmp_fd blksize fuel : forall w,
  speaks_as argv0 w (copy_loop fuel src_fd tmp_fd blksize w).
Proof.
  induction fuel as [|fuel IH]; intros w; [exact I|].
  cbn [copy_loop]. unfold fatal_errno. speak. apply IH.
Qed.

Lemma install_speaks argv0 c src dst w :
  speaks_as argv0 w (install c src dst w).
Proof.
  unfold install, prelude, stage, stage_link, stage_copy, copy_file, finish,
    fatal_errno, fatal_path_errno, mkparents.
  speak; first [apply mkparents_rec_speaks | apply copy_loop_speaks].
Qed.

Lemma main_speaks argv w : speaks_as (hd "" argv) w (main argv w).
Proof.
  unfold main. apply bind_speaks.
  - unfold parse_args. destruct (getopt_run _ _) as [evs pos].
    apply bind_speaks; [apply opt_loop_speaks|]. intros c w1 _.
    destruct pos as [|a [|b [|? ?]]]; speak.
  - intros [[c src] dst] w1 _. apply install_speaks.
Qed.

(** X1: on every command line, in every world where no special file is
    stuck (no fifo, terminal or device on which a read or a write never
    comes to an end), main ends in one of three ways. It returns 0
    having written nothing to either stream; or it exits with status 0
    having appended the usage text, with argv[0] in it, to standard
    output and nothing to standard error (the -h option); or it exits
    with status 1 having appended one report, "fatal: " followed by a
    message and a newline, to standard error and nothing to standard
    output. *)
Theorem main_outcomes argv w :
  w_stuck w = ∅ ->
  (fst (main argv w) = Ret 0 /\
   w_out (snd (main argv w)) = w_out w /\
   w_err (snd (main argv w)) = w_err w) \/
  (fst (main argv w) = Exit 0 /\
   w_out (snd (main argv w)) = w_out w +:+ install_help (hd "" argv) /\
   w_err (snd (main argv w)) = w_err w) \/
  (fst (main argv w) = Exit 1 /\
   w_out (snd (main argv w)) = w_out w /\
   exists msg, w_err (snd (main argv w)) = w_err w +:+ fatal_line msg).
Proof.
  intros Hstuck.
  pose proof (main_speaks argv w) as H. unfold speaks_as, streams in H.
  destruct (main_total argv w Hstuck) as [E|[E|E]]; rewrite E in H |- *.
  - left. injection H as Ho He. auto.
  - right. left. destruct H as [(_ & Ho & He)|(Hs & _)]; [auto|discriminate].
  - right. right. destruct H as [(Hs & _)|(_ & Ho & He)]; [discriminate|auto].
Qed.

Lemma main_outcomes_witness :
  let argv := ["install"; "-m"; "999"; "src.txt"; "dst.txt"] in
  let w := Scenario.world_of 1000 (Scenario.fs_src 1000) ∅ in
  fst (main argv w) = Exit 1 /\
  w_out (snd (main argv w)) = "" /\
  exists msg, w_err (snd (main argv w)) = fatal_line msg.
Proof.
  intros argv w.
  assert (Hs : w_stuck w = ∅) by reflexivity.
  assert (H0 : fst (main argv w) <> Ret 0) by (vm_compute; discriminate).
  assert (H1 : fst (main argv w) <> Exit 0) by (vm_compute; discriminate).
  destruct (main_outcomes argv w Hs) as [[E _]|[[E _]|H]];
    [contradiction|contradiction|exact H].
Defined.

(** ** What mkparents leaves in the file system *)

Lemma syscall_process {A} c (body : world -> errno + (A * world)) w r w' :
  (forall w a w1, body w = inr (a, w1) -> process_of w1 = process_of w) ->
  syscall c body w = (r, w') -> process_of w' = process_of w.
Proof.
  intros Hb. destruct (syscall_cases c body w) as [(? & _ & ->)|[_ ->]];
    [now intros [= _ <-]|].
  destruct (body w) as [e|[a w1]] eqn:E; intros [= _ <-]; [reflexivity|].
  apply Hb in E. exact E.
Qed.

Lemma malloc_process size w r w' :
  malloc size w = (r, w') -> process_of w' = process_of w.
Proof.
  unfold malloc. destruct (syscall _ _ w) as [[e|[]] w1] eqn:E;
    intros [= _ <-]; (eapply syscall_process; [|exact E]); streams_of_body.
Qed.

Lemma mkdir_process path m w r w' :
  mkdir path m w = (r, w') -> process_of w' = process_of w.
Proof. apply syscall_process. streams_of_body. Qed.

Lemma new_stat_process mode w w' :
  process_of w' = process_of w -> new_stat mode w' = new_stat mode w.
Proof. unfold process_of, new_stat. now intros [= -> -> ->]. Qed.

Lemma lookup_node_insert (fs : gmap key node) k n k' :
  implicit k = false ->
  lookup_node (<[k := n]> fs) k'
  = if decide (k' = k) then Some n else lookup_node fs k'.
Proof.
  intros Hk. unfold lookup_node. destruct (decide (k' = k)) as [->|Hne].
  - rewrite Hk. apply lookup_insert_eq.
  - destruct (implicit k'); [reflexivity|]. apply lookup_insert_ne. congruence.
Qed.

(** What mkdir has done when it returns: nothing if it failed, else it
    has put a new directory where there was nothing. *)
Lemma mkdir_result path mode w r w' :
  mkdir path mode w = (r, w') ->
  w_fs w' = w_fs w \/
  (lookup_node (w_fs w) (path_key path) = None /\
   implicit (path_key path) = false /\
   w_fs w' = <[path_key path := Dir (new_stat (Z.land mode 1023) w)]> (w_fs w)).
Proof.
  destruct r as [e|[]]; intros H.
  - apply syscall_failed in H. subst w'. now left.
  - apply syscall_ok in H as (w1 & Hb & ->).
    destruct (locate (w_fs w) path) as [e|k] eqn:El; [discriminate|].
    apply locate_inr in El as (-> & _ & _).
    destruct (lookup_node (w_fs w) (path_key path)) eqn:Ek; [discriminate|].
    injection Hb as <-. right. split; [reflexivity|].
    split; [|reflexivity]. now apply lookup_node_absent in Ek.
Qed.

Lemma mkparents_rec_adds fuel : forall path w r w',
  mkparents_rec fuel path w = (Ret r, w') ->
  process_of w' = process_of w /\
  (forall k n, lookup_node (w_fs w) k = Some n ->
               lookup_node (w_fs w') k = Some n) /\
  (forall k n, lookup_node (w_fs w) k = None ->
               lookup_node (w_fs w') k = Some n ->
               n = Dir (new_stat o0777 w) /\
               exists d, In d (parents path) /\ k = path_key d).
Proof.
  induction fuel as [|fuel IH]; intros path w r w'; [discriminate|].
  cbn [mkparents_rec].
  destruct (scan_back path (String.length path)) as [|l] eqn:El;
    cbn [Nat.eqb].
  - intros [= _ <-]. split; [reflexivity|]. split; [auto|]. congruence.
  - unfold bind, call.
    destruct (malloc _ w) as [ok w1] eqn:Em.
    pose proof (malloc_fs _ _ _ _ Em) as Hfs1.
    pose proof (malloc_process _ _ _ _ Em) as Hp1.
    destruct ok; cbn [negb].
    + destruct (mkparents_rec fuel _ w1) as [[r1|s|] w2] eqn:Er;
        [|discriminate|discriminate].
      destruct (IH _ _ _ _ Er) as (Hp2 & Hkeep & Hnew).
      rewrite Hfs1 in Hkeep, Hnew.
      rewrite (new_stat_process _ _ _ Hp1) in Hnew.
      assert (Hsub : forall k, (exists d,
                In d (parents (String.substring 0 (S l) path)) /\
                k = path_key d) ->
              exists d, In d (parents path) /\ k = path_key d).
      { intros k (d & Hd & ->). exists d. split; [|reflexivity].
        rewrite (parents_step _ _ El). apply in_or_app. now left. }
      destruct (r1 =? -1).
      * intros [= _ <-]. split; [congruence|]. split; [exact Hkeep|].
        intros k n Hk Hn. destruct (Hnew k n Hk Hn) as [-> Hd]. auto.
      * destruct (mkdir _ _ w2) as [rm w3] eqn:Ek. intros [= _ <-].
        pose proof (mkdir_process _ _ _ _ _ Ek) as Hp3.
        split; [congruence|].
        destruct (mkdir_result _ _ _ _ _ Ek) as [Hfs3|(Hab & Hi & Hfs3)];
          rewrite Hfs3.
        -- split; [exact Hkeep|].
           intros k n Hk Hn. destruct (Hnew k n Hk Hn) as [-> Hd]. auto.
        -- split.
           ++ intros k n Hk. rewrite lookup_node_insert by exact Hi.
              destruct (decide _) as [->|_]; [|auto].
              apply Hkeep in Hk. congruence.
           ++ intros k n Hk. rewrite lookup_node_insert by exact Hi.
              destruct (decide _) as [->|_].
              ** intros [= <-]. split.
                 { f_equal. apply new_stat_process. congruence. }
                 exists (String.substring 0 (S l) path). split; [|reflexivity].
                 rewrite (parents_step _ _ El). apply in_or_app. right.
                 now left.
              ** intros Hn. destruct (Hnew k n Hk Hn) as [-> Hd]. auto.
    + intros [= _ <-]. split; [exact Hp1|]. rewrite Hfs1.
      split; [auto|]. congruence.
Qed.

(** X2: mkparents only adds directories. Whatever it returns, every
    file, directory or link that was there is still there, unchanged;
    and, for a path without ".." none of whose parent directories is a
    symbolic link, whatever is there that was not is a directory, at
    one of the parent directories of the path. *)
Theorem mkparents_adds_directories path w r w' :
  mkparents path w = (Ret r, w') ->
  (forall k n, lookup_node (w_fs w) k = Some n ->
               lookup_node (w_fs w') k = Some n) /\
  (plain_path (w_fs w) path ->
   forall k n, lookup_node (w_fs w) k = None ->
               lookup_node (w_fs w') k = Some n ->
               is_dir n = true /\
               exists d, In d (parents path) /\ k = path_key d).
Proof.
  intros H. apply mkparents_rec_adds in H as (_ & Hkeep & Hnew).
  split; [exact Hkeep|]. intros _ k n Hk Hn.
  destruct (Hnew k n Hk Hn) as [-> Hd]. split; [reflexivity|exact Hd].
Qed.

Lemma mkparents_adds_directories_witness :
  let w := Scenario.world_of 1000 (Scenario.fs_src 1000) ∅ in
  let w' := snd (mkparents "a/b/dst.txt" w) in
  lookup_node (w_fs w') ["src.txt"]
    = Some (Reg (Scenario.owned 1000 1000 420) (Scenario.bytes "hello world")) /\
  exists n, lookup_node (w_fs w') ["a"; "b"] = Some n /\ is_dir n = true.
Proof.
  intros w w'.
  assert (H : mkparents "a/b/dst.txt" w = (Ret 0, w'))
    by (vm_compute; reflexivity).
  destruct (mkparents_adds_directories "a/b/dst.txt" w 0 w' H) as [Hkeep Hnew].
  split.
  - apply Hkeep. vm_compute. reflexivity.
  - assert (Hp : plain_path (w_fs w) "a/b/dst.txt").
    { split; [reflexivity|]. intros d m t Hd.
      change (parents "a/b/dst.txt") with ["a"; "a/b"] in Hd.
      destruct Hd as [<-|[<-|[]]]; vm_compute; discriminate. }
    assert (Hb : lookup_node (w_fs w) ["a"; "b"] = None)
      by (vm_compute; reflexivity).
    destruct (lookup_node (w_fs w') ["a"; "b"]) as [n|] eqn:Ha;
      [|vm_compute in Ha; discriminate].
    destruct (Hnew Hp _ n Hb Ha) as [Hn _]. exists n.
    split; [reflexivity|exact Hn].
Defined.

(** ** What a copy leaves alone *)

Lemma copy_file_only src tmp w o w' :
  copy_file src tmp w = (o, w') ->
  only (fun x => resolve (w_fs w) tmp = inr x) (w_fs w) (w_fs w').
Proof.
  intros Hrun. unfold copy_file, bind, clear_errno, call in Hrun.
  destruct (open_file src O_RDONLY (set_errno None w)) as [o2 w2] eqn:E2.
  apply open_file_inv in E2 as (r2 & E2 & Ho2).
  destruct r2 as [e|src_fd].
  { destruct Ho2 as [-> |[-> (? & ? & _)]]; [|discriminate].
    unfold fatal_path_errno, bind, strerror_errno, fatal in Hrun.
    injection Hrun as _ <-. apply syscall_failed in E2. subst w2.
    apply only_refl. }
  apply open_ok in E2 as (ks & _ & Hfd2 & Hfds2 & _ & _ & Hcase2).
  simpl in Hfd2, Hfds2, Hcase2.
  assert (Hfs2 : w_fs w2 = w_fs w).
  { destruct Hcase2 as [(_ & mode & Hf & _)|(n2 & _ & _ & Hfs2)];
      [discriminate|exact Hfs2]. }
  destruct Ho2 as [-> |[-> _]];
    [|injection Hrun as _ <-; rewrite Hfs2; apply only_refl].
  destruct (open_file tmp (O_RDWR_CREAT o0600) (set_errno None w2))
    as [o3 w3] eqn:E3.
  apply open_file_inv in E3 as (r3 & E3 & Ho3').
  destruct r3 as [e|tmp_fd].
  { destruct Ho3' as [-> |[-> (? & ? & _)]]; [|discriminate].
    unfold fatal_path_errno, bind, strerror_errno, fatal in Hrun.
    injection Hrun as _ <-. apply syscall_failed in E3. subst w3.
    simpl. rewrite Hfs2. apply only_refl. }
  pose proof (open_only _ _ _ _ _ E3) as Ho3.
  apply open_ok in E3 as (R & Hres3 & Hfd3 & Hfds3 & _ & _ & _).
  simpl in Hres3, Hfd3, Hfds3, Ho3. rewrite Hfs2 in *.
  destruct Ho3' as [-> |[-> _]]; [|injection Hrun as _ <-; exact Ho3].
  assert (Hne : src_fd <> tmp_fd).
  { rewrite Hfd2, Hfd3, Hfds2, length_app. simpl. lia. }
  unfold bind, call in Hrun.
  destruct (malloc (w_blksize w3) w3) as [ok w4] eqn:E4.
  destruct ok; cbn [negb] in Hrun.
  - apply malloc_ok in E4.
    assert (Ht4 : w_fds w4 !! tmp_fd = Some (R, O)).
    { subst w4. simpl. rewrite Hfds3, Hfd3.
      rewrite lookup_app_r by lia. now rewrite Nat.sub_diag. }
    destruct (copy_loop_only _ _ _ R _ _ _ _ _ Hrun Hne Ht4) as [Hol _].
    assert (w_fs w4 = w_fs w3) as Hfs4 by (subst w4; reflexivity).
    rewrite Hfs4 in Hol.
    eapply only_trans; [exact Ho3|]. eapply only_weaken; [|exact Hol].
    intros x ->. exact Hres3.
  - apply malloc_fs in E4. unfold fatal in Hrun. injection Hrun as _ <-.
    simpl. rewrite E4. exact Ho3.
Qed.

Lemma stage_copy_only src tmp w o w' :
  stage_copy src tmp w = (o, w') ->
  only (fun x => resolve (w_fs w) tmp = inr x) (w_fs w) (w_fs w').
Proof.
  unfold stage_copy, bind, clear_errno, call.
  destruct (lstat src (set_errno None w)) as [st wl] eqn:El.
  apply lstat_fs in El. simpl in El.
  assert (Hsame : forall msg (o' : outcome unit) w'',
            (o', put_err msg wl) = (o, w'') ->
            only (fun x => resolve (w_fs w) tmp = inr x) (w_fs w) (w_fs w''))
    by (intros msg o' w'' [= _ <-]; simpl; rewrite El; apply only_refl).
  intros H.
  destruct st as [e|[| | |]];
    try (rewrite <- El; eapply copy_file_only; exact H);
    unfold fatal_errno, bind, strerror_errno, fatal in H;
    first [destruct e; eapply Hsame; exact H | eapply Hsame; exact H].
Qed.




(** The steps of main before the staging keep every node and add only
    directories, however they end. *)
Lemma prelude_keeps c dst w o w1 :
  prelude c dst w = (o, w1) ->
  (forall k n, lookup_node (w_fs w) k = Some n ->
               lookup_node (w_fs w1) k = Some n) /\
  (forall k n, lookup_node (w_fs w) k = None ->
               lookup_node (w_fs w1) k = Some n -> is_dir n = true).
Proof.
  assert (Hsame : forall w', w_fs w' = w_fs w ->
    (forall k n, lookup_node (w_fs w) k = Some n ->
                 lookup_node (w_fs w') k = Some n) /\
    (forall k n, lookup_node (w_fs w) k = None ->
                 lookup_node (w_fs w') k = Some n -> is_dir n = true))
    by (intros w' ->; split; [auto|congruence]).
  unfold prelude.
  destruct (o07777 <? mode c);
    [unfold fatal; intros [= _ <-]; now apply Hsame|].
  unfold bind, call, clear_errno.
  destruct (malloc _ w) as [ok w2] eqn:Em. apply malloc_fs in Em.
  destruct ok; cbn [negb];
    [|unfold fatal; intros [= _ <-]; now apply Hsame].
  destruct (mkdirp c); cbn [andb].
  - destruct (mkparents_rec_spec (S (String.length dst)) dst
                (set_errno None w2)) as (r & w3 & E & _); [lia|].
    fold (mkparents dst) in E. rewrite E.
    apply mkparents_rec_adds in E as (_ & Hkeep & Hnew).
    simpl in Hkeep, Hnew. rewrite Em in Hkeep, Hnew.
    intros H.
    assert (w_fs w1 = w_fs w3) as ->.
    { unfold fatal_path_errno, bind, strerror_errno, fatal, ret in H.
      destruct (r =? -1); injection H as _ <-; reflexivity. }
    split; [exact Hkeep|].
    intros k n Hk Hn. destruct (Hnew k n Hk Hn) as [-> _]. reflexivity.
  - unfold ret. intros [= _ <-]. now apply Hsame.
Qed.



(** ** Directories *)

Lemma keeps_dirs_refl fs : keeps_dirs fs fs.
Proof. intros p m H. eauto. Qed.

Lemma keeps_dirs_trans fs1 fs2 fs3 :
  keeps_dirs fs1 fs2 -> keeps_dirs fs2 fs3 -> keeps_dirs fs1 fs3.
Proof. intros H1 H2 p m H. destruct (H1 _ _ H) as [m' H']. eauto. Qed.

Lemma only_keeps_dirs S fs fs' : only S fs fs' -> keeps_dirs fs fs'.
Proof. intros Ho p m H. eapply only_dirs; eassumption. Qed.

Lemma stage_keeps_dirs c src tmp w o w' :
  stage c src tmp w = (o, w') -> keeps_dirs (w_fs w) (w_fs w').
Proof.
  unfold stage. destruct (symbolic c).
  - unfold stage_link, bind, clear_errno, call, fatal_errno, strerror_errno,
      fatal, ret.
    destruct (symlink src tmp (set_errno None w)) as [[e|[]] w1] eqn:E.
    + apply syscall_failed in E. subst w1. intros [= _ <-].
      apply keeps_dirs_refl.
    + apply symlink_ok in E as (k & _ & Hk & Hfs & _). simpl in Hk, Hfs.
      intros [= _ <-]. rewrite Hfs. intros p m Hp. exists m.
      apply lookup_node_absent in Hk as [Hi Hk].
      rewrite lookup_node_insert by exact Hi.
      destruct (decide (p = k)) as [->|_]; [|exact Hp].
      unfold lookup_node in Hp. rewrite Hi in Hp. congruence.
  - intros H. eapply only_keeps_dirs, stage_copy_only. exact H.
Qed.

Lemma finish_inv c tmp dst w r w' :
  finish c tmp dst w = (Ret r, w') ->
  exists w1 w2,
    chmod tmp (mode c) (set_errno None w) = (inr tt, w1) /\
    lchown tmp (owner c) (group c) w1 = (inr tt, w2) /\
    rename tmp dst w2 = (inr tt, w').
Proof.
  unfold finish, bind, clear_errno, call.
  destruct (chmod _ _ _) as [[e|[]] w1] eqn:E1; [discriminate|].
  destruct (lchown _ _ _ w1) as [[e|[]] w2] eqn:E2; [discriminate|].
  destruct (rename _ _ w2) as [[e|[]] w3] eqn:E3; [discriminate|].
  intros [= _ <-]. exists w1, w2. auto.
Qed.

Lemma finish_keeps_dirs c tmp dst w o w' :
  finish c tmp dst w = (o, w') -> keeps_dirs (w_fs w) (w_fs w').
Proof.
  destruct o as [r|s|].
  - intros H. apply finish_inv in H as (w1 & w2 & E1 & E2 & E3).
    apply chmod_only, only_keeps_dirs in E1. simpl in E1.
    apply lchown_only, only_keeps_dirs in E2.
    eapply keeps_dirs_trans; [exact E1|].
    eapply keeps_dirs_trans; [exact E2|].
    apply rename_ok in E3 as (ko & kn & n & _ & _ & Hko & Hd & _ & Hc).
    destruct Hc as [[_ ->]|(_ & _ & Hnd & ->)]; [apply keeps_dirs_refl|].
    intros p m Hp. exists m. eapply rename_keeps_dirs; eassumption.
  - intros H. apply finish_exit in H as [_ Ho].
    eapply only_keeps_dirs. exact Ho.
  - intros H. exfalso. apply (finish_total c tmp dst w). now rewrite H.
Qed.

Lemma install_keeps_dirs c src dst w0 :
  keeps_dirs (w_fs w0) (w_fs (snd (install c src dst w0))).
Proof.
  unfold install, bind.
  destruct (prelude c dst w0) as [op w1] eqn:Ep.
  assert (H1 : keeps_dirs (w_fs w0) (w_fs w1)).
  { destruct (prelude_keeps _ _ _ _ _ Ep) as [Hkeep _].
    intros p m Hp. exists m. now apply Hkeep. }
  destruct op as [tmp|s|]; [|exact H1|exact H1].
  destruct (stage c src tmp w1) as [o2 w2] eqn:Es.
  pose proof (stage_keeps_dirs _ _ _ _ _ _ Es) as H2.
  destruct o2 as [[]|s|];
    [|eapply keeps_dirs_trans; eassumption
     |eapply keeps_dirs_trans; eassumption].
  destruct (finish c tmp dst w2) as [o3 w3] eqn:Ef.
  apply finish_keeps_dirs in Ef.
  eapply keeps_dirs_trans; [exact H1|].
  eapply keeps_dirs_trans; [exact H2|]. exact Ef.
Qed.

(** X4: main never removes a directory and never puts anything in the
    place of one: whatever the command line and the way the run ends,
    every directory that existed before the run is a directory after
    it. *)
Theorem directories_survive argv w p m :
  lookup_node (w_fs w) p = Some (Dir m) ->
  exists m', lookup_node (w_fs (snd (main argv w))) p = Some (Dir m').
Proof.
  intros Hp. unfold main, bind.
  destruct (parse_args argv w) as [o w0] eqn:E.
  apply parse_args_fs in E.
  destruct o as [[[c src] dst]|s|]; simpl; [|rewrite E; eauto|rewrite E; eauto].
  apply (install_keeps_dirs c src dst w0 p m). now rewrite E.
Qed.

Lemma directories_survive_witness :
  let w := Scenario.world_of 1000
             (<[ ["dst.txt"] := Dir (Scenario.owned 1000 1000 o0755) ]>
                (Scenario.fs_src 1000)) ∅ in
  exists m',
    lookup_node (w_fs (snd (main ["install"; "src.txt"; "dst.txt"] w)))
      ["dst.txt"] = Some (Dir m').
Proof.
  intros w.
  apply (directories_survive ["install"; "src.txt"; "dst.txt"] w ["dst.txt"]
           (Scenario.owned 1000 1000 o0755)).
  vm_compute. reflexivity.
Defined.

(** X5: a destination, written without "..", that is an existing
    directory or that is written with a trailing '/' (or a last
    component "."), is never installed: the run does not return 0, and
    where no special file is stuck it exits with status 1. install.c
    does not copy into a directory. *)
Theorem directory_destination_refused c src dst w0 :
  no_dotdot dst = true ->
  (exists m, lookup_node (w_fs w0) (path_key dst) = Some (Dir m))
  \/ wants_dir dst = true ->
  fst (install c src dst w0) <> Ret 0 /\
  (w_stuck w0 = ∅ -> fst (install c src dst w0) = Exit 1).
Proof.
  intros _ Hdst.
  assert (Hne : fst (install c src dst w0) <> Ret 0);
    [|split; [exact Hne|]; intros Hs;
      destruct (install_total c src dst w0 Hs) as [E|E];
      [contradiction|exact E]].
  intros E.
  destruct (install c src dst w0) as [o w'] eqn:Hrun. simpl in E. subst o.
  apply install_inv in Hrun as (tmp & w1 & w2 & Hp & Hs & Hf).
  pose proof (prelude_ret _ _ _ _ _ Hp) as [-> _].
  pose proof (finish_inv _ _ _ _ _ _ Hf) as (w3 & w4 & E1 & E2 & E3).
  pose proof E3 as E3'.
  apply rename_ok in E3' as (ko & kn & n & Hlo & Hln & _ & _ & _ & Hc).
  apply locate_inr in Hlo as (-> & _). apply locate_inr in Hln as (-> & _).
  destruct Hc as [[Heq _]|(_ & Hwd & Hnd & _)];
    [exact (tmp_key_ne dst Heq)|].
  destruct Hdst as [[m Hm]|Hw]; [|congruence].
  assert (Hk : keeps_dirs (w_fs w0) (w_fs w4)).
  { destruct (prelude_keeps _ _ _ _ _ Hp) as [Hkeep _].
    eapply keeps_dirs_trans; [intros p m0 H0; exists m0; now apply Hkeep|].
    eapply keeps_dirs_trans; [eapply stage_keeps_dirs; exact Hs|].
    apply chmod_only, only_keeps_dirs in E1. simpl in E1.
    apply lchown_only, only_keeps_dirs in E2.
    eapply keeps_dirs_trans; eassumption. }
  destruct (Hk _ _ Hm) as [m' Hm']. exact (Hnd m' Hm').
Qed.

Lemma directory_destination_refused_witness :
  let w := Scenario.world_of 1000
             (<[ ["out"] := Dir (Scenario.owned 1000 1000 o0755) ]>
                (Scenario.fs_src 1000)) ∅ in
  fst (install (initial_config w) "src.txt" "out" w) = Exit 1.
Proof.
  intros w.
  assert (H1 : no_dotdot "out" = true) by reflexivity.
  assert (H2 : (exists m, lookup_node (w_fs w) (path_key "out") = Some (Dir m))
               \/ wants_dir "out" = true)
    by (left; eexists; vm_compute; reflexivity).
  exact (proj2 (directory_destination_refused (initial_config w) "src.txt"
                  "out" w H1 H2) eq_refl).
Defined.

(** ** Symbolic-link mode *)

Lemma lstat_of_inr fs p n :
  lstat_of fs p = inr n ->
  locate fs p = inr (path_key p) /\
  exists n', lookup_node fs (path_key p) = Some n'.
Proof.
  unfold lstat_of. destruct (locate fs p) as [e|k] eqn:El; [discriminate|].
  apply locate_inr in El as (-> & _ & _).
  destruct (lookup_node fs (path_key p)) as [n'|]; [eauto|discriminate].
Qed.

(** X6: in symbolic-link mode something already at the temporary path
    is never replaced or reused: symlink fails (with EEXIST, unless the
    source text is empty or the call fails for another reason first),
    the program exits with status 1 and a "symlink(3) failure" message,
    and the file system is as it was. *)
Theorem link_over_existing_temporary c src dst w0 tmp w1 n :
  symbolic c = true ->
  prelude c dst w0 = (Ret tmp, w1) ->
  lstat_of (w_fs w1) tmp = inr n ->
  exists e,
    install c src dst w0
    = (Exit 1,
       put_err (fatal_line ("symlink(3) failure: " +:+ strerror e))
         (failed (CSymlink src tmp) e (set_errno None w1))) /\
    w_fs (snd (install c src dst w0)) = w_fs w1 /\
    (w_plan w1 !! length (w_log w1) = None -> src <> "" -> e = EEXIST).
Proof.
  intros Hsym Hpre Hn.
  apply lstat_of_inr in Hn as (Hloc & n' & Hn').
  assert (Hs : exists e,
            symlink src tmp (set_errno None w1)
            = (inl e, failed (CSymlink src tmp) e (set_errno None w1)) /\
            (w_plan w1 !! length (w_log w1) = None -> src <> "" -> e = EEXIST)).
  { unfold symlink, syscall. simpl.
    destruct (w_plan w1 !! length (w_log w1)) as [[e|k]|];
      [exists e; split; congruence| |];
      (destruct (String.eqb src "") eqn:Es;
       [apply String.eqb_eq in Es; exists ENOENT; split;
        [reflexivity|congruence]
       |rewrite Hloc, Hn'; exists EEXIST; split; reflexivity]). }
  destruct Hs as (e & Hs & He). exists e.
  assert (E : install c src dst w0
    = (Exit 1,
       put_err (fatal_line ("symlink(3) failure: " +:+ strerror e))
         (failed (CSymlink src tmp) e (set_errno None w1)))).
  { unfold install. rewrite (bind_Ret _ _ _ _ _ Hpre).
    unfold stage. rewrite Hsym.
    unfold stage_link, bind, clear_errno, call. rewrite Hs. reflexivity. }
  rewrite E. auto.
Qed.

Lemma link_over_existing_temporary_witness :
  let w := Scenario.world_of 1000
             (<[ ["dst.txt.tmp"] := Reg (Scenario.owned 1000 1000 o0600) [] ]>
                (Scenario.fs_src 1000)) ∅ in
  let c := {| mkdirp := false; symbolic := true; owner := 1000; group := 1000;
              mode := o0755 |} in
  w_fs (snd (install c "src.txt" "dst.txt" w)) = w_fs w /\
  w_err (snd (install c "src.txt" "dst.txt" w))
    = "fatal: symlink(3) failure: File exists" +:+ nl.
Proof.
  intros w c.
  set (w1 := snd (prelude c "dst.txt" w)).
  assert (H1 : prelude c "dst.txt" w = (Ret "dst.txt.tmp", w1))
    by (vm_compute; reflexivity).
  assert (H2 : lstat_of (w_fs w1) "dst.txt.tmp"
               = inr (Reg (Scenario.owned 1000 1000 o0600) []))
    by (vm_compute; reflexivity).
  destruct (link_over_existing_temporary c "src.txt" "dst.txt" w "dst.txt.tmp"
              w1 _ eq_refl H1 H2) as (e & E & Hfs & He).
  assert (e = EEXIST) as ->
    by (apply He; [vm_compute; reflexivity|discriminate]).
  split; [rewrite Hfs; vm_compute; reflexivity|].
  rewrite E. vm_compute. reflexivity.
Defined.

(** X7: with -l a link that leads nowhere is never installed. Once the
    link has been created at the temporary path, chmod goes through it;
    if the text of the source, read from the directory of the
    destination, names nothing (source and destination being written
    without ".."), chmod fails, with ENOENT unless it is refused for
    another reason, the program exits with status 1 and a "chmod(3)
    failure" message, and the link is left at the temporary path. *)
Theorem dangling_link_not_installed c src dst w0 tmp w1 w2 :
  symbolic c = true ->
  prelude c dst w0 = (Ret tmp, w1) ->
  symlink src tmp (set_errno None w1) = (inr tt, w2) ->
  no_dotdot src = true -> no_dotdot dst = true ->
  names_nothing (w_fs w2) (link_dest (path_key tmp) src) ->
  lookup_node (w_fs w2) (path_key tmp) = Some (Lnk (link_stat w1) src) /\
  exists e',
    install c src dst w0
    = (Exit 1,
       put_err (fatal_line ("chmod(3) failure: " +:+ strerror e'))
         (failed (CChmod tmp (mode c)) e' (set_errno None w2))) /\
    (w_plan w2 !! length (w_log w2) = None -> e' = ENOENT).
Proof.
  intros Hsym Hpre Hs _ _ Hnn.
  pose proof Hs as Hs'.
  apply symlink_ok in Hs' as (k & Hloc & Hk & Hfs & _).
  apply locate_inr in Hloc as (-> & Hw & Hp).
  apply lookup_node_absent in Hk as [Hi Hk]. simpl in Hfs, Hw, Hk.
  change (link_stat (set_errno None w1)) with (link_stat w1) in Hfs.
  assert (Hl : lookup_node (w_fs w2) (path_key tmp)
               = Some (Lnk (link_stat w1) src)).
  { rewrite Hfs, lookup_node_insert by exact Hi.
    destruct (decide _); [reflexivity|contradiction]. }
  split; [exact Hl|].
  assert (Hloc2 : locate (w_fs w2) tmp = inr (path_key tmp)).
  { apply locate_intro; [exact Hp|].
    eapply walk_mono; [|exact Hw]. intros p m Hpd. exists m. rewrite Hfs.
    unfold lookup_node in Hpd |- *. destruct (implicit p); [exact Hpd|].
    rewrite lookup_insert_ne by congruence. exact Hpd. }
  assert (Hst : stat_of (w_fs w2) tmp = inl ENOENT).
  { unfold stat_of, resolve, MAXSYMLINKS. rewrite Hloc2. cbn [follow].
    rewrite Hl. destruct (String.eqb src ""); [reflexivity|].
    destruct Hnn as [Hn|[Hn Hnone]]; rewrite Hn; [reflexivity|].
    rewrite Hnone. cbv iota. rewrite Hnone. reflexivity. }
  assert (Hc : exists e',
            chmod tmp (mode c) (set_errno None w2)
            = (inl e', failed (CChmod tmp (mode c)) e' (set_errno None w2)) /\
            (w_plan w2 !! length (w_log w2) = None -> e' = ENOENT)).
  { unfold chmod, syscall. simpl.
    destruct (w_plan w2 !! length (w_log w2)) as [[e'|j]|];
      [exists e'; split; congruence| |];
      (unfold stat_of in Hst;
       destruct (resolve (w_fs w2) tmp) as [e1|k];
       [injection Hst as ->; exists ENOENT; auto|];
       destruct (lookup_node (w_fs w2) k) as [n|];
       [destruct (wants_dir tmp && negb (is_dir n)); discriminate|];
       exists ENOENT; auto). }
  destruct Hc as (e' & Hc & He). exists e'. split; [|exact He].
  unfold install. rewrite (bind_Ret _ _ _ _ _ Hpre).
  unfold stage. rewrite Hsym.
  unfold stage_link, bind, clear_errno, call. rewrite Hs.
  unfold ret, finish, bind, clear_errno, call. rewrite Hc. reflexivity.
Qed.

Lemma dangling_link_not_installed_witness :
  let w := Scenario.world_of 1000 (Scenario.fs_src 1000) ∅ in
  let c := {| mkdirp := false; symbolic := true; owner := 1000; group := 1000;
              mode := o0755 |} in
  fst (install c "nosuch" "dst.txt" w) = Exit 1 /\
  w_err (snd (install c "nosuch" "dst.txt" w))
    = "fatal: chmod(3) failure: No such file or directory" +:+ nl /\
  lstat_of (w_fs (snd (install c "nosuch" "dst.txt" w))) "dst.txt.tmp"
    = inr (Lnk (Scenario.owned 1000 1000 o0777) "nosuch").
Proof.
  intros w c.
  set (w1 := snd (prelude c "dst.txt" w)).
  set (w2 := snd (symlink "nosuch" "dst.txt.tmp" (set_errno None w1))).
  assert (H1 : prelude c "dst.txt" w = (Ret "dst.txt.tmp", w1))
    by (vm_compute; reflexivity).
  assert (H2 : symlink "nosuch" "dst.txt.tmp" (set_errno None w1)
               = (inr tt, w2)) by (vm_compute; reflexivity).
  assert (H3 : names_nothing (w_fs w2)
                 (link_dest (path_key "dst.txt.tmp") "nosuch"))
    by (right; split; vm_compute; reflexivity).
  destruct (dangling_link_not_installed c "nosuch" "dst.txt" w "dst.txt.tmp"
              w1 w2 eq_refl H1 H2 eq_refl eq_refl H3) as (_ & e' & E & He).
  assert (e' = ENOENT) as -> by (apply He; vm_compute; reflexivity).
  rewrite E. vm_compute. auto.
Defined.

(** ** The set-ID bits *)




(** ** Octal modes *)

Lemma octal_digit_cases d :
  0 <= d < 8 ->
  d = 0 \/ d = 1 \/ d = 2 \/ d = 3 \/ d = 4 \/ d = 5 \/ d = 6 \/ d = 7.
Proof. lia. Qed.

Lemma digit_val_digit_char d :
  0 <= d < 8 -> digit_val (digit_char d) = Some d.
Proof.
  intros H. destruct (octal_digit_cases d H) as [->|[->|[->|[->|[->|[->|[->| ->]]]]]]];
    reflexivity.
Qed.

Lemma scan_digits_numeral ds : forall acc n,
  Forall (fun d => 0 <= d < 8) ds ->
  scan_digits 8 (numeral ds) acc n
  = (fold_left (fun a d => a * 8 + d) ds acc, (n + length ds)%nat, "").
Proof.
  induction ds as [|d ds IH]; intros acc n H.
  - simpl. now rewrite Nat.add_0_r.
  - apply Forall_cons in H as [Hd H]. cbn [numeral scan_digits].
    rewrite digit_val_digit_char by exact Hd.
    replace (d <? 8) with true by (symmetry; apply Z.ltb_lt; lia).
    rewrite IH by exact H. cbn [fold_left length]. do 2 f_equal. lia.
Qed.

Lemma fold_digits_nonneg ds : forall acc,
  0 <= acc -> Forall (fun d => 0 <= d < 8) ds ->
  0 <= fold_left (fun a d => a * 8 + d) ds acc.
Proof.
  induction ds as [|d ds IH]; intros acc Ha H; [exact Ha|].
  apply Forall_cons in H as [Hd H]. simpl. apply IH; [lia|exact H].
Qed.

Lemma strtoul_base_8 s : strtoul_base 8 s = (8, s).
Proof.
  destruct s as [|a [|b [|h t]]]; [reflexivity| | |];
    destruct a as [[] [] [] [] [] [] [] []]; reflexivity.
Qed.

Lemma strtoul_unsigned einval c s base :
  isspace c = false -> c <> "-"%char -> c <> "+"%char ->
  strtoul einval (String c s) base
  = let '(b, s1) := strtoul_base base (String c s) in
    let '(v, n, rest) := scan_digits b s1 0 0 in
    match n with
    | O => {| st_val := 0; st_end := String c s;
              st_errno := if einval then Some EINVAL else None |}
    | S _ =>
        if ULONG_MAX <? v
        then {| st_val := ULONG_MAX; st_end := rest; st_errno := Some ERANGE |}
        else {| st_val := v; st_end := rest; st_errno := None |}
    end.
Proof.
  intros Hs Hm Hp. unfold strtoul. cbn [skip_space]. rewrite Hs.
  destruct c as [[] [] [] [] [] [] [] []];
    try reflexivity; congruence.
Qed.

(** strtoul in base 8 on an octal numeral gives the number it denotes. *)
Lemma strtoul_octal einval ds :
  octal ds -> numeral_value 8 ds <= ULONG_MAX ->
  strtoul einval (numeral ds) 8
  = {| st_val := numeral_value 8 ds; st_end := ""; st_errno := None |}.
Proof.
  intros [Hne Hds] Hv. destruct ds as [|d ds]; [contradiction|].
  pose proof (proj1 (Forall_cons _ _ _) Hds) as [Hd _].
  cbn [numeral]. rewrite strtoul_unsigned.
  - rewrite strtoul_base_8.
    change (String (digit_char d) (numeral ds)) with (numeral (d :: ds)).
    rewrite scan_digits_numeral by exact Hds.
    fold (numeral_value 8 (d :: ds)). cbn [length Nat.add].
    replace (ULONG_MAX <? numeral_value 8 (d :: ds)) with false
      by (symmetry; apply Z.ltb_ge; exact Hv).
    reflexivity.
  - destruct (octal_digit_cases d Hd) as [->|[->|[->|[->|[->|[->|[->| ->]]]]]]];
      reflexivity.
  - destruct (octal_digit_cases d Hd) as [->|[->|[->|[->|[->|[->|[->| ->]]]]]]];
      discriminate.
  - destruct (octal_digit_cases d Hd) as [->|[->|[->|[->|[->|[->|[->| ->]]]]]]];
      discriminate.
Qed.

Lemma parse_mode_octal ds w :
  octal ds -> numeral_value 8 ds < 2 ^ 32 ->
  parse_mode (numeral ds) w = (Ret (numeral_value 8 ds), w).
Proof.
  intros Ho Hv. unfold parse_mode.
  rewrite strtoul_octal by (try exact Ho; unfold ULONG_MAX; lia).
  cbn. unfold ret, to_u32. f_equal. f_equal. apply Z.mod_small.
  split; [|exact Hv]. apply fold_digits_nonneg; [lia|apply Ho].
Qed.

(** ** The command line *)

Lemma getopt_positional a rest :
  is_option_arg a = false -> getopt_run optstring (a :: rest) = ([], a :: rest).
Proof.
  destruct a as [|c [|c' s]]; [reflexivity| |].
  - destruct c as [[] [] [] [] [] [] [] []]; reflexivity.
  - destruct c as [[] [] [] [] [] [] [] []]; try reflexivity; discriminate.
Qed.

Lemma getopt_m a rest :
  getopt_run optstring ("-m" :: a :: rest)
  = (GOpt "m" (Some a) :: fst (getopt_run optstring rest),
     snd (getopt_run optstring rest)).
Proof.
  cbn [getopt_run]. cbn. destruct (getopt_run optstring rest). reflexivity.
Qed.

Lemma parse_args_m argv0 ds src dst w :
  octal ds -> numeral_value 8 ds < 2 ^ 32 -> is_option_arg src = false ->
  parse_args [argv0; "-m"; numeral ds; src; dst] w
  = (Ret (with_mode (initial_config w) (numeral_value 8 ds), src, dst), w).
Proof.
  intros Ho Hv Hs. unfold parse_args. cbn [hd tl].
  rewrite getopt_m, getopt_positional by exact Hs. cbn [fst snd opt_loop].
  change (handle_opt argv0 (GOpt "m" (Some (numeral ds))) (initial_config w))
    with (let* m := parse_mode (numeral ds) in
          ret (with_mode (initial_config w) m)).
  unfold bind. rewrite parse_mode_octal by assumption. reflexivity.
Qed.



(** X10: a mode above 07777 is refused before anything is done: main
    exits with status 1 and "invalid mode: " followed by the mode in
    decimal, having made no call and changed nothing but standard error.
    So it is for "-m" with an octal numeral of a value between 010000
    and 2^32 - 1. *)
Theorem mode_out_of_range :
  (forall argv w c src dst w0,
     parse_args argv w = (Ret (c, src, dst), w0) -> o07777 < mode c ->
     main argv w
     = (Exit 1, put_err (fatal_line ("invalid mode: " +:+ pretty (mode c))) w0)
     /\ w_fs w0 = w_fs w) /\
  (forall argv0 ds src dst w,
     octal ds -> o07777 < numeral_value 8 ds < 2 ^ 32 ->
     is_option_arg src = false -> is_option_arg dst = false ->
     main [argv0; "-m"; numeral ds; src; dst] w
     = (Exit 1,
        put_err (fatal_line ("invalid mode: "
                             +:+ pretty (numeral_value 8 ds))) w)).
Proof.
  assert (G : forall argv w c src dst w0,
     parse_args argv w = (Ret (c, src, dst), w0) -> o07777 < mode c ->
     main argv w
     = (Exit 1, put_err (fatal_line ("invalid mode: " +:+ pretty (mode c))) w0)
     /\ w_fs w0 = w_fs w).
  { intros argv w c src dst w0 Hp Hm.
    split; [|eapply parse_args_fs; exact Hp].
    rewrite (main_install _ _ _ _ _ _ Hp). unfold install, prelude.
    replace (o07777 <? mode c) with true by (symmetry; now apply Z.ltb_lt).
    reflexivity. }
  split; [exact G|].
  intros argv0 ds src dst w Ho [Hlo Hhi] Hs _.
  apply (G _ _ _ _ _ _ (parse_args_m argv0 ds src dst w Ho Hhi Hs)).
  exact Hlo.
Qed.

Lemma mode_out_of_range_witness :
  let w := Scenario.world_of 1000 (Scenario.fs_src 1000) ∅ in
  main ["install"; "-m"; "10000"; "src.txt"; "dst.txt"] w
  = (Exit 1, put_err ("fatal: invalid mode: 4096" +:+ nl) w).
Proof.
  intros w.
  assert (Ho : octal [1; 0; 0; 0; 0])
    by (split; [discriminate|repeat constructor; lia]).
  apply (proj2 mode_out_of_range "install" [1; 0; 0; 0; 0] "src.txt" "dst.txt"
           w Ho).
  - vm_compute. split; reflexivity.
  - reflexivity.
  - reflexivity.
Defined.

Lemma getopt_none args :
  (forall a, head args = Some a -> is_option_arg a = false) ->
  getopt_run optstring args = ([], args).
Proof.
  destruct args as [|a rest]; [reflexivity|].
  intros H. apply getopt_positional. now apply H.
Qed.

(** X11: without options main takes exactly two arguments. When no
    argument is an option (none starts with '-', but for "-" alone), any
    number of arguments other than two is refused with "expected
    arguments: <src> <dst>" and status 1, nothing else being done; with
    two, main installs with the defaults: no -D, no -l, the user and
    group of the process, mode 0755. *)
Theorem no_options argv0 args w :
  Forall (fun a => is_option_arg a = false) args ->
  (length args <> 2%nat ->
   main (argv0 :: args) w
   = (Exit 1, put_err (fatal_line "expected arguments: <src> <dst>") w)) /\
  (forall src dst, args = [src; dst] ->
   main (argv0 :: args) w
   = install {| mkdirp := false; symbolic := false; owner := w_uid w;
                group := w_gid w; mode := o0755 |} src dst w).
Proof.
  intros Hall.
  assert (H : getopt_run optstring args = ([], args)).
  { apply getopt_none. intros a Ha. destruct args as [|b rest]; [discriminate|].
    injection Ha as ->. now apply Forall_cons in Hall as [Hb _]. }
  unfold main, parse_args. cbn [hd tl]. rewrite H. split.
  - intros Hlen. destruct args as [|a [|b [|? ?]]]; try reflexivity.
    simpl in Hlen. congruence.
  - intros src dst ->. reflexivity.
Qed.

Lemma no_options_witness :
  let w := Scenario.world_of 1000 (Scenario.fs_src 1000) ∅ in
  main ["install"; "src.txt"] w
  = (Exit 1, put_err ("fatal: expected arguments: <src> <dst>" +:+ nl) w).
Proof.
  intros w.
  assert (H : Forall (fun a => is_option_arg a = false) ["src.txt"])
    by (repeat constructor).
  apply (proj1 (no_options "install" ["src.txt"] w H)). simpl. lia.
Defined.

Lemma first_option_exits argv0 args w ev evs pos s w' :
  getopt_run optstring args = (ev :: evs, pos) ->
  handle_opt argv0 ev (initial_config w) w = (Exit s, w') ->
  main (argv0 :: args) w = (Exit s, w').
Proof.
  intros Hg Hh. unfold main, parse_args. cbn [hd tl]. rewrite Hg.
  cbn [opt_loop]. unfold bind. rewrite Hh. reflexivity.
Qed.

Lemma getopt_first_cluster c s rest :
  (c = "-"%char -> s <> "") ->
  exists evs pos,
    getopt_run optstring (String "-" (String c s) :: rest)
    = (fst (scan_cluster optstring (String c s) (head rest)) ++ evs, pos).
Proof.
  intros Hc. cbn [getopt_run].
  destruct (Ascii.eqb c "-" && String.eqb s "") eqn:E.
  - apply andb_prop in E as [E1 E2]. apply Ascii.eqb_eq in E1.
    apply String.eqb_eq in E2. now destruct (Hc E1).
  - destruct (scan_cluster optstring (String c s) (head rest)) as [l b].
    destruct rest as [|b0 rest2].
    + exists [], []. now rewrite app_nil_r.
    + destruct b; destruct (getopt_run optstring _) as [evs' pos]; eauto.
Qed.

(** X12: the errors of the option loop. A first argument that starts
    with '-' and a character that is not an option (anything but D, g,
    h, l, m, o, r) ends the run with "invalid option: -" and the
    character; so does -r, which the option string lists but the switch
    does not handle: getopt has reported no error, optopt is 0, and what
    is shown after "-" is a NUL character. In both cases whatever
    follows on the command line is not looked at. When -g, -m or -o is
    the only argument, its value is missing and the run ends with
    "option requires argument: -" and the letter. In each case the
    status is 1 and nothing else has been done. *)
Theorem option_errors argv0 w :
  (forall c s rest,
     optspec optstring c = None -> (c = "-"%char -> s <> "") ->
     main (argv0 :: String "-" (String c s) :: rest) w
     = (Exit 1, put_err (fatal_line ("invalid option: -" +:+ String c "")) w)) /\
  (forall s rest,
     main (argv0 :: String "-" (String "r" s) :: rest) w
     = (Exit 1,
        put_err (fatal_line ("invalid option: -" +:+ String optopt_unset "")) w)) /\
  (forall c,
     optspec optstring c = Some true ->
     main [argv0; String "-" (String c "")] w
     = (Exit 1,
        put_err (fatal_line ("option requires argument: -" +:+ String c "")) w)).
Proof.
  split; [|split].
  - intros c s rest Hspec Hc.
    destruct (getopt_first_cluster c s rest Hc) as (evs & pos & E).
    cbn [scan_cluster] in E. rewrite Hspec in E.
    destruct (scan_cluster optstring s (head rest)) as [l b].
    eapply first_option_exits; [exact E|reflexivity].
  - intros s rest.
    destruct (getopt_first_cluster "r" s rest) as (evs & pos & E);
      [discriminate|].
    cbn [scan_cluster] in E.
    change (optspec optstring "r") with (Some false) in E.
    destruct (scan_cluster optstring s (head rest)) as [l b].
    eapply first_option_exits; [exact E|reflexivity].
  - intros c Hspec.
    destruct (getopt_first_cluster c "" []) as (evs & pos & E).
    { intros ->. discriminate. }
    cbn [scan_cluster head] in E. rewrite Hspec in E.
    eapply first_option_exits; [exact E|reflexivity].
Qed.

Lemma option_errors_witness :
  let w := Scenario.world_of 1000 (Scenario.fs_src 1000) ∅ in
  main ["install"; "-x"; "src.txt"; "dst.txt"] w
  = (Exit 1, put_err ("fatal: invalid option: -x" +:+ nl) w) /\
  main ["install"; "-r"; "src.txt"; "dst.txt"] w
  = (Exit 1,
     put_err ("fatal: invalid option: -" +:+ String zero "" +:+ nl) w) /\
  main ["install"; "-o"] w
  = (Exit 1, put_err ("fatal: option requires argument: -o" +:+ nl) w).
Proof.
  intros w. split; [|split].
  - apply (proj1 (option_errors "install" w) "x"%char "" ["src.txt"; "dst.txt"]);
      [reflexivity|discriminate].
  - apply (proj1 (proj2 (option_errors "install" w)) "" ["src.txt"; "dst.txt"]).
  - apply (proj2 (proj2 (option_errors "install" w)) "o"%char). reflexivity.
Defined.

(** ** What -l does to the file the link leads to *)



(** ** The directories that mkparents creates *)

Lemma scan_back_after path n : forall l i,
  scan_back path n = l -> (l < i <= n)%nat ->
  is_slash (String.get i path) = false.
Proof.
  induction n as [|n IH]; intros l i H Hi; [lia|].
  simpl in H. destruct (is_slash (String.get (S n) path)) eqn:E; [lia|].
  destruct (decide (i = S n)) as [->|Hne]; [exact E|].
  eapply IH; [exact H|lia].
Qed.

Lemma get_beyond s : forall j, (String.length s <= j)%nat -> String.get j s = None.
Proof.
  induction s as [|c s IH]; intros j H; [now destruct j|].
  destruct j as [|j]; simpl in *; [lia|]. apply IH. lia.
Qed.

Lemma append_nil_r (s : string) : s +:+ "" = s.
Proof.
  induction s as [|c s IH]; [reflexivity|].
  change (String c (s +:+ "") = String c s). now rewrite IH.
Qed.

Lemma split_slash_no_slash t :
  (forall j, is_slash (String.get j t) = false) ->
  forall cur, split_slash t cur = [cur +:+ t].
Proof.
  induction t as [|c t IH]; intros H cur.
  - simpl. now rewrite append_nil_r.
  - pose proof (H O) as H0. simpl in H0. simpl. rewrite H0.
    rewrite IH by (intros j; apply (H (S j))).
    rewrite append_assoc. reflexivity.
Qed.

Lemma split_slash_app a t : forall cur,
  split_slash (a +:+ String "/" t) cur = split_slash a cur ++ split_slash t "".
Proof.
  induction a as [|c a IH]; intros cur; [reflexivity|].
  change (String c a +:+ String "/" t) with (String c (a +:+ String "/" t)).
  simpl. destruct (Ascii.eqb c "/"); rewrite IH; reflexivity.
Qed.

Lemma string_cut path : forall n c,
  String.get n path = Some c ->
  exists t, path = String.substring 0 n path +:+ String c t /\
            forall j, String.get j t = String.get (S n + j) path.
Proof.
  induction path as [|a p IH]; intros n c H; [now destruct n|].
  destruct n as [|n]; simpl in H.
  - injection H as ->. exists p. split; [reflexivity|]. intros j. reflexivity.
  - destruct (IH _ _ H) as (t & E & Ht). exists t. split; [|exact Ht].
    simpl. change (String a p = String a (String.substring 0 n p +:+ String c t)).
    now rewrite <- E.
Qed.

Lemma path_key_app a t :
  a <> "" -> (forall j, is_slash (String.get j t) = false) ->
  path_key (a +:+ String "/" t) = path_key a ++ List.filter real_comp [t].
Proof.
  intros Ha Ht. unfold path_key.
  rewrite split_slash_app, (split_slash_no_slash t Ht), List.filter_app.
  change ("" +:+ t) with t.
  destruct a as [|c a]; [contradiction|].
  change (String c a +:+ String "/" t) with (String c (a +:+ String "/" t)).
  destruct c as [[] [] [] [] [] [] [] []]; reflexivity.
Qed.

Lemma walk_snoc fs t k : forall pre,
  walk fs pre k = None ->
  (k <> [] -> exists m, lookup_node fs (pre ++ k) = Some (Dir m)) ->
  walk fs pre (k ++ [t]) = None.
Proof.
  induction k as [|c r IH]; intros pre Hw Hd; [reflexivity|].
  destruct r as [|c' r'].
  - destruct Hd as [m Hm]; [discriminate|]. simpl. now rewrite Hm.
  - simpl in Hw |- *.
    destruct (lookup_node fs (pre ++ [c])) as [[| | |]|]; try discriminate.
    apply IH; [exact Hw|]. intros _. rewrite <- app_assoc. now apply Hd.
Qed.

Lemma walk_no_slash fs path :
  scan_back path (String.length path) = O ->
  walk fs [] (path_key path) = None.
Proof.
  intros H. destruct path as [|c r]; [reflexivity|].
  assert (Hr : forall j, is_slash (String.get j r) = false).
  { intros j. destruct (le_lt_dec (String.length r) j) as [Hj|Hj].
    - now rewrite get_beyond.
    - apply (scan_back_after _ _ _ (S j) H). simpl. lia. }
  unfold path_key. simpl split_slash.
  destruct (Ascii.eqb c "/") eqn:E.
  - apply Ascii.eqb_eq in E. subst c.
    rewrite (split_slash_no_slash r Hr). change ("" +:+ r) with r. simpl.
    destruct (real_comp r); reflexivity.
  - rewrite (split_slash_no_slash r Hr). simpl.
    assert (Hk : forall l : key,
              match String c r with
              | String "/" _ => "/" :: l
              | _ => l
              end = l).
    { intros l. destruct c as [[] [] [] [] [] [] [] []];
        try reflexivity; discriminate. }
    rewrite Hk. destruct (real_comp _); reflexivity.
Qed.

Lemma malloc_unplanned size w :
  w_plan w !! length (w_log w) = None ->
  malloc size w = (true, add_log {| ev_call := CMalloc size; ev_err := None |} w).
Proof. intros H. unfold malloc, syscall. now rewrite H. Qed.

Lemma mkparents_rec_creates fuel : forall path w,
  (String.length path < fuel)%nat -> w_plan w = ∅ ->
  (forall d, In d (parents path) ->
     lookup_node (w_fs w) (path_key d) = None \/
     exists m, lookup_node (w_fs w) (path_key d) = Some (Dir m)) ->
  exists w',
    mkparents_rec fuel path w = (Ret 0, w') /\ w_plan w' = ∅ /\
    w_blksize w' = w_blksize w /\
    walk (w_fs w') [] (path_key path) = None /\
    forall d, In d (parents path) ->
      exists m, lookup_node (w_fs w') (path_key d) = Some (Dir m).
Proof.
  induction fuel as [|fuel IH]; intros path w Hf Hplan Hway; [lia|].
  cbn [mkparents_rec].
  destruct (scan_back path (String.length path)) as [|l] eqn:El;
    cbn [Nat.eqb].
  - exists w. split; [reflexivity|]. split; [exact Hplan|].
    split; [reflexivity|]. split; [now apply walk_no_slash|].
    rewrite (parents_none _ El). intros d [].
  - pose proof (scan_back_lt _ _ El) as Hlt.
    pose proof (parents_step _ _ El) as Hpar.
    set (buf := String.substring 0 (S l) path) in *.
    unfold bind, call.
    rewrite malloc_unplanned by (rewrite Hplan; apply lookup_empty).
    cbn [negb].
    destruct (IH buf (add_log {| ev_call := CMalloc (Z.of_nat (S l) + 1);
                                 ev_err := None |} w))
      as (w2 & Er & Hplan2 & Hbs2 & Hwalk2 & Hdirs2).
    { unfold buf. rewrite substring_length; lia. }
    { exact Hplan. }
    { intros d Hd. apply Hway. rewrite Hpar. apply in_or_app. now left. }
    rewrite Er. change (0 =? -1) with false. cbv iota.
    destruct (mkparents_rec_adds _ _ _ _ _ Er) as (_ & Hkeep & Hnew).
    simpl in Hkeep, Hnew.
    assert (Hbuf : buf <> "").
    { intros E. apply (f_equal String.length) in E. unfold buf in E.
      rewrite substring_length in E by lia. discriminate. }
    assert (Hloc : locate (w_fs w2) buf = inr (path_key buf))
      by (apply locate_intro; assumption).
    assert (Hmk : exists rm w3,
              mkdir buf o0777 w2 = (rm, w3) /\ w_plan w3 = ∅ /\
              w_blksize w3 = w_blksize w2 /\
              keeps_dirs (w_fs w2) (w_fs w3) /\
              exists m, lookup_node (w_fs w3) (path_key buf) = Some (Dir m)).
    { unfold mkdir, syscall. rewrite Hplan2, lookup_empty, Hloc.
      destruct (lookup_node (w_fs w2) (path_key buf)) as [n|] eqn:En.
      - eexists _, _. split; [reflexivity|]. simpl. split; [exact Hplan2|].
        split; [reflexivity|].
        split; [apply keeps_dirs_refl|]. rewrite En.
        destruct (lookup_node (w_fs w) (path_key buf)) as [n0|] eqn:E0.
        + pose proof (Hkeep _ _ E0) as E2. rewrite En in E2.
          injection E2 as ->.
          destruct (Hway buf) as [H|[m H]].
          * rewrite Hpar. apply in_or_app. right. now left.
          * congruence.
          * rewrite E0 in H. injection H as ->. eauto.
        + destruct (Hnew _ _ E0 En) as [-> _]. eauto.
      - eexists _, _. split; [reflexivity|]. simpl. split; [exact Hplan2|].
        split; [reflexivity|].
        pose proof (lookup_node_absent _ _ En) as [Hi _].
        split.
        + intros p m Hp. exists m. rewrite lookup_node_insert by exact Hi.
          destruct (decide _) as [->|_]; [congruence|exact Hp].
        + eexists. rewrite lookup_node_insert by exact Hi.
          destruct (decide _); [reflexivity|contradiction]. }
    destruct Hmk as (rm & w3 & Ek & Hplan3 & Hbs3 & Hk3 & Hb3). rewrite Ek.
    exists w3. split; [reflexivity|]. split; [exact Hplan3|].
    split; [rewrite Hbs3, Hbs2; reflexivity|].
    assert (Hwalk3 : walk (w_fs w3) [] (path_key buf) = None)
      by (eapply walk_mono; [exact Hk3|exact Hwalk2]).
    split.
    + pose proof (scan_back_slash _ _ _ El) as Hs.
      destruct (String.get (S l) path) as [c|] eqn:Eg; [|discriminate].
      simpl in Hs. apply Ascii.eqb_eq in Hs. subst c.
      destruct (string_cut path (S l) "/" Eg) as (t & Ep & Ht).
      fold buf in Ep.
      assert (Hns : forall j, is_slash (String.get j t) = false).
      { intros j. rewrite Ht.
        destruct (le_lt_dec (String.length path) (S (S l) + j)) as [Hj|Hj].
        - now rewrite get_beyond.
        - apply (scan_back_after _ _ _ _ El). lia. }
      assert (Hkey : path_key path
                     = path_key buf ++ List.filter real_comp [t])
        by (rewrite Ep at 1; apply path_key_app; assumption).
      rewrite Hkey. simpl. destruct (real_comp t).
      * apply walk_snoc; [exact Hwalk3|]. intros _. exact Hb3.
      * rewrite app_nil_r. exact Hwalk3.
    + intros d Hd. rewrite Hpar in Hd.
      apply in_app_or in Hd as [Hd|[<-|[]]]; [|exact Hb3].
      destruct (Hdirs2 d Hd) as [m Hm]. eapply Hk3. exact Hm.
Qed.



(** ** A copy that nothing prevents *)

Lemma syscall_run {A} c (body : world -> errno + (A * world)) w a w1 :
  w_plan w = ∅ -> body w = inr (a, w1) ->
  syscall c body w = (inr a, add_log {| ev_call := c; ev_err := None |} w1).
Proof. intros Hp Hb. unfold syscall. now rewrite Hp, lookup_empty, Hb. Qed.

Lemma walk_last fs x y k : forall pre,
  walk fs pre (k ++ [x]) = None -> walk fs pre (k ++ [y]) = None.
Proof.
  induction k as [|c r IH]; intros pre H; [reflexivity|].
  destruct r as [|c' r']; simpl in H |- *.
  - destruct (lookup_node fs (pre ++ [c])) as [[| | |]|]; try discriminate.
    reflexivity.
  - destruct (lookup_node fs (pre ++ [c])) as [[| | |]|]; try discriminate.
    apply IH. exact H.
Qed.

(** The temporary path of a destination that does not end in '/' or in
    a "." component is beside it: same directory, last component with
    ".tmp" appended. *)
Lemma tmp_key_beside dst :
  wants_dir dst = false ->
  exists d x,
    path_key (dst +:+ ".tmp") = d ++ [x +:+ ".tmp"] /\
    path_key dst = d ++ [x].
Proof.
  unfold wants_dir, path_key. intros Hw. apply negb_false_iff in Hw.
  rewrite split_slash_tmp.
  pose proof (split_slash_nonempty dst "") as Hne.
  set (L := split_slash dst "") in *.
  rewrite List.filter_app. simpl. rewrite real_comp_tmp.
  assert (EL : List.filter real_comp L =
               List.filter real_comp (removelast L) ++ [List.last L ""]).
  { rewrite (app_removelast_last "" Hne) at 1.
    rewrite List.filter_app. simpl. now rewrite Hw. }
  rewrite EL. clear EL.
  destruct dst as [|c dst'].
  - exists (List.filter real_comp (removelast L)), (List.last L "").
    split; reflexivity.
  - change (String c dst' +:+ ".tmp") with (String c (dst' +:+ ".tmp")).
    assert (Hc : {c = "/"%char} + {c <> "/"%char}) by apply ascii_dec.
    destruct Hc as [->|Hc].
    + exists ("/" :: List.filter real_comp (removelast L)), (List.last L "").
      split; reflexivity.
    + assert (E : forall (A : Type) (a b : A) r,
                 match String c r with String "/" _ => a | _ => b end = b).
      { intros A a b r.
        destruct c as [[] [] [] [] [] [] [] []]; try reflexivity.
        now destruct Hc. }
      rewrite (E _ _ _ (dst' +:+ ".tmp")), (E _ _ _ dst').
      exists (List.filter real_comp (removelast L)), (List.last L "").
      split; reflexivity.
Qed.

Lemma locate_tmp fs dst :
  wants_dir dst = false -> locate fs dst = inr (path_key dst) ->
  locate fs (dst +:+ ".tmp") = inr (path_key (dst +:+ ".tmp")).
Proof.
  intros Hw Hl. apply locate_inr in Hl as (_ & Hwalk & _).
  apply locate_intro.
  - intros E. apply (f_equal String.length) in E.
    rewrite append_length in E. simpl in E. lia.
  - destruct (tmp_key_beside dst Hw) as (d & x & -> & Hd).
    rewrite Hd in Hwalk. eapply walk_last. exact Hwalk.
Qed.

(** The copy loop when no call is refused: it copies what is left of
    the source. *)
Lemma copy_loop_complete src_fd tmp_fd blksize fuel :
  forall w ks ps kt pt ms ds mt dt,
    w_plan w = ∅ -> 0 < blksize -> src_fd <> tmp_fd -> ks <> kt ->
    w_fds w !! src_fd = Some (ks, ps) ->
    w_fds w !! tmp_fd = Some (kt, pt) ->
    lookup_node (w_fs w) ks = Some (Reg ms ds) ->
    lookup_node (w_fs w) kt = Some (Reg mt dt) ->
    (pt <= length dt)%nat ->
    (length ds - ps < fuel)%nat ->
    exists w',
      copy_loop fuel src_fd tmp_fd blksize w = (Ret tt, w') /\
      w_plan w' = ∅ /\ process_of w' = process_of w /\
      w_fs w' = <[kt := Reg mt (overwrite dt pt (drop ps ds))]> (w_fs w).
Proof.
  induction fuel as [|fuel IH];
    intros w ks ps kt pt ms ds mt dt Hplan Hbs Hfd Hk Hs Ht Hns Hnt Hpt Hfuel;
    [lia|].
  destruct (lookup_node_present _ _ _ Hnt eq_refl) as [Hit Hlt].
  destruct (lookup_node_present _ _ _ Hns eq_refl) as [His Hls].
  cbn [copy_loop]. unfold bind, call.
  set (chunk := take (Z.to_nat blksize) (drop ps ds)).
  unfold read.
  rewrite (syscall_run (CRead src_fd blksize) _ w chunk
             (set_fds (<[src_fd := (ks, (ps + length chunk)%nat)]> (w_fds w)) w)
             Hplan)
    by (cbv beta; rewrite Hs, Hns; reflexivity).
  destruct (0 <? length chunk)%nat eqn:Elen.
  - apply Nat.ltb_lt in Elen. unfold clear_errno.
    match goal with
    | |- context [write tmp_fd chunk ?x] => set (wr := x)
    end.
    assert (Htr : w_fds wr !! tmp_fd = Some (kt, pt))
      by (simpl; rewrite list_lookup_insert_ne by exact Hfd; exact Ht).
    unfold write.
    rewrite (syscall_run (CWrite tmp_fd chunk) _ wr (Z.of_nat (length chunk))
               (set_fds (<[tmp_fd := (kt, (pt + length chunk)%nat)]> (w_fds wr))
                  (set_fs (store_node (w_fs wr) kt
                             (Reg mt (overwrite dt pt chunk))) wr)))
      by (try exact Hplan; cbv beta zeta; rewrite Htr; unfold written;
          simpl w_plan; rewrite Hplan, lookup_empty; simpl w_fs; rewrite Hnt;
          reflexivity).
    match goal with
    | |- context [copy_loop fuel src_fd tmp_fd blksize ?x] => set (w3 := x)
    end.
    assert (Hfs3 : w_fs w3 = <[kt := Reg mt (overwrite dt pt chunk)]> (w_fs w))
      by (simpl; unfold store_node; now rewrite Hit).
    destruct (IH w3 ks (ps + length chunk)%nat kt (pt + length chunk)%nat
                ms ds mt (overwrite dt pt chunk))
      as (w' & Hrun & Hplan' & Hproc' & Hfs'); try assumption.
    + simpl. rewrite list_lookup_insert_ne by congruence.
      apply list_lookup_insert_eq. eapply lookup_lt_Some; exact Hs.
    + simpl. apply list_lookup_insert_eq. rewrite length_insert.
      eapply lookup_lt_Some; exact Ht.
    + rewrite Hfs3. unfold lookup_node. rewrite His.
      rewrite lookup_insert_ne by congruence. exact Hls.
    + rewrite Hfs3. unfold lookup_node. rewrite Hit. apply lookup_insert_eq.
    + apply overwrite_length. exact Hpt.
    + assert (length chunk <= length ds - ps)%nat
        by (unfold chunk; rewrite length_take, length_drop; lia).
      lia.
    + exists w'. split; [exact Hrun|]. split; [exact Hplan'|].
      split; [rewrite Hproc'; reflexivity|].
      rewrite Hfs', Hfs3, insert_insert_eq, overwrite_app by exact Hpt.
      do 3 f_equal. rewrite <- drop_drop. apply take_drop_length.
  - apply Nat.ltb_ge in Elen. eexists. split; [reflexivity|].
    split; [exact Hplan|]. split; [reflexivity|]. simpl.
    assert (Hend : drop ps ds = []).
    { destruct (drop ps ds) as [|b l] eqn:Ed; [reflexivity|].
      unfold chunk in Elen. try rewrite Ed in Elen.
      destruct (Z.to_nat blksize) eqn:Eb; [lia|]. simpl in Elen. lia. }
    rewrite Hend, overwrite_nil by exact Hpt. symmetry. now apply insert_id.
Qed.

Lemma syscall_inl {A} c (body : world -> errno + (A * world)) w e w' :
  w_plan w = ∅ -> syscall c body w = (inl e, w') -> body w = inl e.
Proof.
  intros Hp. unfold syscall. rewrite Hp, lookup_empty.
  destruct (body w) as [e'|[a w1]]; [now intros [= <- _]|discriminate].
Qed.

Lemma resolve_intro fs p k :
  locate fs p = inr k -> (forall m t, lookup_node fs k <> Some (Lnk m t)) ->
  resolve fs p = inr k.
Proof. intros Hl Hn. unfold resolve. rewrite Hl. now apply follow_here. Qed.

Lemma only_not_dir S fs fs' p :
  only S fs fs' ->
  (forall m, lookup_node fs p <> Some (Dir m)) ->
  forall m, lookup_node fs' p <> Some (Dir m).
Proof.
  intros (_ & Hkeep & Hnew) Hn m H.
  destruct (lookup_node fs p) as [n|] eqn:E.
  - destruct (Hkeep _ _ E) as (n' & Hn' & Hk). rewrite H in Hn'.
    injection Hn' as <-. destruct n; try discriminate Hk.
    eapply Hn. reflexivity.
  - specialize (Hnew _ _ E H). discriminate.
Qed.

(** chmod, lchown and rename when no call is refused: with something
    that is not a directory at the temporary path, which leads to an
    existing file, beside a destination that is not a directory, they
    succeed. *)
Lemma finish_succeeds c tmp dst w n k nk :
  w_plan w = ∅ ->
  locate (w_fs w) tmp = inr (path_key tmp) ->
  lookup_node (w_fs w) (path_key tmp) = Some n -> is_dir n = false ->
  wants_dir tmp = false ->
  resolve (w_fs w) tmp = inr k -> lookup_node (w_fs w) k = Some nk ->
  locate (w_fs w) dst = inr (path_key dst) -> wants_dir dst = false ->
  (forall m, lookup_node (w_fs w) (path_key dst) <> Some (Dir m)) ->
  path_key tmp <> path_key dst ->
  exists w', finish c tmp dst w = (Ret 0, w').
Proof.
  intros Hplan Hlt Hn Hdir Hwt Hres Hnk Hld Hwd Hnd Hne.
  unfold finish, bind, clear_errno, call.
  destruct (chmod tmp (mode c) (set_errno None w)) as [[e|[]] w1] eqn:E1.
  { exfalso. apply syscall_inl in E1; [|exact Hplan].
    simpl in E1. rewrite Hres, Hnk, Hwt in E1. discriminate. }
  pose proof (chmod_plan _ _ _ _ _ E1) as Hp1. simpl in Hp1.
  pose proof (chmod_only _ _ _ _ _ E1) as Ho1. simpl in Ho1.
  pose proof Ho1 as (_ & Hkeep1 & _).
  destruct (Hkeep1 _ _ Hn) as (n1 & Hn1 & Hk1).
  pose proof (locate_stable _ _ _ _ _ Ho1 Hlt) as Hlt1.
  pose proof (locate_stable _ _ _ _ _ Ho1 Hld) as Hld1.
  pose proof (only_not_dir _ _ _ _ Ho1 Hnd) as Hnd1.
  destruct (lchown tmp (owner c) (group c) w1) as [[e|[]] w2] eqn:E2.
  { exfalso. apply syscall_inl in E2; [|congruence].
    simpl in E2. rewrite Hlt1, Hn1, Hwt in E2. discriminate. }
  pose proof (lchown_plan _ _ _ _ _ _ E2) as Hp2.
  pose proof (lchown_only _ _ _ _ _ _ E2) as Ho2.
  pose proof Ho2 as (_ & Hkeep2 & _).
  destruct (Hkeep2 _ _ Hn1) as (n2 & Hn2 & Hk2).
  pose proof (locate_stable _ _ _ _ _ Ho2 Hlt1) as Hlt2.
  pose proof (locate_stable _ _ _ _ _ Ho2 Hld1) as Hld2.
  pose proof (only_not_dir _ _ _ _ Ho2 Hnd1) as Hnd2.
  destruct (rename tmp dst w2) as [[e|[]] w3] eqn:E3; [|eauto].
  exfalso. apply syscall_inl in E3; [|congruence].
  simpl in E3. rewrite Hlt2, Hld2, Hn2 in E3.
  assert (Hd2 : is_dir n2 = false)
    by (destruct n2, n1, n; try discriminate; reflexivity).
  rewrite Hd2, Hwt in E3.
  destruct (decide (path_key tmp = path_key dst)); [contradiction|].
  rewrite Hwd in E3.
  destruct (lookup_node (w_fs w2) (path_key dst)) as [[| | |]|] eqn:Ed;
    try discriminate.
  eapply Hnd2. reflexivity.
Qed.

Lemma malloc_run size w :
  w_plan w = ∅ ->
  malloc size w = (true, add_log {| ev_call := CMalloc size; ev_err := None |} w).
Proof. intros H. apply malloc_unplanned. rewrite H. apply lookup_empty. Qed.

(** The copy when no call is refused: a fresh temporary file is created
    with mode 0600 less the umask and receives the bytes of the
    source. *)
Lemma copy_file_succeeds src tmp w ks ms data :
  w_plan w = ∅ -> 0 < w_blksize w ->
  resolve (w_fs w) src = inr ks ->
  lookup_node (w_fs w) ks = Some (Reg ms data) ->
  wants_dir src = false ->
  locate (w_fs w) tmp = inr (path_key tmp) ->
  lookup_node (w_fs w) (path_key tmp) = None ->
  wants_dir tmp = false ->
  exists w',
    copy_file src tmp w = (Ret tt, w') /\ w_plan w' = ∅ /\
    w_fs w' = <[path_key tmp := Reg (new_stat o0600 w) data]> (w_fs w).
Proof.
  intros Hplan Hbs Hres Hks Hws Hlt Hkt Hwt.
  pose proof (lookup_node_absent _ _ Hkt) as [Hit _].
  assert (Hne : ks <> path_key tmp) by congruence.
  assert (Hrt : resolve (w_fs w) tmp = inr (path_key tmp)).
  { apply resolve_intro; [exact Hlt|]. intros m t. congruence. }
  unfold copy_file, bind, clear_errno, call.
  assert (E1 : open src O_RDONLY (set_errno None w)
               = (inr (length (w_fds w)),
                  add_log {| ev_call := COpen src false; ev_err := None |}
                    (set_fds (w_fds w ++ [(ks, O)]) (set_errno None w)))).
  { unfold open. apply syscall_run; [exact Hplan|].
    cbv beta zeta. simpl w_fs. rewrite Hres, Hks, Hws. reflexivity. }
  rewrite (open_file_run _ _ _ _ _ E1)
    by (unfold stuck_fd; simpl; rewrite lookup_app_r, Nat.sub_diag by lia;
        simpl; rewrite Hks; reflexivity).
  match goal with
  | |- context [open_file tmp (O_RDWR_CREAT o0600) ?x] => set (w2 := x)
  end.
  assert (E2 : open tmp (O_RDWR_CREAT o0600) w2
               = (inr (length (w_fds w2)),
                  add_log {| ev_call := COpen tmp true; ev_err := None |}
                    (set_fds (w_fds w2 ++ [(path_key tmp, O)])
                       (set_fs (<[path_key tmp := Reg (new_stat o0600 w2) []]>
                                  (w_fs w2)) w2)))).
  { unfold open. apply syscall_run; [exact Hplan|].
    cbv beta zeta. simpl w_fs. rewrite Hrt, Hkt, Hwt. reflexivity. }
  rewrite (open_file_run _ _ _ _ _ E2)
    by (unfold stuck_fd; simpl; rewrite lookup_app_r, Nat.sub_diag by lia;
        simpl; unfold lookup_node; rewrite Hit, lookup_insert_eq;
        reflexivity).
  match goal with
  | |- context [malloc _ ?x] => set (w3 := x)
  end.
  cbv beta. unfold bind, call.
  rewrite (malloc_run _ w3 Hplan). cbn [negb].
  match goal with
  | |- context [copy_loop _ _ _ _ ?x] => set (w4 := x)
  end.
  assert (Hfs4 : w_fs w4 = <[path_key tmp := Reg (new_stat o0600 w) []]> (w_fs w))
    by reflexivity.
  assert (Hfds4 : w_fds w4 = (w_fds w ++ [(ks, O)]) ++ [(path_key tmp, O)])
    by reflexivity.
  assert (Hs4 : w_fds w4 !! length (w_fds w) = Some (ks, O)).
  { rewrite Hfds4, lookup_app_l by (rewrite length_app; simpl; lia).
    rewrite lookup_app_r by lia. now rewrite Nat.sub_diag. }
  assert (Hsize : file_size (length (w_fds w)) w3 = length data).
  { unfold file_size. change (w_fds w3) with (w_fds w4). rewrite Hs4.
    change (w_fs w3) with (w_fs w4). rewrite Hfs4.
    rewrite lookup_node_insert by exact Hit.
    destruct (decide _); [contradiction|]. now rewrite Hks. }
  rewrite Hsize.
  destruct (copy_loop_complete (length (w_fds w)) (length (w_fds w2))
              (w_blksize w3) (S (length data)) w4 ks O (path_key tmp) O
              ms data (new_stat o0600 w) [])
    as (w' & Hrun & Hplan' & _ & Hfs').
  - exact Hplan.
  - exact Hbs.
  - simpl. rewrite length_app. simpl. lia.
  - exact Hne.
  - exact Hs4.
  - rewrite Hfds4. rewrite lookup_app_r by (simpl; lia).
    simpl. now rewrite Nat.sub_diag.
  - rewrite Hfs4, lookup_node_insert by exact Hit.
    destruct (decide _); [contradiction|exact Hks].
  - rewrite Hfs4, lookup_node_insert by exact Hit.
    destruct (decide _); [reflexivity|contradiction].
  - simpl. lia.
  - lia.
  - exists w'. split; [exact Hrun|]. split; [exact Hplan'|].
    rewrite Hfs', Hfs4, insert_insert_eq. do 2 f_equal.
    unfold overwrite. simpl. now rewrite drop_nil, app_nil_r.
Qed.

Lemma path_decompose path l :
  scan_back path (String.length path) = S l ->
  exists t,
    path = String.substring 0 (S l) path +:+ String "/" t /\
    (forall j, is_slash (String.get j t) = false).
Proof.
  intros El. pose proof (scan_back_slash _ _ _ El) as Hs.
  destruct (String.get (S l) path) as [c|] eqn:Eg; [|discriminate].
  simpl in Hs. apply Ascii.eqb_eq in Hs. subst c.
  destruct (string_cut path (S l) "/" Eg) as (t & Ep & Ht).
  exists t. split; [exact Ep|]. intros j. rewrite Ht.
  destruct (le_lt_dec (String.length path) (S (S l) + j)) as [Hj|Hj].
  - now rewrite get_beyond.
  - apply (scan_back_after _ _ _ _ El). lia.
Qed.

Lemma substring_nonempty l path :
  (S l <= String.length path)%nat -> String.substring 0 (S l) path <> "".
Proof.
  intros H E. apply (f_equal String.length) in E.
  rewrite substring_length in E by exact H. discriminate.
Qed.

(** The key of a parent directory is not longer than the key of the
    path, and shorter when the path does not end in '/' or in ".". *)
Lemma parents_key_le fuel : forall path d,
  (String.length path < fuel)%nat -> In d (parents path) ->
  (length (path_key d) <= length (path_key path))%nat.
Proof.
  induction fuel as [|fuel IH]; intros path d Hf Hd; [lia|].
  destruct (scan_back path (String.length path)) as [|l] eqn:El.
  - rewrite (parents_none _ El) in Hd. destruct Hd.
  - pose proof (scan_back_lt _ _ El) as Hlt.
    destruct (path_decompose _ _ El) as (t & Ep & Ht).
    assert (Hk : path_key path
                 = path_key (String.substring 0 (S l) path)
                     ++ List.filter real_comp [t]).
    { rewrite Ep at 1. apply path_key_app; [|exact Ht].
      apply substring_nonempty. lia. }
    rewrite (parents_step _ _ El) in Hd. rewrite Hk, length_app.
    apply in_app_or in Hd as [Hd|[<-|[]]]; [|lia].
    specialize (IH (String.substring 0 (S l) path) d).
    rewrite substring_length in IH by lia.
    specialize (IH ltac:(lia) Hd). lia.
Qed.

Lemma parents_key_lt path d :
  wants_dir path = false -> In d (parents path) ->
  (length (path_key d) < length (path_key path))%nat.
Proof.
  intros Hw Hd.
  destruct (scan_back path (String.length path)) as [|l] eqn:El.
  - rewrite (parents_none _ El) in Hd. destruct Hd.
  - pose proof (scan_back_lt _ _ El) as Hlt.
    destruct (path_decompose _ _ El) as (t & Ep & Ht).
    set (buf := String.substring 0 (S l) path) in *.
    assert (Hb : buf <> "") by (apply substring_nonempty; lia).
    assert (Hreal : real_comp t = true).
    { unfold wants_dir in Hw. apply negb_false_iff in Hw.
      rewrite Ep, split_slash_app, (split_slash_no_slash t Ht) in Hw.
      rewrite last_last in Hw. exact Hw. }
    assert (Hk : path_key path = path_key buf ++ [t]).
    { rewrite Ep at 1. rewrite path_key_app by assumption.
      simpl. now rewrite Hreal. }
    rewrite Hk, length_app. simpl.
    rewrite (parents_step _ _ El) in Hd. fold buf in Hd.
    apply in_app_or in Hd as [Hd|[<-|[]]]; [|lia].
    pose proof (parents_key_le (S (String.length buf)) buf d
                  ltac:(lia) Hd). lia.
Qed.

Lemma follow_extends fs fs' fuel : forall k k' n,
  (forall p x, lookup_node fs p = Some x -> lookup_node fs' p = Some x) ->
  follow fuel fs k = inr k' -> lookup_node fs k' = Some n ->
  follow fuel fs' k = inr k'.
Proof.
  induction fuel as [|fuel IH]; intros k k' n Hext Hf Hn.
  - simpl in Hf |- *.
    destruct (lookup_node fs k) as [x|] eqn:E.
    + rewrite (Hext _ _ E). destruct x; exact Hf.
    + injection Hf as <-. congruence.
  - simpl in Hf |- *.
    destruct (lookup_node fs k) as [x|] eqn:E.
    + rewrite (Hext _ _ E). destruct x as [| |m t|]; try exact Hf.
      destruct (String.eqb t ""); [discriminate|].
      destruct (walk fs [] (link_dest k t)) as [e|] eqn:Ew; [discriminate|].
      rewrite (walk_mono fs fs' _
                 (fun p m H => ex_intro _ m (Hext _ _ H)) _ Ew).
      eapply IH; eassumption.
    + injection Hf as <-. congruence.
Qed.

Lemma stat_of_extends fs fs' p n :
  (forall k x, lookup_node fs k = Some x -> lookup_node fs' k = Some x) ->
  stat_of fs p = inr n -> stat_of fs' p = inr n.
Proof.
  intros Hext H. unfold stat_of in H |- *. unfold resolve in H |- *.
  destruct (locate fs p) as [e|k] eqn:El; [discriminate|].
  apply locate_inr in El as (-> & Hw & Hp).
  rewrite (locate_intro _ _ Hp
             (walk_mono fs fs' _ (fun q m H => ex_intro _ m (Hext _ _ H)) _ Hw)).
  destruct (follow MAXSYMLINKS fs (path_key p)) as [e|k] eqn:Ef; [discriminate|].
  destruct (lookup_node fs k) as [x|] eqn:Ek; [|discriminate].
  rewrite (follow_extends _ _ _ _ _ _ Hext Ef Ek), (Hext _ _ Ek). exact H.
Qed.

(** The copy, chmod, lchown and rename when no call is refused. *)
Lemma staging_succeeds c src dst w ms data :
  w_plan w = ∅ -> symbolic c = false ->
  0 <= mode c <= o07777 -> 0 < w_blksize w ->
  stat_of (w_fs w) src = inr (Reg ms data) ->
  locate (w_fs w) dst = inr (path_key dst) -> wants_dir dst = false ->
  (forall m, lookup_node (w_fs w) (path_key dst) <> Some (Dir m)) ->
  lookup_node (w_fs w) (path_key (dst +:+ ".tmp")) = None ->
  exists w',
    (do stage c src (dst +:+ ".tmp") then finish c (dst +:+ ".tmp") dst) w
    = (Ret 0, w') /\
    lstat_of (w_fs w') dst
    = inr (Reg {| st_mode := kill_suid (mode c);
                  st_uid := (if owner c =? UNCHANGED then w_uid w
                             else owner c);
                  st_gid := (if group c =? UNCHANGED then w_gid w
                             else group c) |} data) /\
    lstat_of (w_fs w') (dst +:+ ".tmp") = inl ENOENT /\
    keeps_dirs (w_fs w) (w_fs w').
Proof.
  intros Hplan Hsym Hmode Hbs Hsrc Hld Hwd Hnd Hkt.
  set (tmp := dst +:+ ".tmp") in *.
  pose proof (locate_tmp _ _ Hwd Hld) as Hlt. fold tmp in Hlt.
  pose proof (wants_dir_tmp dst) as Hwt. fold tmp in Hwt.
  pose proof (tmp_key_ne dst) as Hne. fold tmp in Hne.
  (* the source *)
  unfold stat_of in Hsrc.
  destruct (resolve (w_fs w) src) as [e|ks] eqn:Hres; [discriminate|].
  destruct (lookup_node (w_fs w) ks) as [ns|] eqn:Hks; [|discriminate].
  destruct (wants_dir src && negb (is_dir ns)) eqn:Hws0; [discriminate|].
  injection Hsrc as ->. simpl in Hws0. rewrite andb_true_r in Hws0.
  assert (Hl : exists n, lstat_of (w_fs w) src = inr n /\
                         (is_dir n = false /\ forall m, n <> Special m)).
  { unfold lstat_of. rewrite (resolve_locate _ _ _ Hres), Hws0.
    destruct (lookup_node (w_fs w) (path_key src)) as [n|] eqn:En.
    - exists n. split; [reflexivity|].
      destruct n as [m d|m|m t|m]; [split; [reflexivity|discriminate]| |
                                     split; [reflexivity|discriminate]|];
        exfalso;
        (assert (ks = path_key src)
           by (eapply resolve_here; [exact Hres|];
               intros ? ?; rewrite En; discriminate));
        congruence.
    - exfalso.
      assert (ks = path_key src)
        by (eapply resolve_here; [exact Hres|];
            intros ? ?; rewrite En; discriminate).
      congruence. }
  destruct Hl as (n & Hl & Hnd0 & Hns0).
  (* the staging *)
  set (wl := add_log {| ev_call := CLstat src; ev_err := None |}
               (set_errno None w)).
  destruct (copy_file_succeeds src tmp wl ks ms data)
    as (w5 & Hcopy & Hplan5 & Hfs5); try assumption.
  assert (Hstage : stage c src tmp w = (Ret tt, w5)).
  { unfold stage. rewrite Hsym. unfold stage_copy, bind, clear_errno, call.
    unfold lstat.
    rewrite (syscall_run (CLstat src) _ (set_errno None w)
               n (set_errno None w) Hplan)
      by (cbv beta; simpl w_fs; rewrite Hl; reflexivity).
    fold wl. destruct n as [m d|m|m t|m];
      [exact Hcopy|discriminate|exact Hcopy|now destruct (Hns0 m)]. }
  (* chmod, lchown, rename *)
  simpl in Hfs5.
  pose proof (lookup_node_absent _ _ Hkt) as [Hit _].
  assert (Ho5 : only (fun x => x = path_key tmp) (w_fs w) (w_fs w5))
    by (rewrite Hfs5; apply only_create; [exact Hkt|reflexivity]).
  assert (Hn5 : lookup_node (w_fs w5) (path_key tmp)
                = Some (Reg (new_stat o0600 wl) data)).
  { rewrite Hfs5, lookup_node_insert by exact Hit.
    destruct (decide _); [reflexivity|contradiction]. }
  assert (Hr5 : resolve (w_fs w5) tmp = inr (path_key tmp)).
  { apply resolve_intro; [exact (locate_stable _ _ _ _ _ Ho5 Hlt)|].
    intros m t. rewrite Hn5. discriminate. }
  destruct (finish_succeeds c tmp dst w5 _ _ _ Hplan5
              (locate_stable _ _ _ _ _ Ho5 Hlt) Hn5 eq_refl Hwt Hr5 Hn5
              (locate_stable _ _ _ _ _ Ho5 Hld) Hwd) as (w' & Hfin).
  { intros m. destruct Ho5 as (Hsame & _).
    rewrite Hsame by congruence. apply Hnd. }
  { exact Hne. }
  exists w'. split; [rewrite (bind_Ret _ _ _ _ _ Hstage); exact Hfin|].
  destruct (finish_spec _ _ _ _ _ _ _ Hfin Hn5 eq_refl Hne)
    as (_ & Hdst & Hgone & _).
  split; [|split; [exact Hgone|]].
  - rewrite Hdst. simpl. rewrite land_o07777 by exact Hmode. reflexivity.
  - eapply keeps_dirs_trans; [eapply only_keeps_dirs; exact Ho5|].
    eapply finish_keeps_dirs. exact Hfin.
Qed.

(** The steps before the staging when no call is refused: they return
    the temporary path; with -D, when nothing but directories is in the
    way, the parent directories of the destination are there afterwards;
    what was in the file system is unchanged and nothing has appeared
    where the destination and the temporary path are. *)
Lemma prelude_succeeds c dst w0 :
  w_plan w0 = ∅ -> mode c <= o07777 -> wants_dir dst = false ->
  (if mkdirp c
   then forall d, In d (parents dst) ->
          lookup_node (w_fs w0) (path_key d) = None \/
          exists m, lookup_node (w_fs w0) (path_key d) = Some (Dir m)
   else locate (w_fs w0) dst = inr (path_key dst)) ->
  exists w1,
    prelude c dst w0 = (Ret (dst +:+ ".tmp"), w1) /\
    w_plan w1 = ∅ /\ w_blksize w1 = w_blksize w0 /\
    process_of w1 = process_of w0 /\
    locate (w_fs w1) dst = inr (path_key dst) /\
    (forall k n, lookup_node (w_fs w0) k = Some n ->
                 lookup_node (w_fs w1) k = Some n) /\
    (forall k, length k = length (path_key dst) ->
               lookup_node (w_fs w0) k = None ->
               lookup_node (w_fs w1) k = None) /\
    (mkdirp c = true ->
     forall d, In d (parents dst) ->
       exists m, lookup_node (w_fs w1) (path_key d) = Some (Dir m)).
Proof.
  intros Hplan Hmode Hwd Hdir.
  set (w1 := add_log {| ev_call := CMalloc (Z.of_nat (String.length dst) + 5);
                        ev_err := None |} w0).
  assert (Hm : (o07777 <? mode c) = false) by (apply Z.ltb_ge; lia).
  destruct (mkdirp c) eqn:Hmk.
  - destruct (mkparents_rec_creates (S (String.length dst)) dst
                (set_errno None w1))
      as (w2 & Er & Hplan2 & Hbs2 & Hwalk2 & Hdirs2);
      [lia|exact Hplan|exact Hdir|].
    destruct (mkparents_rec_adds _ _ _ _ _ Er) as (Hproc & Hkeep & Hnew).
    simpl in Hkeep, Hnew, Hbs2.
    exists w2. split.
    { unfold prelude. rewrite Hm. unfold bind, call.
      rewrite (malloc_run _ w0 Hplan), Hmk. cbn [negb]. unfold clear_errno.
      fold w1. unfold mkparents. rewrite Er. reflexivity. }
    split; [exact Hplan2|]. split; [exact Hbs2|]. split; [exact Hproc|].
    split; [apply locate_intro; [intros ->; discriminate|exact Hwalk2]|].
    split; [exact Hkeep|]. split; [|intros _; exact Hdirs2].
    intros k Hlen Hk.
    destruct (lookup_node (w_fs w2) k) as [x|] eqn:E; [|reflexivity].
    destruct (Hnew _ _ Hk E) as (_ & d & Hd & ->).
    pose proof (parents_key_lt _ _ Hwd Hd). lia.
  - exists (set_errno None w1). split.
    { unfold prelude. rewrite Hm. unfold bind, call.
      rewrite (malloc_run _ w0 Hplan), Hmk. reflexivity. }
    split; [exact Hplan|]. split; [reflexivity|]. split; [reflexivity|].
    split; [exact Hdir|]. split; [auto|]. split; [auto|discriminate].
Qed.

(** X15: the copy works. When no call is refused or cut short, the
    source leads to a regular file, the destination is written without
    ".." and without a trailing '/', is not a directory, and nothing is
    at the temporary path, and either the directory of the destination
    exists or -D is given and nothing but directories is in the way of
    its parent directories, then main (without -l, with a mode up to
    07777 and a positive block size) returns 0: the destination is a
    regular file with the bytes of the source, the requested mode less
    the set-ID bits that lchown clears, and the owner and the group
    that were requested (when they are not (uid_t) -1); the temporary
    path is gone; with -D every parent directory of the destination
    exists. *)
Theorem copy_succeeds c src dst w0 ms data :
  w_plan w0 = ∅ -> symbolic c = false ->
  0 <= mode c <= o07777 -> 0 < w_blksize w0 ->
  stat_of (w_fs w0) src = inr (Reg ms data) ->
  no_dotdot dst = true -> wants_dir dst = false ->
  (if mkdirp c
   then forall d, In d (parents dst) ->
          lookup_node (w_fs w0) (path_key d) = None \/
          exists m, lookup_node (w_fs w0) (path_key d) = Some (Dir m)
   else locate (w_fs w0) dst = inr (path_key dst)) ->
  (forall m, lookup_node (w_fs w0) (path_key dst) <> Some (Dir m)) ->
  lookup_node (w_fs w0) (path_key (dst +:+ ".tmp")) = None ->
  exists w' m,
    install c src dst w0 = (Ret 0, w') /\
    lstat_of (w_fs w') dst = inr (Reg m data) /\
    st_mode m = kill_suid (mode c) /\
    (owner c <> UNCHANGED -> st_uid m = owner c) /\
    (group c <> UNCHANGED -> st_gid m = group c) /\
    lstat_of (w_fs w') (dst +:+ ".tmp") = inl ENOENT /\
    (mkdirp c = true ->
     forall d, In d (parents dst) ->
       exists m, lookup_node (w_fs w') (path_key d) = Some (Dir m)).
Proof.
  intros Hplan Hsym Hmode Hbs Hsrc _ Hwd Hdir Hnd Hkt.
  destruct (prelude_succeeds c dst w0 Hplan (proj2 Hmode) Hwd Hdir)
    as (w1 & Hpre & Hplan1 & Hbs1 & Hproc & Hld1 & Hkeep & Hfresh & Hdirs1).
  destruct (staging_succeeds c src dst w1 ms data)
    as (w' & Hrun & Hdst & Hgone & Hk); try assumption.
  - lia.
  - eapply stat_of_extends; [exact Hkeep|exact Hsrc].
  - intros m E.
    destruct (lookup_node (w_fs w0) (path_key dst)) as [x|] eqn:E0.
    + apply Hkeep in E0. rewrite E in E0. injection E0 as <-.
      eapply Hnd. reflexivity.
    + rewrite (Hfresh _ eq_refl E0) in E. discriminate.
  - apply Hfresh; [|exact Hkt].
    destruct (tmp_key_beside dst Hwd) as (d & x & -> & ->).
    rewrite !length_app. reflexivity.
  - exists w'. eexists.
    split; [unfold install; rewrite (bind_Ret _ _ _ _ _ Hpre); exact Hrun|].
    split; [exact Hdst|]. split; [reflexivity|]. cbn [st_uid st_gid].
    split; [intros Ho; now rewrite (proj2 (Z.eqb_neq _ _) Ho)|].
    split; [intros Hg; now rewrite (proj2 (Z.eqb_neq _ _) Hg)|].
    split; [exact Hgone|].
    intros Hmk d Hd. destruct (Hdirs1 Hmk d Hd) as [m Hm1].
    eapply Hk. exact Hm1.
Qed.

Lemma copy_succeeds_witness :
  let w := Scenario.world_of 1000 (Scenario.fs_src 1000) ∅ in
  let c := {| mkdirp := true; symbolic := false; owner := 1000; group := 1000;
              mode := o0755 |} in
  exists w',
    install c "src.txt" "a/b/dst.txt" w = (Ret 0, w') /\
    lstat_of (w_fs w') "a/b/dst.txt"
    = inr (Reg (Scenario.owned 1000 1000 o0755) (Scenario.bytes "hello world")).
Proof.
  intros w c.
  destruct (copy_succeeds c "src.txt" "a/b/dst.txt" w
              (Scenario.owned 1000 1000 420) (Scenario.bytes "hello world"))
    as (w' & m & Hrun & Hdst & Hm & Hu & Hg & _);
    try (vm_compute; reflexivity).
  - vm_compute. split; discriminate.
  - cbn [mkdirp c]. intros d Hd.
    change (parents "a/b/dst.txt") with ["a"; "a/b"] in Hd.
    destruct Hd as [<-|[<-|[]]]; left; vm_compute; reflexivity.
  - intros m. vm_compute. discriminate.
  - exists w'. split; [exact Hrun|]. rewrite Hdst.
    destruct m as [mm mu mg]. cbn [st_mode st_uid st_gid] in Hm, Hu, Hg.
    rewrite Hm, Hu, Hg by (vm_compute; discriminate). reflexivity.
Defined.

(** ** A link that nothing prevents *)






(** * The claims about what a run leaves behind *)

(** ** The temporary path and the parent directories *)




(** ** The checks on the source (C6) *)



(** ** The result of a successful install (C1) *)

(** The worlds of the examples cut no write short. *)
Lemma whole_writes_world_of uid fs plan :
  whole_writes (Scenario.world_of uid fs plan).
Proof.
  intros i n. simpl. rewrite lookup_fmap.
  destruct (plan !! i); discriminate.
Qed.




(** ** A stale temporary file (C10) *)

(** C10: the temporary path is opened with O_CREAT but neither O_TRUNC
    nor O_EXCL. When a regular file longer than the source is already
    there as the copy starts and no write is cut short, a run that
    returns 0 installs the first [k] bytes of the source ([k] is the
    length of the source when no read failed: all of it) followed by
    the bytes that the old temporary file had beyond them. The bytes
    that it had beyond the length of the source, of which there is at
    least one, are the end of the destination. *)
Theorem stale_temporary_bytes_installed
    argv w w' c src dst w0 tmp w1 ms data mt old :
  main argv w = (Ret 0, w') ->
  parse_args argv w = (Ret (c, src, dst), w0) ->
  prelude c dst w0 = (Ret tmp, w1) ->
  symbolic c = false ->
  stat_of (w_fs w1) src = inr (Reg ms data) ->
  lstat_of (w_fs w1) tmp = inr (Reg mt old) ->
  (length data < length old)%nat ->
  whole_writes w1 ->
  tmp = dst +:+ ".tmp" /\
  (exists m k,
     (k <= length data)%nat /\
     lstat_of (w_fs w') dst = inr (Reg m (take k data ++ drop k old)) /\
     (0 < w_blksize w1 -> reads_ok (w_log w') -> k = length data) /\
     drop (length data) old `suffix_of` take k data ++ drop k old) /\
  drop (length data) old <> [].
Proof.
  intros Hmain Hparse Hpre Hsym Hsrc Htmp Hlen Hww.
  rewrite (main_install _ _ _ _ _ _ Hparse) in Hmain.
  split; [eapply prelude_ret; exact Hpre|].
  assert (Hd : data <> old) by (intros ->; lia).
  destruct (copy_install_spec c src dst w0 w' tmp w1 ms data old
              Hmain Hpre Hsym Hsrc
              (or_intror (ex_intro _ mt (conj Htmp Hd))))
    as (mt' & content & Hdst & Hc & _).
  destruct (Hc Hww) as (k & Hk & -> & Hall).
  split.
  - eexists. exists k. split; [exact Hk|]. split; [exact Hdst|].
    split; [exact Hall|].
    exists (take k data ++ take (length data - k) (drop k old)).
    rewrite <- app_assoc. f_equal.
    rewrite <- (take_drop (length data - k) (drop k old)) at 1.
    f_equal. rewrite drop_drop. f_equal. lia.
  - intros E. apply (f_equal (@length _)) in E.
    rewrite length_drop in E. simpl in E. lia.
Qed.

Lemma stale_temporary_bytes_installed_witness :
  let argv := ["install"; "src.txt"; "dst.txt"] in
  let w := Scenario.world_of 1000
             (<[ ["dst.txt.tmp"] :=
                   Reg (Scenario.owned 1000 1000 o0600)
                       (Scenario.bytes "0123456789abcdefghij") ]>
                (Scenario.fs_src 1000)) ∅ in
  exists m k,
    lstat_of (w_fs (snd (main argv w))) "dst.txt"
      = inr (Reg m (take k (Scenario.bytes "hello world")
                      ++ drop k (Scenario.bytes "0123456789abcdefghij"))) /\
    Scenario.bytes "bcdefghij"
      `suffix_of` take k (Scenario.bytes "hello world")
                    ++ drop k (Scenario.bytes "0123456789abcdefghij").
Proof.
  intros argv w.
  set (c := initial_config w).
  assert (H1 : main argv w = (Ret 0, snd (main argv w)))
    by (vm_compute; reflexivity).
  assert (H2 : parse_args argv w = (Ret (c, "src.txt", "dst.txt"), w))
    by (vm_compute; reflexivity).
  assert (H3 : prelude c "dst.txt" w
               = (Ret "dst.txt.tmp", snd (prelude c "dst.txt" w)))
    by (vm_compute; reflexivity).
  assert (H4 : stat_of (w_fs (snd (prelude c "dst.txt" w))) "src.txt"
               = inr (Reg (Scenario.owned 1000 1000 420)
                          (Scenario.bytes "hello world")))
    by (vm_compute; reflexivity).
  assert (H5 : lstat_of (w_fs (snd (prelude c "dst.txt" w))) "dst.txt.tmp"
               = inr (Reg (Scenario.owned 1000 1000 o0600)
                          (Scenario.bytes "0123456789abcdefghij")))
    by (vm_compute; reflexivity).
  assert (H6 : (length (Scenario.bytes "hello world")
                < length (Scenario.bytes "0123456789abcdefghij"))%nat)
    by (vm_compute; lia).
  assert (H7 : whole_writes (snd (prelude c "dst.txt" w)))
    by (eapply whole_writes_plan;
          [exact (proj1 (prelude_plan _ _ _ _ _ H3))
          |apply whole_writes_world_of]).
  destruct (stale_temporary_bytes_installed argv w _ c "src.txt" "dst.txt" w
              "dst.txt.tmp" _ _ _ _ _ H1 H2 H3 eq_refl H4 H5 H6 H7)
    as (_ & (m & k & _ & Hdst & _ & Hsuf) & _).
  exists m, k. split; [exact Hdst|exact Hsuf].
Defined.

(** ** Failures after staging (C8) *)



(** ** A failed read ends the copy (C9) *)





















